(** * s3-rollup: a shallow embedding of [python/main.py]

    The producer walks S3 prefixes, groups access-log objects by date,
    bin-packs every date into [RollupTask]s and interleaves the per-prefix
    task streams; the worker receives tasks from SQS, downloads the
    objects, makes one tarball and optionally deletes the sources.

    Conventions of the embedding:
    - Python [str] is the [string] of its UTF-8 encoding.  Searching for
      an ASCII character, slicing at a position found that way and
      comparing give the same on the encoding as on the characters;
      [s[:n]] counts characters, and [\d] and [int] ask the Unicode
      database, which is a parameter outside ASCII.
    - Python [int] is [Z].
    - A generator that is run to its end is a value of [gen A]: the items
      it yields, in order, closed by a normal return or by the exception
      that escapes from it.
    - What the outside world answers (S3 listings, the clock, the random
      token, download results, the order in which futures complete) is a
      parameter of the function that asks for it. *)

From Stdlib Require Import ZArith Lia Bool List Ascii String.
From Stdlib Require Import Sorted Permutation.
Import ListNotations.

Local Open Scope string_scope.
Local Open Scope list_scope.

(** ** Exceptions and results *)

Inductive exn : Type :=
| ValueError
| RuntimeError
| NotADirectoryError
| RecursionError
| DownloadError.

Inductive result (A : Type) : Type :=
| Ok (a : A)
| Err (e : exn).

Arguments Ok {A} a.
Arguments Err {A} e.

Definition bind {A B : Type} (r : result A) (f : A -> result B) : result B :=
  match r with
  | Ok a => f a
  | Err e => Err e
  end.

Notation "x <- r ;; k" := (bind r (fun x => k))
  (at level 61, r at next level, right associativity).

(** ** Generators run to completion *)

Inductive gen (A : Type) : Type :=
| Return
| Raise (e : exn)
| Yield (a : A) (rest : gen A).

Arguments Return {A}.
Arguments Raise {A} e.
Arguments Yield {A} a rest.

Inductive ending : Type :=
| Returned
| Raised (e : exn).

Fixpoint gen_items {A : Type} (g : gen A) : list A :=
  match g with
  | Return | Raise _ => []
  | Yield a rest => a :: gen_items rest
  end.

Fixpoint gen_end {A : Type} (g : gen A) : ending :=
  match g with
  | Return => Returned
  | Raise e => Raised e
  | Yield _ rest => gen_end rest
  end.

(** [iter(l)] for a list [l]. *)
Fixpoint gen_of_list {A : Type} (l : list A) : gen A :=
  match l with
  | [] => Return
  | a :: l' => Yield a (gen_of_list l')
  end.

(** [for x in g1: yield x] followed by the code that yields [g2]; an
    exception of [g1] escapes and [g2] never runs. *)
Fixpoint gen_app {A : Type} (g1 g2 : gen A) : gen A :=
  match g1 with
  | Return => g2
  | Raise e => Raise e
  | Yield a rest => Yield a (gen_app rest g2)
  end.

Fixpoint gen_map {A B : Type} (f : A -> B) (g : gen A) : gen B :=
  match g with
  | Return => Return
  | Raise e => Raise e
  | Yield a rest => Yield (f a) (gen_map f rest)
  end.

Fixpoint gen_size {A : Type} (g : gen A) : nat :=
  match g with
  | Return | Raise _ => 1
  | Yield _ rest => S (gen_size rest)
  end.

(** ** Strings *)

Definition sep : ascii := "/"%char.

Definition is_digit (c : ascii) : bool :=
  let n := nat_of_ascii c in (48 <=? n)%nat && (n <=? 57)%nat.

Definition digit_value (c : ascii) : Z := Z.of_nat (nat_of_ascii c) - 48.

(** [s.count(c)] for a one-character [c]. *)
Fixpoint count (c : ascii) (s : string) : nat :=
  match s with
  | EmptyString => 0
  | String a s' => (if Ascii.eqb a c then 1 else 0) + count c s'
  end.

(** [s.rstrip(c)]. *)
Fixpoint rstrip (c : ascii) (s : string) : string :=
  match s with
  | EmptyString => EmptyString
  | String a s' =>
      match rstrip c s' with
      | EmptyString => if Ascii.eqb a c then EmptyString else String a EmptyString
      | r => String a r
      end
  end.

(** [s.endswith(c)]. *)
Fixpoint endswith (c : ascii) (s : string) : bool :=
  match s with
  | EmptyString => false
  | String a EmptyString => Ascii.eqb a c
  | String _ s' => endswith c s'
  end.

(** [s.split(c)]: never empty, [''.split('/') = ['']]. *)
Fixpoint split_on (c : ascii) (s : string) : list string :=
  match s with
  | EmptyString => [EmptyString]
  | String a s' =>
      if Ascii.eqb a c then EmptyString :: split_on c s'
      else match split_on c s' with
           | h :: t => String a h :: t
           | [] => [String a EmptyString]
           end
  end.

(** [c.join(l)]. *)
Fixpoint join (c : ascii) (l : list string) : string :=
  match l with
  | [] => EmptyString
  | [s] => s
  | s :: l' => (s ++ String c (join c l'))%string
  end.

(** [s.rfind(c)], [None] for -1. *)
Fixpoint rfind (c : ascii) (s : string) : option nat :=
  match s with
  | EmptyString => None
  | String a s' =>
      match rfind c s' with
      | Some i => Some (S i)
      | None => if Ascii.eqb a c then Some 0%nat else None
      end
  end.

(** The first [n] bytes, and what follows them: [s[:i]] and [s[i:]] for
    a position [i] that [rfind] gave. *)
Fixpoint take_bytes (n : nat) (s : string) : string :=
  match n with
  | O => EmptyString
  | S n' =>
      match s with
      | EmptyString => EmptyString
      | String c s' => String c (take_bytes n' s')
      end
  end.

Fixpoint drop (i : nat) (s : string) : string :=
  match i, s with
  | O, _ => s
  | S i', String _ s' => drop i' s'
  | S _, EmptyString => EmptyString
  end.

(** How many bytes the character takes whose encoding starts with [b]. *)
Definition char_width (b : ascii) : nat :=
  let n := nat_of_ascii b in
  if (n <? 192)%nat then 1
  else if (n <? 224)%nat then 2
  else if (n <? 240)%nat then 3
  else 4.

(** The first character of [s] and what follows it. *)
Definition next_char (s : string) : option (string * string) :=
  match s with
  | EmptyString => None
  | String b _ => Some (take_bytes (char_width b) s, drop (char_width b) s)
  end.

(** [s[:n]]: the first [n] characters. *)
Fixpoint take (n : nat) (s : string) : string :=
  match n with
  | O => EmptyString
  | S n' =>
      match next_char s with
      | None => EmptyString
      | Some (c, rest) => (c ++ take n' rest)%string
      end
  end.

(** [s.rsplit(c, 1)[0]]: what stands before the last [c], the whole of
    [s] when there is none. *)
Definition rsplit1_head (c : ascii) (s : string) : string :=
  match rfind c s with
  | Some i => take_bytes i s
  | None => s
  end.

(** [S3URI.from_segments(bucket, key).key]: the path of the URL
    [s3://bucket/key] without its leading slash.  [urlparse] removes
    every tab, carriage return and line feed from the URL and ends the
    path at the first [#] or [?]; the bucket is a host name that
    [urlparse] found before, so the path starts where the key does. *)
Definition unsafe_url_byte (c : ascii) : bool :=
  let n := nat_of_ascii c in
  (n =? 9)%nat || (n =? 13)%nat || (n =? 10)%nat.

Fixpoint remove_unsafe (s : string) : string :=
  match s with
  | EmptyString => EmptyString
  | String c s' =>
      if unsafe_url_byte c then remove_unsafe s' else String c (remove_unsafe s')
  end.

Fixpoint path_of_url (s : string) : string :=
  match s with
  | EmptyString => EmptyString
  | String c s' =>
      if Ascii.eqb c "#" || Ascii.eqb c "?" then EmptyString
      else String c (path_of_url s')
  end.

Definition from_segments_key (key : string) : string :=
  path_of_url (remove_unsafe key).

(** ** [pathlib.PurePosixPath] *)

Module PurePosixPath.

Record t : Type := mk { root : string; parts : list string }.

(** The number of leading slashes decides the root: two give [//],
    one or more than two give [/]. *)
Fixpoint leading (s : string) : nat :=
  match s with
  | String a s' => if Ascii.eqb a sep then S (leading s') else 0
  | EmptyString => 0
  end.

Definition parse_root (s : string) : string :=
  match leading s with
  | 0%nat => ""
  | 2%nat => "//"
  | _ => "/"
  end.

Definition keep (seg : string) : bool :=
  negb (String.eqb seg "") && negb (String.eqb seg ".").

Definition parse (s : string) : t :=
  mk (parse_root s) (filter keep (split_on sep s)).

(** [p.name]: the last component, empty when there is none. *)
Definition name (p : t) : string := last (parts p) "".

(** [p.suffix]. *)
Definition suffix (p : t) : string :=
  let n := name p in
  match rfind "."%char n with
  | Some i =>
      if (0 <? i)%nat && (i <? String.length n - 1)%nat then drop i n else ""
  | None => ""
  end.

(** [str(p)]. *)
Definition to_string (p : t) : string :=
  match root p, parts p with
  | "", [] => "."
  | r, ps => (r ++ join sep ps)%string
  end.

(** [p.with_name(n)]. *)
Definition with_name (p : t) (n : string) : result t :=
  if String.eqb (name p) "" then Err ValueError
  else if String.eqb n "" || negb (count sep n =? 0)%nat || String.eqb n "."
  then Err ValueError
  else Ok (mk (root p) (removelast (parts p) ++ [n])).

End PurePosixPath.

(** [PurePosixPath(key).name]. *)
Definition basename (key : string) : string :=
  PurePosixPath.name (PurePosixPath.parse key).

(** ** RollupTask *)

Definition TARBALL_PREFIX : string := "rollup".

Record RollupTask : Type := mkRollupTask {
  s3_role : string;
  bucket_name : string;
  common_prefix : string;
  basenames : list string
}.

Definition len (task : RollupTask) : Z := Z.of_nat (List.length (basenames task)).

Definition object_keys (task : RollupTask) : list string :=
  map (fun bn => (common_prefix task ++ bn)%string) (basenames task).

Definition date_str (task : RollupTask) : result string :=
  match basenames task with
  | [] => Err ValueError
  | bn :: _ => Ok (take 10 (basename bn))
  end.

(** [random_str] is what [secrets.token_hex(4)] returns. *)
Definition tarball_key (task : RollupTask) (random_str : string) : result string :=
  match basenames task with
  | [] => Err ValueError
  | _ :: _ =>
      let p := PurePosixPath.parse (hd "" (object_keys task)) in
      d <- date_str task ;;
      q <- PurePosixPath.with_name p
             (TARBALL_PREFIX ++ "-" ++ d ++ "-" ++ random_str ++ ".tgz")%string ;;
      Ok (PurePosixPath.to_string q)
  end.

(** [range(start, stop, step)] for a positive step. *)
Definition range_len (start stop step : Z) : nat :=
  Z.to_nat ((stop - start + step - 1) / step).

Definition range (start stop step : Z) : list Z :=
  map (fun j => (start + Z.of_nat j * step)%Z) (seq 0 (range_len start stop step)).

(** [l[i:j]] for [0 <= i <= j]. *)
Definition slice {A : Type} (l : list A) (i j : Z) : list A :=
  firstn (Z.to_nat (j - i)) (skipn (Z.to_nat i) l).

(** [range] raises on a zero step and is empty on a negative one. *)
Definition split (task : RollupTask) (chunk_size : Z) : gen RollupTask :=
  if (chunk_size =? 0)%Z then Raise ValueError
  else if (chunk_size <? 0)%Z then Return
  else
    gen_of_list
      (map (fun i =>
              mkRollupTask (s3_role task) (bucket_name task) (common_prefix task)
                (slice (basenames task) i (i + chunk_size)))
           (range 0 (len task) chunk_size)).

Definition test_task : RollupTask :=
  mkRollupTask "arn:aws:iam::123456789012:role/s3-rollup-bucket-access"
    "bucket1" "example.com/"
    [ "2022-06-30-16-13-48-F7334FE15D46A819";
      "2022-06-30-17-13-48-F7334FE15D46A819";
      "2022-06-30-18-13-48-F7334FE15D46A819";
      "2022-06-30-19-13-48-F7334FE15D46A819";
      "2022-06-30-20-13-48-F7334FE15D46A819";
      "2022-06-30-21-13-48-F7334FE15D46A819";
      "2022-06-30-22-13-48-F7334FE15D46A819";
      "2022-06-30-23-13-48-F7334FE15D46A819" ].


(** ** S3Path

    [Node key entries] is an [S3Path] by its key and by what
    [_list_objects] answers for it under [CommonPrefixes].  An entry is
    the listed prefix together with the entries of the [S3Path] that
    [folders] builds from that prefix. *)

Unset Elimination Schemes.
Inductive S3Path : Type :=
| Node (key : string) (common_prefixes : list S3Path).
Set Elimination Schemes.

Definition key_of (p : S3Path) : string :=
  match p with Node k _ => k end.

Definition is_dir (p : S3Path) : bool :=
  if String.eqb (key_of p) "" then true else endswith sep (key_of p).

Definition is_file (p : S3Path) : bool := negb (is_dir p).

Definition depth (p : S3Path) : Z :=
  Z.of_nat (count sep (rstrip sep (key_of p))).

Definition entries (p : S3Path) : list S3Path :=
  match p with Node _ cs => cs end.

(** [S3Path(self.s3, S3URI.from_segments(self.bucket, key))] for an
    entry with the prefix [key]. *)
Definition built (entry : S3Path) : S3Path :=
  Node (from_segments_key (key_of entry)) (entries entry).

Definition folders (p : S3Path) : gen S3Path :=
  if is_file p then Raise NotADirectoryError
  else gen_of_list (map built (entries p)).

(** [find_folders] called on the [S3Path] built from an entry: the
    recursive call of the source, which descends into [built entry]
    and so into the entries of [entry]. *)
Fixpoint find_folders_built (max_depth : Z) (entry : S3Path) : gen S3Path :=
  match entry with
  | Node k cs =>
      if is_file (built (Node k cs)) then Raise NotADirectoryError
      else
        (fix loop (fs : list S3Path) : gen S3Path :=
           match fs with
           | [] => Return
           | entry' :: fs' =>
               let folder := built entry' in
               if (depth folder >=? max_depth)%Z then Return
               else Yield folder
                      (gen_app (find_folders_built max_depth entry') (loop fs'))
           end) cs
  end.

(** The [for folder in self.folders] loop over the entries of a
    listing; [break] ends it. *)
Fixpoint find_folders_in (max_depth : Z) (fs : list S3Path) : gen S3Path :=
  match fs with
  | [] => Return
  | entry :: fs' =>
      let folder := built entry in
      if (depth folder >=? max_depth)%Z then Return
      else Yield folder
             (gen_app (find_folders_built max_depth entry)
                      (find_folders_in max_depth fs'))
  end.

Definition find_folders (max_depth : Z) (p : S3Path) : gen S3Path :=
  if is_file p then Raise NotADirectoryError
  else find_folders_in max_depth (entries p).

(** Every entry below a node, parents before children, in listing
    order. *)
Fixpoint descendants (p : S3Path) : list S3Path :=
  match p with
  | Node _ cs => flat_map (fun c => c :: descendants c) cs
  end.

(** No listed prefix of the tree is changed on its way through the URI:
    [folders] hands out every entry as it is listed. *)
Fixpoint uri_safe (p : S3Path) : bool :=
  match p with
  | Node _ cs =>
      forallb (fun c => String.eqb (from_segments_key (key_of c)) (key_of c)
                        && uri_safe c) cs
  end.

(** The layout of the test suite's bucket, as far as folders go. *)
Definition test_bucket : S3Path :=
  Node ""
    [ Node "log/" [ Node "log/example.com/" [] ];
      Node "log2/" [ Node "log2/example.org/" [] ];
      Node "media/" [];
      Node "one/"
        [ Node "one/two/"
            [ Node "one/two/three/"
                [ Node "one/two/three/four/"
                    [ Node "one/two/three/four/five/"
                        [ Node "one/two/three/four/five/six/" [] ] ] ] ] ] ].

(** ** Objects, URIs and the access-log key pattern *)

Record ObjectSummary : Type := mkObject { key : string; size : Z }.

Record S3URI : Type := mkURI { bucket : string; uri_key : string }.

(** One position of the pattern [\d{4}-\d{2}-\d{2}-\d{2}-\d{2}-\d{2}]. *)
Inductive pat : Type := D | Hy.

Definition datetime_pattern : list pat :=
  [D; D; D; D; Hy; D; D; Hy; D; D; Hy; D; D; Hy; D; D; Hy; D; D].

(** Two tables of decimal digits outside ASCII: none at all, and the
    Arabic-Indic digits U+0660 to U+0669 by their encoding. *)
Definition ascii_only (c : string) : option Z := None.

Definition arabic_indic (c : string) : option Z :=
  match c with
  | String a (String b EmptyString) =>
      if (nat_of_ascii a =? 217)%nat
         && (160 <=? nat_of_ascii b)%nat && (nat_of_ascii b <=? 169)%nat
      then Some (Z.of_nat (nat_of_ascii b) - 160)%Z
      else None
  | _ => None
  end.

(** A digit of the Arabic-Indic script by its encoding, and a key
    whose year is written with such digits. *)
Definition arabic_indic_digit (n : nat) : string :=
  String (ascii_of_nat 217) (String (ascii_of_nat (160 + n)) "").

Definition arabic_indic_year : string :=
  (arabic_indic_digit 2 ++ arabic_indic_digit 0
   ++ arabic_indic_digit 1 ++ arabic_indic_digit 3)%string.

Definition arabic_indic_key : string :=
  ("example.com/" ++ arabic_indic_year ++ "-11-01-21-32-16-E568B2907131C0C0")%string.

(** The same year in front of a month and a day out of range. *)
Definition arabic_indic_bad_key : string :=
  ("example.com/" ++ arabic_indic_year ++ "-13-45-00-00-00-E568B2907131C0C0")%string.

(** A log of the year 2099, written with those digits. *)
Definition arabic_indic_future_key : string :=
  ("example.com/"
   ++ arabic_indic_digit 2 ++ arabic_indic_digit 0
   ++ arabic_indic_digit 9 ++ arabic_indic_digit 9
   ++ "-11-01-21-32-16-E568B2907131C0C0")%string.

Section Unicode.

(** The decimal value that the Unicode database of the Python in use
    gives a character outside ASCII, [None] when it has none. *)
Variable unicode_decimal : string -> option Z.

(** The decimal value of a character: what makes [\d] match it, and
    what [int] reads it as. *)
Definition decimal (c : string) : option Z :=
  match c with
  | String b EmptyString =>
      if (nat_of_ascii b <? 128)%nat
      then if is_digit b then Some (digit_value b) else None
      else unicode_decimal c
  | _ => unicode_decimal c
  end.

Definition pat_ok (p : pat) (c : string) : bool :=
  match p with
  | D => match decimal c with Some _ => true | None => false end
  | Hy => String.eqb c "-"
  end.

(** [re.match(pattern, s)]: the pattern has to match at the start of [s],
    character by character; what follows is free. *)
Fixpoint re_match (ps : list pat) (s : string) : bool :=
  match ps with
  | [] => true
  | p :: ps' =>
      match next_char s with
      | None => false
      | Some (c, rest) => pat_ok p c && re_match ps' rest
      end
  end.

Definition _is_access_log (_key : string) : bool :=
  let k := PurePosixPath.parse _key in
  let starts_with_datetime := re_match datetime_pattern (PurePosixPath.name k) in
  let has_no_suffix := String.eqb (PurePosixPath.suffix k) "" in
  if starts_with_datetime && has_no_suffix then true else false.

(** ** Dates and [datetime.strptime(s, '%Y-%m-%d')] *)

Record date : Type := mkDate { year : Z; month : Z; day : Z }.

Definition date_ltb (a b : date) : bool :=
  ((year a <? year b)
   || ((year a =? year b)
       && ((month a <? month b)
           || ((month a =? month b) && (day a <? day b)))))%Z.

Definition date_geb (a b : date) : bool := negb (date_ltb a b).

Definition is_leap (y : Z) : bool :=
  ((y mod 4 =? 0) && (negb (y mod 100 =? 0) || (y mod 400 =? 0)))%Z.

Definition days_in_month (y m : Z) : Z :=
  (if (m =? 2) then (if is_leap y then 29 else 28)
   else if (m =? 4) || (m =? 6) || (m =? 9) || (m =? 11) then 30
   else 31)%Z.

(** The constructor of [datetime.date]: years 1 to 9999, a day that the
    month has. *)
Definition make_date (y m d : Z) : option date :=
  if ((1 <=? y) && (y <=? 9999) && (1 <=? m) && (m <=? 12)
      && (1 <=? d) && (d <=? days_in_month y m))%Z
  then Some (mkDate y m d) else None.

Definition in_range (lo hi : ascii) (c : ascii) : bool :=
  (nat_of_ascii lo <=? nat_of_ascii c)%nat && (nat_of_ascii c <=? nat_of_ascii hi)%nat.

(** A two-character alternative [[a-b][c-d]] of a directive, read as a
    number.  The classes are ranges of ASCII, so they match one byte. *)
Definition alt2 (r1 r2 : ascii -> bool) (s : string) : list (Z * string) :=
  match s with
  | String a (String b s') =>
      if r1 a && r2 b then [((10 * digit_value a + digit_value b)%Z, s')] else []
  | _ => []
  end.

Definition alt1 (r : ascii -> bool) (s : string) : list (Z * string) :=
  match s with
  | String a s' => if r a then [(digit_value a, s')] else []
  | _ => []
  end.

(** [%m] is [1[0-2]|0[1-9]|[1-9]], alternatives in this order. *)
Definition month_alts (s : string) : list (Z * string) :=
  alt2 (in_range "1" "1") (in_range "0" "2") s
  ++ alt2 (in_range "0" "0") (in_range "1" "9") s
  ++ alt1 (in_range "1" "9") s.

(** The alternative [[a-b]\d]: an ASCII digit of the range and any
    character with a decimal value, read together by [int]. *)
Definition alt_decimal (r : ascii -> bool) (s : string) : list (Z * string) :=
  match s with
  | String a s' =>
      if r a then
        match next_char s' with
        | Some (c, rest) =>
            match decimal c with
            | Some v => [((10 * digit_value a + v)%Z, rest)]
            | None => []
            end
        | None => []
        end
      else []
  | EmptyString => []
  end.

(** [%d] is [3[0-1]|[1-2]\d|0[1-9]|[1-9]| [1-9]]. *)
Definition day_alts (s : string) : list (Z * string) :=
  alt2 (in_range "3" "3") (in_range "0" "1") s
  ++ alt_decimal (in_range "1" "2") s
  ++ alt2 (in_range "0" "0") (in_range "1" "9") s
  ++ alt1 (in_range "1" "9") s
  ++ match s with
     | String " "%char s' => alt1 (in_range "1" "9") s'
     | _ => []
     end.

(** [n] characters with a decimal value, read as one number by [int]. *)
Fixpoint read_decimals (n : nat) (acc : Z) (s : string) : option (Z * string) :=
  match n with
  | O => Some (acc, s)
  | S n' =>
      match next_char s with
      | Some (c, rest) =>
          match decimal c with
          | Some v => read_decimals n' (10 * acc + v) rest
          | None => None
          end
      | None => None
      end
  end.

(** [%Y] is [\d\d\d\d]. *)
Definition year_alt (s : string) : option (Z * string) := read_decimals 4 0 s.

Definition eat_hyphen (s : string) : option string :=
  match s with
  | String "-"%char s' => Some s'
  | _ => None
  end.

(** The month alternatives are tried in order, each followed by the
    hyphen and by the first day alternative that matches; backtracking
    takes the first month for which all of that succeeds. *)
Fixpoint match_month_day (alts : list (Z * string)) : option (Z * Z * string) :=
  match alts with
  | [] => None
  | (m, s) :: alts' =>
      match eat_hyphen s with
      | Some s' =>
          match day_alts s' with
          | (d, s'') :: _ => Some (m, d, s'')
          | [] => match_month_day alts'
          end
      | None => match_month_day alts'
      end
  end.

(** [None] stands for the [ValueError] of [strptime]: the string does
    not match the format, data remains after the match, or the fields are
    no date. *)
Definition strptime_ymd (s : string) : option date :=
  match year_alt s with
  | Some (y, s1) =>
      match eat_hyphen s1 with
      | Some s2 =>
          match match_month_day (month_alts s2) with
          | Some (m, d, EmptyString) => make_date y m d
          | _ => None
          end
      | None => None
      end
  | None => None
  end.

(** Ten characters [YYYY-MM-DD] read as three decimal numbers, in
    whatever script the digits are written. *)
Definition date_fields (s : string) : option date :=
  match read_decimals 4 0 s with
  | Some (y, s1) =>
      match eat_hyphen s1 with
      | Some s2 =>
          match read_decimals 2 0 s2 with
          | Some (m, s3) =>
              match eat_hyphen s3 with
              | Some s4 =>
                  match read_decimals 2 0 s4 with
                  | Some (d, EmptyString) => Some (mkDate y m d)
                  | _ => None
                  end
              | None => None
              end
          | None => None
          end
      | None => None
      end
  | None => None
  end.

(** The characters name a day of the calendar: a year from 1 to 9999,
    a month from 1 to 12 and a day of that month. *)
Definition calendar_date (s : string) : Prop :=
  exists dt, date_fields s = Some dt /\
    (1 <= year dt <= 9999 /\ 1 <= month dt <= 12
     /\ 1 <= day dt <= days_in_month (year dt) (month dt))%Z.

(** The same for ten ASCII characters, field by field: [YYYY-MM-DD]
    with a year from 1 to 9999, a month from 1 to 12 and a day of that
    month. *)
Definition valid_calendar_date (s : string) : Prop :=
  exists y1 y2 y3 y4 m1 m2 d1 d2 : ascii,
    s = String y1 (String y2 (String y3 (String y4 (String "-"
          (String m1 (String m2 (String "-" (String d1 (String d2 ""))))))))) /\
    Forall (fun c => is_digit c = true) [y1; y2; y3; y4; m1; m2; d1; d2] /\
    let y := (1000 * digit_value y1 + 100 * digit_value y2
              + 10 * digit_value y3 + digit_value y4)%Z in
    let m := (10 * digit_value m1 + digit_value m2)%Z in
    let d := (10 * digit_value d1 + digit_value d2)%Z in
    (1 <= y <= 9999 /\ 1 <= m <= 12 /\ 1 <= d <= days_in_month y m)%Z.

(** ** Task building for one prefix *)

(** [_group_objects]: [next] on an exhausted iterator raises
    [StopIteration], which leaves a generator as [RuntimeError]; an
    exception of the input escapes where the input is advanced, and the
    group under construction is lost with it. *)
Section GroupObjects.

Variables max_size max_items : Z.

Fixpoint _group_objects_loop (objects : gen ObjectSummary)
    (group : list ObjectSummary) (group_size : Z) : gen (list ObjectSummary) :=
  match objects with
  | Return => Yield group Return
  | Raise e => Raise e
  | Yield current objects' =>
      if ((group_size + size current <=? max_size)
          && (Z.of_nat (List.length group) + 1 <=? max_items))%Z
      then _group_objects_loop objects' (group ++ [current]) (group_size + size current)
      else Yield group (_group_objects_loop objects' [current] (size current))
  end.

Definition _group_objects (objects : gen ObjectSummary) : gen (list ObjectSummary) :=
  match objects with
  | Return => Raise RuntimeError
  | Raise e => Raise e
  | Yield initial objects' => _group_objects_loop objects' [initial] (size initial)
  end.

End GroupObjects.

(** [itertools.groupby(objects, key)] for a key function that may raise.
    A group is the run of consecutive objects with one key; an exception
    of the key function escapes from the group that was being read, and
    from the outer iterator as well. *)
Section GroupBy.

Context {K : Type}.
Variable key_eqb : K -> K -> bool.
Variable keyfunc : ObjectSummary -> result K.

(** The rest of the group with key [k], and the groups after it. *)
Fixpoint groupby_from (k : K) (objects : list ObjectSummary)
    : gen ObjectSummary * gen (K * gen ObjectSummary) :=
  match objects with
  | [] => (Return, Return)
  | o :: objects' =>
      match keyfunc o with
      | Err e => (Raise e, Raise e)
      | Ok k' =>
          if key_eqb k' k then
            let (g, out) := groupby_from k objects' in (Yield o g, out)
          else
            let (g, out) := groupby_from k' objects' in
            (Return, Yield (k', Yield o g) out)
      end
  end.

Definition groupby (objects : list ObjectSummary) : gen (K * gen ObjectSummary) :=
  match objects with
  | [] => Return
  | o :: objects' =>
      match keyfunc o with
      | Err e => Raise e
      | Ok k =>
          let (g, out) := groupby_from k objects' in Yield (k, Yield o g) out
      end
  end.

End GroupBy.

Section MakeTasks.

(** [datetime.utcnow().date()]. *)
Variable utc_today : date.

Definition _date_getter (object_summary : ObjectSummary) : result string :=
  let date_str := take 10 (basename (key object_summary)) in
  match strptime_ymd date_str with
  | None => Err ValueError
  | Some date_obj =>
      if date_geb date_obj utc_today then Ok "" else Ok date_str
  end.

Definition max_size_default : Z := 1024 * 1024 * 1024 * 5.
Definition max_items_default : Z := 6000.

Definition make_task (s3_role : string) (prefix : S3URI)
    (obj_group : list ObjectSummary) : RollupTask :=
  mkRollupTask s3_role (bucket prefix)
    (rsplit1_head sep (uri_key prefix) ++ "/")%string
    (map (fun o => basename (key o)) obj_group).

(** The loop over the date groups; [break] on the empty marker. *)
Fixpoint _make_tasks_loop (s3_role : string) (prefix : S3URI)
    (groups : gen (string * gen ObjectSummary)) : gen RollupTask :=
  match groups with
  | Return => Return
  | Raise e => Raise e
  | Yield (date_str, _obj_group) groups' =>
      if String.eqb date_str "" then Return
      else
        gen_app
          (gen_map (make_task s3_role prefix)
             (_group_objects max_size_default max_items_default _obj_group))
          (_make_tasks_loop s3_role prefix groups')
  end.

(** [listing] is what [bucket.objects.filter(Prefix=prefix.key)]
    enumerates. *)
Definition _make_tasks (s3_role : string) (prefix : S3URI)
    (listing : list ObjectSummary) : gen RollupTask :=
  let objects := filter (fun o => _is_access_log (key o)) listing in
  _make_tasks_loop s3_role prefix (groupby String.eqb _date_getter objects).

End MakeTasks.

(** ** Round-robin scheduling of the prefixes *)

Section Scheduler.

Context {A : Type}.

(** What is left to do: one step for every item and one for every
    generator to end. *)
Definition makers_size (ms : list (gen A)) : nat :=
  list_sum (map gen_size ms).

(** The [while active_task_makers] loop.  [next] on the generator at
    the left either yields, and the generator goes to the right end
    ([rotate(-1)]), or stops, and the generator is dropped and the next
    pending one appended, or raises, and the exception escapes.  Every
    turn uses up an item or a generator, so [fuel] above [makers_size]
    of both lists is never used up. *)
Fixpoint make_tasks_loop (fuel : nat)
    (active_task_makers task_makers : list (gen A)) : gen A :=
  match fuel with
  | O => Return
  | S fuel' =>
      match active_task_makers with
      | [] => Return
      | Yield a g :: active => Yield a (make_tasks_loop fuel' (active ++ [g]) task_makers)
      | Raise e :: _ => Raise e
      | Return :: active =>
          match task_makers with
          | m :: task_makers' => make_tasks_loop fuel' (active ++ [m]) task_makers'
          | [] => make_tasks_loop fuel' active []
          end
      end
  end.

Definition window : nat := 20.

(** [make_tasks] for a bucket in the region of the session and a
    discovery of prefixes that comes to its end: [task_makers] holds one
    generator per log prefix, in the order [find_log_prefixes] gives
    them. *)
Definition make_tasks (task_makers : list (gen A)) : gen A :=
  make_tasks_loop (S (makers_size task_makers))
    (firstn window task_makers) (skipn window task_makers).

(** [deque(itertools.islice(task_makers, n))] for the lazy sequence of
    generators that the source has: the first [n] of them and what is
    left of the sequence.  The sequence is advanced here, so its
    exception escapes from here. *)
Fixpoint islice (n : nat) (task_makers : gen (gen A))
    : result (list (gen A) * gen (gen A)) :=
  match n with
  | O => Ok ([], task_makers)
  | S n' =>
      match task_makers with
      | Return => Ok ([], Return)
      | Raise e => Err e
      | Yield m task_makers' =>
          active <- islice n' task_makers' ;;
          Ok (m :: fst active, snd active)
      end
  end.

(** The loop again, with [next(task_makers)] on the lazy sequence:
    only [StopIteration] is caught. *)
Fixpoint make_tasks_lazy_loop (fuel : nat)
    (active_task_makers : list (gen A)) (task_makers : gen (gen A)) : gen A :=
  match fuel with
  | O => Return
  | S fuel' =>
      match active_task_makers with
      | [] => Return
      | Yield a g :: active =>
          Yield a (make_tasks_lazy_loop fuel' (active ++ [g]) task_makers)
      | Raise e :: _ => Raise e
      | Return :: active =>
          match task_makers with
          | Yield m task_makers' => make_tasks_lazy_loop fuel' (active ++ [m]) task_makers'
          | Return => make_tasks_lazy_loop fuel' active Return
          | Raise e => Raise e
          end
      end
  end.

(** [make_tasks] as a whole.  [same_region] is the outcome of the
    comparison of the bucket's location with the region of the session;
    [task_makers] is the generator expression over [find_log_prefixes],
    which runs the discovery only as far as it is asked. *)
Definition make_tasks_lazy (same_region : bool) (task_makers : gen (gen A)) : gen A :=
  if same_region then
    match islice window task_makers with
    | Err e => Raise e
    | Ok (active, rest) =>
        make_tasks_lazy_loop (S (makers_size (gen_items task_makers))) active rest
    end
  else Raise ValueError.

End Scheduler.

(** Every task marked with the position of its prefix in the sequence
    of log prefixes. *)
Fixpoint tag_from {A : Type} (i : nat) (task_makers : list (gen A)) : list (gen (nat * A)) :=
  match task_makers with
  | [] => []
  | m :: task_makers' => gen_map (pair i) m :: tag_from (S i) task_makers'
  end.

Definition tag_makers {A : Type} (task_makers : list (gen A)) : list (gen (nat * A)) :=
  tag_from 0 task_makers.

(** The loop with all the fuel it can need. *)
Definition run {A : Type} (active_task_makers task_makers : list (gen A)) : gen A :=
  make_tasks_loop (S (makers_size active_task_makers + makers_size task_makers))
    active_task_makers task_makers.

(** The first item of a generator, if it has one. *)
Definition first_item {A : Type} (g : gen A) : list A := firstn 1 (gen_items g).

(** ** The queue *)

(** [queue_tasks]: the messages sent, in order, and how the call ends.
    [depth] is the room left on the call stack; running out of it is
    Python's [RecursionError].  Formatting the task for [print] reads
    [date_str], so a task without basenames raises before anything is
    sent for it. *)
Fixpoint queue_tasks (depth : nat) (tasks : gen RollupTask) : gen RollupTask :=
  match depth with
  | O => Raise RecursionError
  | S depth' =>
      (fix loop (tasks : gen RollupTask) : gen RollupTask :=
         match tasks with
         | Return => Return
         | Raise e => Raise e
         | Yield task tasks' =>
             if (len task >? 6000)%Z then
               gen_app (queue_tasks depth' (split task 6000)) (loop tasks')
             else
               match date_str task with
               | Err e => Raise e
               | Ok _ => Yield task (loop tasks')
               end
         end) tasks
  end.

(** [_delete_objects_in_task]: the key lists of the [delete_objects]
    calls, in order, and how the call ends. *)
Fixpoint _delete_objects_in_task (depth : nat) (task : RollupTask) : gen (list string) :=
  match depth with
  | O => Raise RecursionError
  | S depth' =>
      if (len task >? 1000)%Z then
        (fix loop (parts : gen RollupTask) : gen (list string) :=
           match parts with
           | Return => Return
           | Raise e => Raise e
           | Yield part parts' =>
               gen_app (_delete_objects_in_task depth' part) (loop parts')
           end) (split task 1000)
      else Yield (object_keys task) Return
  end.

(** A generator seen from its caller: between two items it may act on
    the queue, and what stands after a [CYield] runs only if the caller
    asks for the next item. *)
Inductive coroutine (M : Type) : Type :=
| CReturn
| CRaise (e : exn)
| CYield (task : RollupTask) (k : coroutine M)
| CDelete (message : M) (k : coroutine M).

#[global] Arguments CReturn {M}.
#[global] Arguments CRaise {M} e.
#[global] Arguments CYield {M} task k.
#[global] Arguments CDelete {M} message k.

Section Worker.

(** A received message, and [RollupTask( **json.loads(message.body))]. *)
Variable Message : Type.
Variable loads : Message -> result RollupTask.

(** [messages] is what [receive_messages] returned.  The task is
    formatted for [print] before it is yielded. *)
Fixpoint get_tasks (messages : list Message) : coroutine Message :=
  match messages with
  | [] => CReturn
  | message :: messages' =>
      match loads message with
      | Err e => CRaise e
      | Ok task =>
          match date_str task with
          | Err e => CRaise e
          | Ok _ => CYield task (CDelete message (get_tasks messages'))
          end
      end
  end.

(** What an observer of the worker sees. *)
Inductive event : Type :=
| Processed (task : RollupTask)
| Failed (task : RollupTask) (e : exn)
| Deleted (message : Message)
| Escaped (e : exn).

(** What [do_task] does with a task: the tarball key or an exception. *)
Variable process : RollupTask -> result string.

(** [for task in tasks: roller.do_task(task, args.delete)].  An
    exception of the body leaves the loop; the generator is never
    resumed. *)
Fixpoint worker_loop (tasks : coroutine Message) : list event :=
  match tasks with
  | CReturn => []
  | CRaise e => [Escaped e]
  | CDelete message k => Deleted message :: worker_loop k
  | CYield task k =>
      match process task with
      | Ok _ => Processed task :: worker_loop k
      | Err e => [Failed task e]
      end
  end.

End Worker.

#[global] Arguments Processed {Message} task.
#[global] Arguments Failed {Message} task e.
#[global] Arguments Deleted {Message} message.
#[global] Arguments Escaped {Message} e.

(** ** The worker's task *)

(** [sorted]: a stable sort, here by insertion. *)
Section Sorting.

Context {A : Type}.
Variable leb : A -> A -> bool.

Fixpoint insert (x : A) (l : list A) : list A :=
  match l with
  | [] => [x]
  | y :: l' => if leb x y then x :: y :: l' else y :: insert x l'
  end.

Definition sorted (l : list A) : list A := fold_right insert [] l.

End Sorting.

(** A local path by its components; [pathlib] orders paths as the lists
    of their components. *)
Definition Path : Type := list string.

Fixpoint path_compare (p q : Path) : comparison :=
  match p, q with
  | [], [] => Eq
  | [], _ :: _ => Lt
  | _ :: _, [] => Gt
  | a :: p', b :: q' =>
      match String.compare a b with
      | Eq => path_compare p' q'
      | c => c
      end
  end.

Definition path_leb (p q : Path) : bool :=
  match path_compare p q with
  | Gt => false
  | _ => true
  end.

(** [dir / name] for a [name] that is one component or empty. *)
Definition path_join (dir : Path) (name : string) : Path :=
  if String.eqb name "" then dir else dir ++ [name].

Definition path_name (p : Path) : string := last p "".

Definition path_eqb (p q : Path) : bool :=
  match path_compare p q with
  | Eq => true
  | _ => false
  end.

Record TaskOutcome : Type := mkOutcome {
  members : list string;
  original_file_count : Z;
  original_file_size : Z;
  uploaded_key : string;
  delete_calls : list (list string)
}.

(** The sizes of the downloads in the order the futures complete; the
    first failure escapes. *)
Fixpoint collect (download : string -> result Z) (completed : list string)
    (total_size : Z) : result Z :=
  match completed with
  | [] => Ok total_size
  | k :: completed' =>
      file_size <- download k ;;
      collect download completed' (total_size + file_size)
  end.

(** [tarball.add(local_path, arcname=local_path.name)] for every path
    of [paths]: the member names of the archive at [tarball_path].
    [tarfile] skips a path that is the archive's own. *)
Definition add_all (tarball_path : Path) (paths : list Path) : list string :=
  map path_name (filter (fun local_path => negb (path_eqb local_path tarball_path)) paths).

(** [do_task].  [tmpdir] is the temporary directory, [download] what
    [_download_file] returns for a key, [completed] the keys in the
    order in which their futures complete.  The tarball is written into
    the directory of the downloads. *)
Definition do_task (task : RollupTask) (delete : bool)
    (tmpdir : Path) (random_str : string) (depth : nat)
    (download : string -> result Z) (completed : list string)
    : result TaskOutcome :=
  let local_paths := map (fun k => path_join tmpdir (basename k)) (object_keys task) in
  total_size <- collect download completed 0%Z ;;
  d <- date_str task ;;
  let tarball_path := path_join tmpdir (d ++ ".tgz")%string in
  let tarball := add_all tarball_path (sorted path_leb local_paths) in
  tarball_key <- tarball_key task random_str ;;
  let deletion :=
    if delete then _delete_objects_in_task depth task else Return in
  match gen_end deletion with
  | Raised e => Err e
  | Returned =>
      Ok (mkOutcome tarball (len task) total_size tarball_key (gen_items deletion))
  end.

(** ** Reading the derived properties of a task

    The three properties behind one interface: which one is read, and
    what reading it gives. *)

Inductive derived : Type := ObjectKeys | DateStr | TarballKey.

Inductive derived_value : Type :=
| Keys (l : list string)
| Str (s : string).

Definition access (p : derived) (task : RollupTask) (random_str : string)
    : result derived_value :=
  match p with
  | ObjectKeys => Ok (Keys (object_keys task))
  | DateStr => s <- date_str task ;; Ok (Str s)
  | TarballKey => s <- tarball_key task random_str ;; Ok (Str s)
  end.

Definition empty_task : RollupTask :=
  mkRollupTask "arn:aws:iam::123456789012:role/s3-rollup-bucket-access" "bucket2" "" [].

(** [sum(o.size for o in bin)]. *)
Definition sum_sizes (bin : list ObjectSummary) : Z :=
  fold_right Z.add 0%Z (map size bin).

(** What the bin-packing promises of one bin. *)
Definition bin_ok (max_size max_items : Z) (bin : list ObjectSummary) : Prop :=
  ((sum_sizes bin <= max_size)%Z \/ List.length bin = 1%nat) /\
  (Z.of_nat (List.length bin) <= max_items)%Z.

(** A tree of directories in which every listing is one level deeper
    than the one above it: the folders listed by the node have depth
    [d], the folders they list have depth [d + 1], and so on. *)
Fixpoint layered (d : Z) (p : S3Path) : bool :=
  match p with
  | Node k cs =>
      is_dir (Node k cs)
      && forallb (fun c => (depth c =? d)%Z && layered (d + 1) c) cs
  end.

(** A task of 6001 access logs of one day. *)
Definition big_task : RollupTask :=
  mkRollupTask "arn:aws:iam::123456789012:role/s3-rollup-bucket-access"
    "bucket1" "example.com/"
    (repeat "2022-06-30-16-13-48-F7334FE15D46A819" (Z.to_nat 6001)).

(** The worker mode of [cli]: [tasks = roller.get_tasks(count)] and the
    loop over it. *)
Definition worker (Message : Type) (loads : Message -> result RollupTask)
    (process : RollupTask -> result string) (messages : list Message)
    : list (event Message) :=
  worker_loop Message process (get_tasks Message loads messages).

(** The events of a worker run in which a message was deleted. *)
Definition deleted {Message : Type} (trace : list (event Message)) : list Message :=
  flat_map (fun ev => match ev with Deleted m => [m] | _ => [] end) trace.

(** What the worker shows for a message it handles to the end. *)
Definition handled {Message : Type} (loads : Message -> result RollupTask)
    (message : Message) : list (event Message) :=
  match loads message with
  | Ok task => [Processed task; Deleted message]
  | Err e => [Escaped e]
  end.

(** A small queue: message [n] carries one access log of hour [n]; the
    worker fails on the task of message 2. *)
Definition sample_loads (n : nat) : result RollupTask :=
  Ok (mkRollupTask "role" "bucket1" "example.com/"
        [String (ascii_of_nat (48 + n)) "022-06-30-16-13-48-F7334FE15D46A819"]).

Definition sample_process (task : RollupTask) : result string :=
  match basenames task with
  | ["2022-06-30-16-13-48-F7334FE15D46A819"] => Err DownloadError
  | _ => Ok "example.com/rollup.tgz"
  end.

(** The ten digits of ASCII. *)
Definition digits : list ascii :=
  ["0"; "1"; "2"; "3"; "4"; "5"; "6"; "7"; "8"; "9"]%char.

(** A key that qualifies as an access log although its month and day
    are out of range. *)
Definition bad_date_key : string := "example.com/2022-13-45-00-00-00-E568B2907131C0C0".

(** The date of an object lies before [today]. *)
Definition past_date (today : date) (o : ObjectSummary) : Prop :=
  exists dt, strptime_ymd (take 10 (basename (key o))) = Some dt /\
             date_ltb dt today = true.

(** Three logs of New Year's Day 2023 and one of a later day. *)
Definition sample_listing : list ObjectSummary :=
  [ mkObject "example.com/2023-01-01-19-13-48-F7334FE15D46A819" 3;
    mkObject "example.com/2023-01-01-20-13-48-F7334FE15D46A819" 3;
    mkObject "example.com/hello.txt" 10;
    mkObject "example.com/2023-01-01-21-13-48-F7334FE15D46A819" 3;
    mkObject "example.com/2023-01-04-19-13-48-F7334FE15D46A819" 3;
    mkObject "example.com/2023-01-04-20-13-48-F7334FE15D46A819" 3 ].

Definition sample_prefix : S3URI := mkURI "bucket1" "example.com/".

(** Every object of a group of [groupby] has the key of the group. *)
Definition group_keyed (keyfunc : ObjectSummary -> result string)
    (kg : string * gen ObjectSummary) : Prop :=
  Forall (fun o => keyfunc o = Ok (fst kg)) (gen_items (snd kg)).

(** A group and the groups after it, when the key function raises [e]
    further on: the exception ends the group, or the group ends and the
    exception ends what the loop makes of the groups after it. *)
Definition ends_raised (s3_role : string) (prefix : S3URI) (e : exn)
    (g : gen ObjectSummary) (out : gen (string * gen ObjectSummary)) : Prop :=
  gen_end g = Raised e \/
  (gen_end g = Returned /\ gen_end (_make_tasks_loop s3_role prefix out) = Raised e).


(** ** Further models *)

(** [key[len(parent):]] when [key] starts with [parent]. *)
Fixpoint strip_prefix (parent k : string) : option string :=
  match parent, k with
  | EmptyString, _ => Some k
  | String a parent', String b k' =>
      if Ascii.eqb a b then strip_prefix parent' k' else None
  | String _ _, EmptyString => None
  end.

(** The shape of an entry of [CommonPrefixes] for [Prefix=parent] and
    the delimiter, for keys without empty segments: the parent, one
    non-empty segment free of the delimiter, and the delimiter. *)
Definition common_prefix_of (parent k : string) : bool :=
  match strip_prefix parent k with
  | Some r => endswith sep r && (count sep r =? 1)%nat && (1 <? String.length r)%nat
  | None => false
  end.

(** A tree in which every listed folder has that shape. *)
Fixpoint s3_shaped (p : S3Path) : bool :=
  match p with
  | Node k cs => forallb (fun c => common_prefix_of k (key_of c) && s3_shaped c) cs
  end.


(** [find_log_prefixes], by the keys of the URIs it yields.  [files]
    answers, for an [S3Path], with the keys under [Contents] of its
    listing; each of them is tested as the key of the URI built from it.
    Reading the files of a file-like node raises. *)
Section FindLogPrefixes.

Variable files : S3Path -> list string.

Definition has_log (p : S3Path) : bool :=
  existsb (fun k => _is_access_log (from_segments_key k)) (files p).

Fixpoint find_log_prefixes_in (found : gen S3Path) : gen string :=
  match found with
  | Return => Return
  | Raise e => Raise e
  | Yield folder found' =>
      if is_file folder then Raise NotADirectoryError
      else if has_log folder then Yield (key_of folder) (find_log_prefixes_in found')
      else find_log_prefixes_in found'
  end.

Definition find_log_prefixes (root : S3Path) (max_depth : Z) : gen string :=
  if is_file root then Yield (key_of root) Return
  else
    gen_app (if has_log root then Yield (key_of root) Return else Return)
            (find_log_prefixes_in (find_folders max_depth root)).

End FindLogPrefixes.

(** The files of the test suite's bucket, by folder. *)
Definition test_files (p : S3Path) : list string :=
  let k := key_of p in
  if String.eqb k "" then ["root.jpg"]
  else if String.eqb k "media/" then ["media/photo-1.jpg"; "media/photo-2.jpg"]
  else if String.eqb k "log/example.com/" then
    ["log/example.com/2022-07-01-05-15-43-42117B9A70B0F1BA";
     "log/example.com/robots.txt"]
  else if String.eqb k "log2/example.org/" then
    ["log2/example.org/2022-07-01-05-15-43-42117B9A70B0F1BA"]
  else if String.eqb k "one/two/three/four/five/six/" then
    ["one/two/three/four/five/six/2022-07-02-00-21-50-EA56CA33F44CFE0E"]
  else [].

(** The producer mode of [cli] for the log prefixes of one root:
    [roller.queue_tasks(roller.make_tasks(...))], with [listing] the
    objects that the bucket enumerates under a prefix. *)
Definition producer (utc_today : date) (depth : nat) (s3_role : string)
    (listing : S3URI -> list ObjectSummary) (log_prefixes : list S3URI)
    : gen RollupTask :=
  queue_tasks depth
    (make_tasks
       (map (fun prefix => _make_tasks utc_today s3_role prefix (listing prefix))
            log_prefixes)).

(** The object is a direct child of the common prefix of [prefix]: its
    key is that prefix followed by a name of one segment. *)
Definition direct_child (prefix : S3URI) (o : ObjectSummary) : Prop :=
  exists name,
    key o = ((rsplit1_head sep (uri_key prefix) ++ "/") ++ name)%string /\
    count sep name = 0 /\ name <> "" /\ name <> ".".

(** The basenames of all tasks of a generator, in order. *)
Definition all_basenames (tasks : gen RollupTask) : list string :=
  List.concat (map basenames (gen_items tasks)).

(** The one task of [sample_listing] on 4 January 2023. *)
Definition sample_task : RollupTask :=
  mkRollupTask "role" "bucket1" "example.com/"
    [ "2023-01-01-19-13-48-F7334FE15D46A819";
      "2023-01-01-20-13-48-F7334FE15D46A819";
      "2023-01-01-21-13-48-F7334FE15D46A819" ].

(** The tasks of [items] that come from the prefix at position [i]. *)
Definition from_prefix {A : Type} (i : nat) (items : list (nat * A)) : list A :=
  map snd (filter (fun x => Nat.eqb (fst x) i) items).

(** The generator has an item of the kind [P]. *)
Definition yields_some {A : Type} (P : A -> bool) (g : gen A) : bool :=
  existsb P (gen_items g).

(** [handle_sqs_event]: the records pushed by SQS, each decoded,
    formatted for [print], processed with [delete=True] and then deleted
    from the queue. *)
Section SqsEvent.

Variable Record_ : Type.
Variable loads : Record_ -> result RollupTask.
Variable process : RollupTask -> result string.

Fixpoint handle_sqs_event (records : list Record_) : list (event Record_) :=
  match records with
  | [] => []
  | record :: records' =>
      match loads record with
      | Err e => [Escaped e]
      | Ok task =>
          match date_str task with
          | Err e => [Escaped e]
          | Ok _ =>
              match process task with
              | Err e => [Failed task e]
              | Ok _ => Processed task :: Deleted record :: handle_sqs_event records'
              end
          end
      end
  end.

End SqsEvent.

(** A queue whose message 2 carries a task without basenames. *)
Definition poisoned_loads (n : nat) : result RollupTask :=
  match n with
  | 2 => Ok empty_task
  | _ => Ok sample_task
  end.

(** The fields of ten characters [YYYY-MM-DD] read as decimal numbers. *)
Definition read_date (s : string) : date :=
  match s with
  | String y1 (String y2 (String y3 (String y4 (String _
      (String m1 (String m2 (String _ (String d1 (String d2 _))))))))) =>
      mkDate (1000 * digit_value y1 + 100 * digit_value y2
              + 10 * digit_value y3 + digit_value y4)
             (10 * digit_value m1 + digit_value m2)
             (10 * digit_value d1 + digit_value d2)
  | _ => mkDate 0 0 0
  end.

(** The other half of the table: two digits in the range of a month and
    two in the range of a day are read by the directives, with nothing
    left over. *)
Definition month_day_read (m1 m2 d1 d2 : ascii) : bool :=
  let m := (10 * digit_value m1 + digit_value m2)%Z in
  let d := (10 * digit_value d1 + digit_value d2)%Z in
  if ((1 <=? m) && (m <=? 12) && (1 <=? d) && (d <=? 31))%Z then
    match match_month_day
            (month_alts (String m1 (String m2 (String "-" (String d1 (String d2 ""))))))
    with
    | Some (m', d', EmptyString) => ((m' =? m) && (d' =? d))%Z
    | _ => false
    end
  else true.

(** A bin is closed only when the next object does not fit: the first
    object of every later bin would have taken its predecessor over the
    size or over the count. *)
Fixpoint greedy (max_size max_items : Z) (bins : list (list ObjectSummary)) : Prop :=
  match bins with
  | [] => True
  | bin :: rest =>
      match rest with
      | (next :: _) :: _ =>
          (max_size < sum_sizes bin + size next)%Z
          \/ (max_items < Z.of_nat (List.length bin) + 1)%Z
      | _ => True
      end /\ greedy max_size max_items rest
  end.

(** * Properties *)

(** ** Generators *)

Lemma gen_items_of_list {A : Type} (l : list A) : gen_items (gen_of_list l) = l.
Proof. induction l as [|a l IH]; simpl; [reflexivity | now rewrite IH]. Qed.

Lemma gen_end_of_list {A : Type} (l : list A) : gen_end (gen_of_list l) = Returned.
Proof. induction l as [|a l IH]; simpl; auto. Qed.

Lemma gen_items_map {A B : Type} (f : A -> B) (g : gen A) :
  gen_items (gen_map f g) = map f (gen_items g).
Proof. induction g as [| e | a g IH]; simpl; [reflexivity | reflexivity | now rewrite IH]. Qed.

Lemma gen_end_map {A B : Type} (f : A -> B) (g : gen A) :
  gen_end (gen_map f g) = gen_end g.
Proof. induction g as [| e | a g IH]; simpl; auto. Qed.

Lemma gen_items_app_returned {A : Type} (g1 g2 : gen A) :
  gen_end g1 = Returned ->
  gen_items (gen_app g1 g2) = gen_items g1 ++ gen_items g2.
Proof.
  induction g1 as [| e | a g1 IH]; simpl; intros H.
  - reflexivity.
  - discriminate.
  - now rewrite IH.
Qed.

Lemma gen_end_app_returned {A : Type} (g1 g2 : gen A) :
  gen_end g1 = Returned -> gen_end (gen_app g1 g2) = gen_end g2.
Proof.
  induction g1 as [| e | a g1 IH]; simpl; intros H; auto; discriminate.
Qed.

Lemma gen_app_raised {A : Type} (g1 g2 : gen A) (e : exn) :
  gen_end g1 = Raised e -> gen_app g1 g2 = g1.
Proof.
  induction g1 as [| e' | a g1 IH]; simpl; intros H.
  - discriminate.
  - reflexivity.
  - now rewrite IH.
Qed.

Lemma gen_items_app_in {A : Type} (g1 g2 : gen A) (x : A) :
  In x (gen_items (gen_app g1 g2)) -> In x (gen_items g1) \/ In x (gen_items g2).
Proof.
  induction g1 as [| e | a g1 IH]; simpl; intros H.
  - now right.
  - contradiction.
  - destruct H as [H | H]; [now left; left |].
    destruct (IH H); [left; now right | now right].
Qed.

(** ** Slices of a list *)

Lemma firstn_plus {A : Type} (a b : nat) (l : list A) :
  firstn (a + b) l = firstn a l ++ firstn b (skipn a l).
Proof.
  revert l; induction a as [|a IH]; intros l; simpl.
  - reflexivity.
  - destruct l as [|x l]; simpl.
    + now rewrite firstn_nil.
    + now rewrite IH.
Qed.

Lemma concat_slices {A : Type} (m : nat) (l : list A) (c : nat) :
  List.concat (map (fun j => firstn m (skipn (j * m) l)) (seq 0 c)) = firstn (c * m) l.
Proof.
  induction c as [|c IH].
  - reflexivity.
  - rewrite seq_S, map_app, List.concat_app, IH. simpl.
    rewrite app_nil_r, (Nat.add_comm m (c * m)). symmetry. apply firstn_plus.
Qed.

(** ** RollupTask.split *)

Lemma split_items (task : RollupTask) (n : Z) :
  (0 < n)%Z ->
  split task n =
  gen_of_list
    (map (fun j => mkRollupTask (s3_role task) (bucket_name task) (common_prefix task)
                     (firstn (Z.to_nat n) (skipn (j * Z.to_nat n) (basenames task))))
         (seq 0 (range_len 0 (len task) n))).
Proof.
  intros Hn. unfold split.
  destruct (Z.eqb_spec n 0) as [E | _]; [lia |].
  destruct (Z.ltb_spec n 0) as [E | _]; [lia |].
  f_equal. unfold range. rewrite map_map. apply map_ext. intros j.
  f_equal. unfold slice. f_equal.
  - f_equal. lia.
  - f_equal. rewrite Z.add_0_l, Z2Nat.inj_mul, Nat2Z.id by lia. reflexivity.
Qed.

Lemma range_len_ceil (length n : Z) :
  (0 <= length)%Z -> (0 < n)%Z ->
  let c := Z.of_nat (range_len 0 length n) in
  (c = (length + n - 1) / n /\ length <= c * n < length + n)%Z.
Proof.
  intros Hl Hn. cbv zeta. unfold range_len. rewrite Z.sub_0_r.
  assert (0 <= (length + n - 1) / n)%Z by (apply Z.div_pos; lia).
  rewrite Z2Nat.id by assumption. split; [reflexivity |].
  pose proof (Z.div_mod (length + n - 1) n ltac:(lia)) as E.
  pose proof (Z.mod_pos_bound (length + n - 1) n Hn).
  rewrite (Z.mul_comm _ n). lia.
Qed.

Lemma split_concat (task : RollupTask) (n : Z) :
  (0 < n)%Z ->
  List.concat (map basenames (gen_items (split task n))) = basenames task.
Proof.
  intros Hn. rewrite split_items, gen_items_of_list, map_map by assumption.
  cbn [basenames]. rewrite concat_slices. apply firstn_all2.
  destruct (range_len_ceil (len task) n) as [_ [Hc _]]; [unfold len; lia | assumption |].
  unfold len in Hc. apply Nat2Z.inj_le.
  rewrite Nat2Z.inj_mul, Z2Nat.id by lia. exact Hc.
Qed.

(** C5.  For every task and every [n > 0], [task.split(n)] ends normally
    with [ceil(len(task)/n)] chunks; every chunk has the role, bucket
    and prefix of the task and at most [n] basenames; the basenames of
    the chunks, concatenated in order, are those of the task.  A task of
    8 basenames gives 4 chunks of 2 for [split(2)], 2 chunks of 4 for
    [split(4)] and 1 chunk of 8 for [split(99)]. *)
Theorem split_partitions (task : RollupTask) (n : Z) :
  (0 < n)%Z ->
  let chunks := gen_items (split task n) in
  gen_end (split task n) = Returned /\
  (let c := Z.of_nat (List.length chunks) in
   c = (len task + n - 1) / n /\ len task <= c * n < len task + n)%Z /\
  Forall (fun chunk =>
            s3_role chunk = s3_role task /\
            bucket_name chunk = bucket_name task /\
            common_prefix chunk = common_prefix task /\
            (len chunk <= n)%Z) chunks /\
  List.concat (map basenames chunks) = basenames task /\
  (List.length (basenames task) = 8%nat ->
   map len (gen_items (split task 2)) = [2; 2; 2; 2]%Z /\
   map len (gen_items (split task 4)) = [4; 4]%Z /\
   map len (gen_items (split task 99)) = [8]%Z).
Proof.
  intros Hn chunks. subst chunks.
  split; [| split; [| split; [| split]]].
  - rewrite split_items by assumption. apply gen_end_of_list.
  - rewrite split_items, gen_items_of_list, length_map, length_seq by assumption.
    apply range_len_ceil; [unfold len; lia | assumption].
  - rewrite split_items, gen_items_of_list by assumption.
    apply Forall_forall. intros chunk Hin.
    apply in_map_iff in Hin. destruct Hin as [j [<- _]]. cbn.
    repeat split. unfold len. cbn. rewrite length_firstn. lia.
  - now apply split_concat.
  - intros H8. destruct task as [r b p bs]. cbn in H8.
    do 9 (destruct bs as [|? bs]; try discriminate). repeat split.
Qed.

Lemma split_partitions_witness :
  gen_end (split test_task 2) = Returned /\
  map len (gen_items (split test_task 2)) = [2; 2; 2; 2]%Z /\
  List.concat (map basenames (gen_items (split test_task 2))) = basenames test_task.
Proof.
  pose proof (split_partitions test_task 2 ltac:(lia)) as H. cbv zeta in H.
  destruct H as [He [_ [_ [Hc Hs]]]].
  split; [exact He | split; [| exact Hc]].
  exact (proj1 (Hs eq_refl)).
Defined.

(** ** Derived properties of a task without basenames *)

(** C8, as the spec has it, fails: [object_keys] of a task without
    basenames is the empty list, not an error. *)
Lemma empty_task_object_keys_no_error :
  basenames empty_task = [] /\
  ~ (forall p : derived, exists e, access p empty_task "0a1b2c3d" = Err e).
Proof.
  split; [reflexivity |].
  intros H. destruct (H ObjectKeys) as [e He]. discriminate He.
Qed.

(** C8, amended.  For every task whose basenames are empty, [date_str]
    and [tarball_key] raise [ValueError], and [object_keys] is the empty
    list. *)
Theorem empty_task_derived (task : RollupTask) (random_str : string) :
  basenames task = [] ->
  access DateStr task random_str = Err ValueError /\
  access TarballKey task random_str = Err ValueError /\
  access ObjectKeys task random_str = Ok (Keys []).
Proof.
  intros H. unfold access, date_str, tarball_key, object_keys.
  rewrite H. repeat split.
Qed.

Lemma empty_task_derived_witness :
  access DateStr empty_task "0a1b2c3d" = Err ValueError /\
  access TarballKey empty_task "0a1b2c3d" = Err ValueError /\
  access ObjectKeys empty_task "0a1b2c3d" = Ok (Keys []).
Proof. apply (empty_task_derived empty_task "0a1b2c3d"). reflexivity. Defined.

(** ** Bin-packing *)

Lemma sum_sizes_snoc (group : list ObjectSummary) (o : ObjectSummary) :
  sum_sizes (group ++ [o]) = (sum_sizes group + size o)%Z.
Proof.
  unfold sum_sizes. induction group as [|x group IH]; simpl; [lia |].
  rewrite IH. lia.
Qed.

Section BinPacking.

Variables max_size max_items : Z.

(** While a group is open its size is what the loop carries, and the
    group keeps the promise of a bin. *)
Lemma group_loop_bins (objects : gen ObjectSummary) :
  (0 < max_items)%Z ->
  forall group group_size,
    group_size = sum_sizes group ->
    bin_ok max_size max_items group ->
    Forall (bin_ok max_size max_items)
      (gen_items (_group_objects_loop max_size max_items objects group group_size)).
Proof.
  intros Hpos.
  induction objects as [| e | current objects IH]; intros group gs Hgs Hok; simpl.
  - constructor; [assumption | constructor].
  - constructor.
  - destruct (Z.leb_spec (gs + size current) max_size) as [Hs | Hs];
      [destruct (Z.leb_spec (Z.of_nat (List.length group) + 1) max_items) as [Hi | Hi] |];
      simpl.
    + apply IH.
      * rewrite sum_sizes_snoc. lia.
      * split.
        -- left. rewrite sum_sizes_snoc. lia.
        -- rewrite length_app. simpl. lia.
    + constructor; [assumption |].
      apply IH; [unfold sum_sizes; simpl; lia |].
      split; [now right | simpl; lia].
    + constructor; [assumption |].
      apply IH; [unfold sum_sizes; simpl; lia |].
      split; [now right | simpl; lia].
Qed.

(** Nothing is dropped, split or reordered while the input lasts. *)
Lemma group_loop_concat (objects : gen ObjectSummary) :
  forall group group_size,
    gen_end objects = Returned ->
    let out := _group_objects_loop max_size max_items objects group group_size in
    List.concat (gen_items out) = group ++ gen_items objects /\
    gen_end out = Returned.
Proof.
  induction objects as [| e | current objects IH]; intros group gs Hend; simpl in *.
  - now rewrite app_nil_r.
  - discriminate.
  - destruct ((gs + size current <=? max_size)%Z
              && (Z.of_nat (List.length group) + 1 <=? max_items)%Z); simpl.
    + destruct (IH (group ++ [current]) (gs + size current)%Z Hend) as [Hc He].
      rewrite Hc, <- app_assoc. now split.
    + destruct (IH [current] (size current) Hend) as [Hc He].
      rewrite Hc. now split.
Qed.

(** Whatever ends the input, a bin holds only objects that were read. *)
Lemma group_loop_in (objects : gen ObjectSummary) :
  forall group group_size o,
    In o (List.concat
            (gen_items (_group_objects_loop max_size max_items objects group group_size))) ->
    In o (group ++ gen_items objects).
Proof.
  induction objects as [| e | current objects IH]; intros group gs o Hin; simpl in *.
  - now rewrite app_nil_r in *.
  - contradiction.
  - destruct ((gs + size current <=? max_size)%Z
              && (Z.of_nat (List.length group) + 1 <=? max_items)%Z); simpl in Hin.
    + apply IH in Hin. rewrite <- app_assoc in Hin. exact Hin.
    + apply in_app_or in Hin. apply in_or_app.
      destruct Hin as [Hin | Hin]; [now left |].
      right. apply IH in Hin. exact Hin.
Qed.

Lemma group_objects_in (objects : gen ObjectSummary) (o : ObjectSummary) :
  In o (List.concat (gen_items (_group_objects max_size max_items objects))) ->
  In o (gen_items objects).
Proof.
  destruct objects as [| e | initial objects]; simpl; try contradiction.
  intros H. apply group_loop_in in H. exact H.
Qed.

Lemma group_objects_raised (objects : gen ObjectSummary) (e : exn) :
  gen_end objects = Raised e ->
  gen_end (_group_objects max_size max_items objects) = Raised e.
Proof.
  assert (L : forall g group gs, gen_end g = Raised e ->
            gen_end (_group_objects_loop max_size max_items g group gs) = Raised e).
  { induction g as [| e' | current g IH]; intros group gs H; simpl in *.
    - discriminate.
    - exact H.
    - destruct ((gs + size current <=? max_size)%Z
                && (Z.of_nat (List.length group) + 1 <=? max_items)%Z); simpl; now apply IH. }
  destruct objects as [| e' | initial objects]; simpl; intros H.
  - discriminate.
  - exact H.
  - now apply L.
Qed.

End BinPacking.

(** C2.  For every sequence of objects and all [max_size > 0] and
    [max_items > 0], every bin of [_group_objects] has a total size of at
    most [max_size] or is a single object, and has at most [max_items]
    objects; the bins concatenated in order are the input; a non-empty
    input is packed without an exception.  Sizes [5, 8, 3, 3, 4] with
    [max_size = 10] and [max_items = 999] give the bins
    [[5], [8], [3, 3, 4]]. *)
Theorem group_objects_packs (objects : list ObjectSummary) (max_size max_items : Z) :
  (0 < max_size)%Z -> (0 < max_items)%Z ->
  let out := _group_objects max_size max_items (gen_of_list objects) in
  Forall (bin_ok max_size max_items) (gen_items out) /\
  List.concat (gen_items out) = objects /\
  (objects <> [] -> gen_end out = Returned) /\
  (forall o1 o2 o3 o4 o5,
      map size [o1; o2; o3; o4; o5] = [5; 8; 3; 3; 4]%Z ->
      gen_items (_group_objects 10 999 (gen_of_list [o1; o2; o3; o4; o5]))
      = [[o1]; [o2]; [o3; o4; o5]]).
Proof.
  intros Hs Hi out. subst out.
  split; [| split; [| split]].
  - destruct objects as [|initial objects]; simpl; [constructor |].
    apply group_loop_bins; [assumption | unfold sum_sizes; simpl; lia |].
    split; [now right | simpl; lia].
  - destruct objects as [|initial objects]; simpl; [reflexivity |].
    destruct (group_loop_concat max_size max_items (gen_of_list objects)
                [initial] (size initial) (gen_end_of_list objects)) as [Hc _].
    rewrite Hc, gen_items_of_list. reflexivity.
  - destruct objects as [|initial objects]; simpl; [congruence |]. intros _.
    apply (group_loop_concat max_size max_items (gen_of_list objects)
             [initial] (size initial) (gen_end_of_list objects)).
  - intros o1 o2 o3 o4 o5 H. injection H as H1 H2 H3 H4 H5.
    simpl. rewrite H1, H2, H3, H4, H5. reflexivity.
Qed.

Lemma group_objects_packs_witness :
  let objects := [mkObject "a" 5; mkObject "b" 8; mkObject "c" 3;
                  mkObject "d" 3; mkObject "e" 4] in
  let out := _group_objects 10 999 (gen_of_list objects) in
  Forall (bin_ok 10 999) (gen_items out) /\ List.concat (gen_items out) = objects.
Proof.
  intros objects out.
  pose proof (group_objects_packs objects 10 999 ltac:(lia) ltac:(lia)) as H.
  cbv zeta in H. destruct H as [H1 [H2 _]]. split; [exact H1 | exact H2].
Defined.

(** ** The folder walk *)

Lemma S3Path_ind (P : S3Path -> Prop) :
  (forall k cs, Forall P cs -> P (Node k cs)) -> forall p, P p.
Proof.
  intros step. fix IH 1. intros [k cs]. apply step.
  induction cs as [|c cs IHcs]; constructor; [apply IH | exact IHcs].
Qed.

Lemma find_folders_unfold (max_depth : Z) (k : string) (cs : list S3Path) :
  find_folders max_depth (Node k cs) =
  if is_file (Node k cs) then Raise NotADirectoryError
  else find_folders_in max_depth cs.
Proof. reflexivity. Qed.

Lemma find_folders_built_unfold (max_depth : Z) (k : string) (cs : list S3Path) :
  find_folders_built max_depth (Node k cs) =
  if is_file (built (Node k cs)) then Raise NotADirectoryError
  else find_folders_in max_depth cs.
Proof.
  cbn [find_folders_built]. destruct (is_file (built (Node k cs))); [reflexivity |].
  induction cs as [|c cs IH]; cbn [find_folders_in]; [reflexivity |].
  cbv zeta. destruct (depth (built c) >=? max_depth)%Z; [reflexivity |]. now rewrite IH.
Qed.

(** The recursive call: [find_folders] of the [S3Path] built from an
    entry. *)
Lemma find_folders_of_built (max_depth : Z) (entry : S3Path) :
  find_folders max_depth (built entry) = find_folders_built max_depth entry.
Proof.
  destruct entry as [k cs]. rewrite find_folders_built_unfold. reflexivity.
Qed.

Lemma find_folders_in_depth (max_depth : Z) (cs : list S3Path) :
  Forall (fun f => (depth f < max_depth)%Z) (gen_items (find_folders_in max_depth cs)).
Proof.
  enough (H : Forall (fun c => Forall (fun f => (depth f < max_depth)%Z)
                                 (gen_items (find_folders_built max_depth c))) cs).
  { induction H as [|c cs Hc _ IHcs]; cbn [find_folders_in]; [constructor |].
    cbv zeta.
    destruct (Z.geb_spec (depth (built c)) max_depth) as [Hd | Hd]; simpl; [constructor |].
    constructor; [lia |].
    apply Forall_forall. intros f Hf. apply gen_items_app_in in Hf.
    destruct Hf as [Hf | Hf].
    - exact (proj1 (Forall_forall _ _) Hc f Hf).
    - exact (proj1 (Forall_forall _ _) IHcs f Hf). }
  apply Forall_forall. intros c _. clear cs.
  induction c as [k cs IH] using S3Path_ind. rewrite find_folders_built_unfold.
  destruct (is_file (built (Node k cs))); [constructor |].
  induction IH as [|c cs Hc _ IHcs]; cbn [find_folders_in]; [constructor |].
  cbv zeta.
  destruct (Z.geb_spec (depth (built c)) max_depth) as [Hd | Hd]; simpl; [constructor |].
  constructor; [lia |].
  apply Forall_forall. intros f Hf. apply gen_items_app_in in Hf.
  destruct Hf as [Hf | Hf].
  - exact (proj1 (Forall_forall _ _) Hc f Hf).
  - exact (proj1 (Forall_forall _ _) IHcs f Hf).
Qed.

Lemma find_folders_depth (max_depth : Z) (p : S3Path) :
  Forall (fun f => (depth f < max_depth)%Z) (gen_items (find_folders max_depth p)).
Proof.
  unfold find_folders. destruct (is_file p); [constructor |].
  apply find_folders_in_depth.
Qed.

(** [break]: what the listing holds from the first folder at
    [max_depth] on is never looked at. *)
Lemma find_folders_in_break (max_depth : Z) (before : list S3Path)
    (folder : S3Path) (after : list S3Path) :
  (max_depth <= depth (built folder))%Z ->
  find_folders_in max_depth (before ++ folder :: after) =
  find_folders_in max_depth before.
Proof.
  intros Hd. induction before as [|c before IH]; cbn [app find_folders_in]; cbv zeta.
  - destruct (Z.geb_spec (depth (built folder)) max_depth); [reflexivity | lia].
  - destruct (depth (built c) >=? max_depth)%Z; [reflexivity |]. now rewrite IH.
Qed.

(** In a tree whose prefixes pass through the URI unchanged, the
    [S3Path] built from an entry is the entry. *)
Lemma uri_safe_built (k : string) (cs : list S3Path) :
  uri_safe (Node k cs) = true ->
  Forall (fun c => built c = c /\ uri_safe c = true) cs.
Proof.
  cbn [uri_safe]. intros H. apply Forall_forall. intros c Hc.
  rewrite forallb_forall in H. specialize (H c Hc).
  apply andb_true_iff in H. destruct H as [Hk Hs].
  apply String.eqb_eq in Hk. split; [| exact Hs].
  destruct c as [k' cs']. unfold built. cbn [key_of entries] in *. now rewrite Hk.
Qed.

Lemma gen_app_of_list {A : Type} (l1 l2 : list A) :
  gen_app (gen_of_list l1) (gen_of_list l2) = gen_of_list (l1 ++ l2).
Proof. induction l1 as [|a l1 IH]; simpl; [reflexivity | now rewrite IH]. Qed.

(** Below a listing of depth [d] nothing is shallower than [d]. *)
Lemma layered_descendants_deep (p : S3Path) :
  forall d, layered d p = true ->
            Forall (fun f => (d <= depth f)%Z) (descendants p).
Proof.
  induction p as [k cs IH] using S3Path_ind. intros d H.
  cbn [layered] in H. apply andb_true_iff in H. destruct H as [_ H].
  cbn [descendants].
  induction IH as [|c cs Hc _ IHcs]; simpl; [constructor |].
  simpl in H. apply andb_true_iff in H. destruct H as [Hc' Hcs].
  apply andb_true_iff in Hc'. destruct Hc' as [Hd Hl].
  apply Z.eqb_eq in Hd.
  constructor; [lia |]. apply Forall_app. split.
  - eapply Forall_impl; [| apply (Hc _ Hl)]. simpl. intros; lia.
  - apply IHcs. exact Hcs.
Qed.

Lemma filter_none {A : Type} (f : A -> bool) (l : list A) :
  Forall (fun x => f x = false) l -> filter f l = [].
Proof.
  induction 1 as [|x l Hx _ IH]; simpl; [reflexivity |]. now rewrite Hx.
Qed.

Lemma find_folders_layered (max_depth : Z) (p : S3Path) :
  forall d, uri_safe p = true -> layered d p = true ->
            find_folders max_depth p =
            gen_of_list (filter (fun f => (depth f <? max_depth)%Z) (descendants p)).
Proof.
  induction p as [k cs IH] using S3Path_ind. intros d Hsafe H.
  pose proof (layered_descendants_deep _ _ H) as Hdeep.
  apply uri_safe_built in Hsafe.
  rewrite find_folders_unfold.
  cbn [layered] in H. apply andb_true_iff in H. destruct H as [Hdir H].
  unfold is_file. rewrite Hdir. clear Hdir. cbn [negb descendants] in *.
  induction IH as [|c cs Hc _ IHcs]; [reflexivity |].
  cbn [forallb] in H. apply andb_true_iff in H. destruct H as [Hc' Hcs].
  apply andb_true_iff in Hc'. destruct Hc' as [Hd Hl].
  apply Z.eqb_eq in Hd.
  inversion Hsafe as [|c0 cs0 [Hb Hsc] Hsafe']; subst c0 cs0.
  cbn [find_folders_in flat_map] in *. cbv zeta.
  rewrite <- find_folders_of_built, Hb.
  destruct (Z.geb_spec (depth c) max_depth) as [Hge | Hlt].
  - rewrite filter_none; [reflexivity |].
    eapply Forall_impl; [| exact Hdeep]. cbv beta. intros f Hf.
    apply Z.ltb_ge. lia.
  - rewrite filter_app. cbn [filter].
    destruct (Z.ltb_spec (depth c) max_depth) as [_ | Hge]; [| lia].
    rewrite <- app_comm_cons. cbn [gen_of_list]. f_equal.
    rewrite <- gen_app_of_list. f_equal.
    + apply (Hc _ Hsc Hl).
    + apply IHcs; [exact Hsafe' | exact Hcs |].
      apply Forall_app in Hdeep. apply Hdeep.
Qed.

(** C1, as the spec has it, fails.  In the bucket of the test suite
    [one/two/three/four/] is a descendant of the root whose depth is 3;
    [find_folders(3)] yields its parent and not the folder itself. *)
Lemma find_folders_omits_max_depth :
  is_dir test_bucket = true /\
  In "one/two/three/four/" (map key_of (descendants test_bucket)) /\
  (forall f, In f (descendants test_bucket) ->
             key_of f = "one/two/three/four/" -> depth f = 3%Z) /\
  In "one/two/three/" (map key_of (gen_items (find_folders 3 test_bucket))) /\
  ~ In "one/two/three/four/" (map key_of (gen_items (find_folders 3 test_bucket))).
Proof.
  split; [reflexivity |]. split; [simpl; tauto |]. split; [| split].
  - intros f Hf Hk. simpl in Hf.
    repeat (destruct Hf as [Hf | Hf]; [subst f; try discriminate Hk; try reflexivity |]).
    contradiction.
  - vm_compute. tauto.
  - vm_compute. intros H.
    repeat (destruct H as [H | H]; [discriminate H |]). exact H.
Qed.

(** C1, amended.  For every node and every [max_depth], every folder
    that [find_folders(max_depth)] yields has a depth below [max_depth].
    At the first folder of a listing whose depth has reached
    [max_depth] the scan of that listing stops: the walk is the walk of
    the listing cut off in front of that folder, whatever stands behind
    it.  On a tree of directories whose listings are one level deeper
    each and whose prefixes pass through the URI unchanged, the walk
    yields, parents before children and in listing order, exactly the
    descendants whose depth is below [max_depth], and ends normally. *)
Theorem find_folders_below_max_depth (max_depth : Z) (p : S3Path) :
  Forall (fun f => (depth f < max_depth)%Z) (gen_items (find_folders max_depth p)) /\
  (forall before folder after,
      entries p = before ++ folder :: after ->
      (max_depth <= depth (built folder))%Z ->
      find_folders max_depth p = find_folders max_depth (Node (key_of p) before)) /\
  (forall d, uri_safe p = true -> layered d p = true ->
             find_folders max_depth p =
             gen_of_list (filter (fun f => (depth f <? max_depth)%Z) (descendants p))).
Proof.
  split; [apply find_folders_depth |]. split; [| apply find_folders_layered].
  intros before folder after Hp Hd. destruct p as [k cs]. cbn [entries key_of] in *.
  subst cs. rewrite !find_folders_unfold. unfold is_file, is_dir. cbn [key_of].
  destruct (negb _); [reflexivity |]. now apply find_folders_in_break.
Qed.

Example test_find_folders :
  map key_of (gen_items (find_folders 3 test_bucket)) =
  [ "log/"; "log/example.com/"; "log2/"; "log2/example.org/"; "media/";
    "one/"; "one/two/"; "one/two/three/" ].
Proof. vm_compute. reflexivity. Qed.

(** A listing that is not one level deep throughout: the first folder
    is at depth 1 and ends the scan, so the second, at depth 0, is not
    yielded. *)
Example test_find_folders_break :
  depth (Node "a//" []) = 0%Z /\
  find_folders 1 (Node "a/" [Node "a/-x/" []; Node "a//" []]) = Return.
Proof. split; reflexivity. Qed.

(** A prefix that the URI cuts short: [a#b/] is handed out with the key
    [a], which is no directory. *)
Example test_find_folders_rebuilt :
  find_folders 3 (Node "" [Node "a#b/" []; Node "zz/" []]) =
  Yield (Node "a" []) (Raise NotADirectoryError).
Proof. reflexivity. Qed.

Lemma find_folders_below_max_depth_witness :
  (find_folders 1 (Node "a/" [Node "a/-x/" []; Node "a//" []]) =
   find_folders 1 (Node "a/" [])) /\
  (find_folders 3 test_bucket =
   gen_of_list (filter (fun f => (depth f <? 3)%Z) (descendants test_bucket))).
Proof.
  split.
  - apply (proj1 (proj2 (find_folders_below_max_depth 1
                           (Node "a/" [Node "a/-x/" []; Node "a//" []])))
             [] (Node "a/-x/" []) [Node "a//" []]).
    + reflexivity.
    + vm_compute. discriminate.
  - apply (proj2 (proj2 (find_folders_below_max_depth 3 test_bucket)) 0%Z);
      reflexivity.
Defined.

(** ** The scheduler *)

Section SchedulerFacts.

Context {A : Type}.

Lemma gen_size_pos (g : gen A) : 1 <= gen_size g.
Proof. destruct g; simpl; lia. Qed.

Lemma makers_size_app (l1 l2 : list (gen A)) :
  makers_size (l1 ++ l2) = makers_size l1 + makers_size l2.
Proof. unfold makers_size. now rewrite map_app, list_sum_app. Qed.

Lemma makers_size_firstn_skipn (n : nat) (l : list (gen A)) :
  makers_size (firstn n l) + makers_size (skipn n l) = makers_size l.
Proof. now rewrite <- makers_size_app, firstn_skipn. Qed.

(** Every turn of the loop uses up one item or one generator, so fuel
    above what is left changes nothing. *)
Lemma make_tasks_loop_fuel (n : nat) :
  forall m (active pending : list (gen A)),
    makers_size active + makers_size pending < n ->
    makers_size active + makers_size pending < m ->
    make_tasks_loop n active pending = make_tasks_loop m active pending.
Proof.
  induction n as [|n IH]; intros m active pending Hn Hm; [lia |].
  destruct m as [|m]; [lia |].
  destruct active as [|[| e | a g] active]; simpl; try reflexivity.
  - destruct pending as [|p pending].
    + apply IH; unfold makers_size in *; simpl in *; lia.
    + apply IH; rewrite makers_size_app; unfold makers_size in *; simpl in *; lia.
  - f_equal. apply IH; rewrite makers_size_app; unfold makers_size in *; simpl in *; lia.
Qed.

Lemma run_nil (pending : list (gen A)) : run [] pending = Return.
Proof. reflexivity. Qed.

Lemma run_raise (e : exn) (active pending : list (gen A)) :
  run (Raise e :: active) pending = Raise e.
Proof. reflexivity. Qed.

Lemma run_yield (a : A) (g : gen A) (active pending : list (gen A)) :
  run (Yield a g :: active) pending = Yield a (run (active ++ [g]) pending).
Proof.
  unfold run.
  set (n := makers_size (Yield a g :: active) + makers_size pending).
  change (make_tasks_loop (S n) (Yield a g :: active) pending)
    with (Yield a (make_tasks_loop n (active ++ [g]) pending)).
  f_equal. subst n.
  apply make_tasks_loop_fuel; rewrite ?makers_size_app;
    unfold makers_size; simpl; lia.
Qed.

Lemma run_return_next (m : gen A) (active pending : list (gen A)) :
  run (Return :: active) (m :: pending) = run (active ++ [m]) pending.
Proof.
  unfold run.
  set (n := makers_size (Return :: active) + makers_size (m :: pending)).
  change (make_tasks_loop (S n) (Return :: active) (m :: pending))
    with (make_tasks_loop n (active ++ [m]) pending).
  subst n.
  apply make_tasks_loop_fuel; rewrite ?makers_size_app;
    unfold makers_size; simpl; lia.
Qed.

Lemma run_return_last (active : list (gen A)) :
  run (Return :: active) [] = run active [].
Proof.
  unfold run.
  set (n := makers_size (Return :: active) + makers_size []).
  change (make_tasks_loop (S n) (Return :: active) [])
    with (make_tasks_loop n active []).
  subst n.
  apply make_tasks_loop_fuel; unfold makers_size; simpl; lia.
Qed.

Lemma make_tasks_run (task_makers : list (gen A)) :
  make_tasks task_makers = run (firstn window task_makers) (skipn window task_makers).
Proof.
  unfold make_tasks, run. now rewrite makers_size_firstn_skipn.
Qed.

(** One sweep over generators that all have an item: each gives its
    first item, in the order in which they stand in the deque, before
    any of them is asked again. *)
Lemma run_sweep (front : list (gen A)) :
  forall back pending : list (gen A),
    Forall (fun g => gen_items g <> []) front ->
    exists rest,
      gen_items (run (front ++ back) pending) = flat_map first_item front ++ rest.
Proof.
  induction front as [|g front IH]; intros back pending H.
  - simpl. eauto.
  - inversion H as [|? ? Hg Hfront]; subst.
    destruct g as [| e | a g]; simpl in Hg; try congruence.
    rewrite <- app_comm_cons, run_yield, <- app_assoc.
    destruct (IH (back ++ [g]) pending Hfront) as [rest Hrest].
    exists rest. simpl. now rewrite Hrest.
Qed.

End SchedulerFacts.

Lemma gen_size_map {A B : Type} (f : A -> B) (g : gen A) :
  gen_size (gen_map f g) = gen_size g.
Proof. induction g as [| e | a g IH]; simpl; auto. Qed.

(** Marking the tasks does not change the run. *)
Lemma make_tasks_loop_map {A B : Type} (f : A -> B) (n : nat) :
  forall active pending : list (gen A),
    gen_map f (make_tasks_loop n active pending) =
    make_tasks_loop n (map (gen_map f) active) (map (gen_map f) pending).
Proof.
  induction n as [|n IH]; intros active pending; [reflexivity |].
  destruct active as [|[| e | a g] active]; simpl; try reflexivity.
  - destruct pending as [|p pending]; simpl.
    + apply IH.
    + rewrite IH, map_app. reflexivity.
  - rewrite IH, map_app. reflexivity.
Qed.

Lemma untag_from {A : Type} (task_makers : list (gen A)) :
  forall i, map (gen_map snd) (tag_from i task_makers) = task_makers.
Proof.
  induction task_makers as [|m ms IH]; intros i; simpl; [reflexivity |].
  rewrite IH. f_equal.
  induction m as [| e | a m IHm]; simpl; [reflexivity | reflexivity | now rewrite IHm].
Qed.

Lemma makers_size_tag {A : Type} (task_makers : list (gen A)) :
  forall i, makers_size (tag_from i task_makers) = makers_size task_makers.
Proof.
  unfold makers_size.
  induction task_makers as [|m ms IH]; intros i; simpl; [reflexivity |].
  now rewrite IH, gen_size_map.
Qed.

Lemma make_tasks_untag {A : Type} (task_makers : list (gen A)) :
  gen_map snd (make_tasks (tag_makers task_makers)) = make_tasks task_makers.
Proof.
  unfold make_tasks, tag_makers.
  rewrite make_tasks_loop_map, <- firstn_map, <- skipn_map, untag_from, makers_size_tag.
  reflexivity.
Qed.

Lemma firstn_tag_from {A : Type} (n : nat) :
  forall i (task_makers : list (gen A)),
    firstn n (tag_from i task_makers) = tag_from i (firstn n task_makers).
Proof.
  induction n as [|n IH]; intros i [|m ms]; simpl; try reflexivity.
  now rewrite IH.
Qed.

Lemma tag_from_first_items {A : Type} (task_makers : list (gen A)) :
  forall i,
    Forall (fun g => gen_items g <> []) task_makers ->
    Forall (fun g => gen_items g <> []) (tag_from i task_makers) /\
    map fst (flat_map first_item (tag_from i task_makers))
    = seq i (List.length task_makers).
Proof.
  induction task_makers as [|m ms IH]; intros i H; simpl.
  - split; [constructor | reflexivity].
  - inversion H as [|? ? Hm Hms]; subst.
    destruct (IH (S i) Hms) as [IH1 IH2].
    destruct m as [| e | a m]; simpl in Hm; try congruence.
    split.
    + constructor; [simpl; congruence | exact IH1].
    + simpl. now rewrite IH2.
Qed.

(** C3.  Whenever at least [k >= 2] prefixes are active together, which
    the window of 20 allows, and every active prefix has a task, the
    first [k] tasks of [make_tasks] come from [k] distinct prefixes: from
    the first [k] prefixes, one each.  Marking the tasks with their
    prefix leaves the tasks as they are. *)
Theorem make_tasks_fair {A : Type} (task_makers : list (gen A)) (k : nat) :
  2 <= k ->
  k <= List.length (firstn window task_makers) ->
  Forall (fun g => gen_items g <> []) (firstn window task_makers) ->
  let first_k := firstn k (gen_items (make_tasks (tag_makers task_makers))) in
  List.length first_k = k /\
  NoDup (map fst first_k) /\
  map fst first_k = seq 0 k /\
  map snd (gen_items (make_tasks (tag_makers task_makers)))
  = gen_items (make_tasks task_makers).
Proof.
  intros Hk Hactive Htasks first_k.
  assert (Hfst : map fst first_k = seq 0 k).
  { subst first_k. rewrite make_tasks_run. unfold tag_makers.
    rewrite firstn_tag_from.
    destruct (tag_from_first_items (firstn window task_makers) 0 Htasks) as [Hne Hseq].
    rewrite <- (app_nil_r (tag_from 0 (firstn window task_makers))).
    destruct (run_sweep _ [] (skipn window (tag_from 0 task_makers)) Hne) as [rest Hrest].
    rewrite Hrest, <- firstn_map, map_app, Hseq, firstn_app.
    rewrite length_seq.
    replace (k - List.length (firstn window task_makers)) with 0 by lia.
    rewrite firstn_O, app_nil_r.
    replace (List.length (firstn window task_makers))
      with (k + (List.length (firstn window task_makers) - k)) by lia.
    rewrite seq_app, firstn_app, length_seq, Nat.sub_diag, firstn_O, app_nil_r.
    apply firstn_all2. rewrite length_seq. lia. }
  split; [| split; [| split]].
  - rewrite <- (length_map fst), Hfst. apply length_seq.
  - rewrite Hfst. apply seq_NoDup.
  - exact Hfst.
  - rewrite <- gen_items_map. now rewrite make_tasks_untag.
Qed.

Lemma make_tasks_fair_witness :
  let task_makers := [gen_of_list [1; 2; 3]; gen_of_list [4]; gen_of_list [5; 6]] in
  map fst (firstn 3 (gen_items (make_tasks (tag_makers task_makers)))) = [0; 1; 2].
Proof.
  intros task_makers.
  apply (make_tasks_fair task_makers 3); [lia | simpl; lia |].
  repeat constructor; discriminate.
Defined.

Example make_tasks_round_robin :
  gen_items (make_tasks [gen_of_list [1; 2; 3]; gen_of_list [4]; gen_of_list [5; 6]])
  = [1; 4; 5; 2; 6; 3].
Proof. reflexivity. Qed.

(** ** Oversized tasks *)

(** The chunks of a split keep the prefix of the task, respect the
    bound and are never empty. *)
Lemma split_chunks (task : RollupTask) (n : Z) :
  (0 < n)%Z ->
  Forall (fun chunk =>
            common_prefix chunk = common_prefix task /\
            (len chunk <= n)%Z /\
            basenames chunk <> [])
         (gen_items (split task n)).
Proof.
  intros Hn. rewrite split_items, gen_items_of_list by assumption.
  apply Forall_forall. intros chunk Hin.
  apply in_map_iff in Hin. destruct Hin as [j [<- Hj]]. cbn.
  apply in_seq in Hj.
  destruct (range_len_ceil (len task) n) as [_ [_ Hc]]; [unfold len; lia | assumption |].
  unfold len in *. cbn.
  assert (Hlen : (j * Z.to_nat n < List.length (basenames task))%nat).
  { apply Nat2Z.inj_lt. rewrite Nat2Z.inj_mul, Z2Nat.id by lia. nia. }
  split; [reflexivity | split].
  - rewrite length_firstn. lia.
  - intros E. apply (f_equal (@List.length string)) in E.
    rewrite length_firstn, length_skipn in E. simpl in E. lia.
Qed.

Lemma queue_tasks_unfold (depth : nat) (tasks : gen RollupTask) :
  queue_tasks (S depth) tasks =
  match tasks with
  | Return => Return
  | Raise e => Raise e
  | Yield task tasks' =>
      if (len task >? 6000)%Z then
        gen_app (queue_tasks depth (split task 6000)) (queue_tasks (S depth) tasks')
      else
        match date_str task with
        | Err e => Raise e
        | Ok _ => Yield task (queue_tasks (S depth) tasks')
        end
  end.
Proof. destruct tasks; reflexivity. Qed.

(** Tasks within the bound are sent as they are. *)
Lemma queue_tasks_small (depth : nat) (tasks : list RollupTask) :
  Forall (fun task => (len task <= 6000)%Z /\ basenames task <> []) tasks ->
  queue_tasks (S depth) (gen_of_list tasks) = gen_of_list tasks.
Proof.
  induction 1 as [|task tasks [Hlen Hne] _ IH]; [reflexivity |].
  cbn [gen_of_list]. rewrite queue_tasks_unfold.
  destruct (Z.gtb_spec (len task) 6000) as [Hgt | _]; [lia |].
  unfold date_str. destruct (basenames task); [congruence |]. now rewrite IH.
Qed.

Lemma queue_tasks_oversized (depth : nat) (task : RollupTask) (tasks : gen RollupTask) :
  (6000 < len task)%Z ->
  queue_tasks (S (S depth)) (Yield task tasks) =
  gen_app (split task 6000) (queue_tasks (S (S depth)) tasks).
Proof.
  intros Hlen. rewrite queue_tasks_unfold.
  destruct (Z.gtb_spec (len task) 6000) as [_ | Hle]; [| lia].
  f_equal.
  pose proof (split_chunks task 6000 ltac:(lia)) as Hc.
  rewrite split_items, gen_items_of_list in Hc by lia.
  rewrite split_items by lia. apply queue_tasks_small.
  eapply Forall_impl; [| exact Hc]. cbv beta. tauto.
Qed.

Lemma queue_tasks_bounded (depth : nat) (tasks : gen RollupTask) :
  Forall (fun message => (len message <= 6000)%Z)
         (gen_items (queue_tasks (S (S depth)) tasks)).
Proof.
  induction tasks as [| e | task tasks IH].
  - constructor.
  - constructor.
  - destruct (Z.gtb_spec (len task) 6000) as [Hgt | Hle].
    + rewrite queue_tasks_oversized by lia.
      apply Forall_forall. intros m Hm. apply gen_items_app_in in Hm.
      destruct Hm as [Hm | Hm].
      * pose proof (split_chunks task 6000 ltac:(lia)) as Hc.
        apply (proj1 (Forall_forall _ _) Hc m Hm).
      * exact (proj1 (Forall_forall _ _) IH m Hm).
    + rewrite queue_tasks_unfold.
      destruct (Z.gtb_spec (len task) 6000) as [Hgt | _]; [lia |].
      destruct (date_str task); simpl; [| constructor].
      constructor; [exact Hle |]. exact IH.
Qed.

Lemma queue_tasks_complete (depth : nat) (tasks : list RollupTask) :
  Forall (fun task => basenames task <> []) tasks ->
  let sent := queue_tasks (S (S depth)) (gen_of_list tasks) in
  gen_end sent = Returned /\
  List.concat (map basenames (gen_items sent)) = List.concat (map basenames tasks).
Proof.
  induction 1 as [|task tasks Hne _ IH]; [split; reflexivity |].
  cbv zeta in *. destruct IH as [IHe IHc]. cbn [gen_of_list].
  destruct (Z.gtb_spec (len task) 6000) as [Hgt | Hle].
  - rewrite queue_tasks_oversized by lia.
    assert (He : gen_end (split task 6000) = Returned).
    { rewrite split_items by lia. apply gen_end_of_list. }
    rewrite gen_end_app_returned, gen_items_app_returned by exact He.
    split; [exact IHe |].
    rewrite map_app, List.concat_app, IHc, split_concat by lia. reflexivity.
  - rewrite queue_tasks_unfold.
    destruct (Z.gtb_spec (len task) 6000) as [Hgt | _]; [lia |].
    unfold date_str. destruct (basenames task) eqn:E; [congruence |].
    cbn [gen_end gen_items map List.concat]. rewrite E, IHc.
    split; [exact IHe | reflexivity].
Qed.

Lemma delete_small (depth : nat) (task : RollupTask) :
  (len task <= 1000)%Z ->
  _delete_objects_in_task (S depth) task = Yield (object_keys task) Return.
Proof.
  intros H. simpl. destruct (Z.gtb_spec (len task) 1000) as [Hgt | _]; [lia | reflexivity].
Qed.

Lemma object_keys_concat (prefix : string) (chunks : list RollupTask) :
  Forall (fun chunk => common_prefix chunk = prefix) chunks ->
  List.concat (map object_keys chunks)
  = map (fun bn => (prefix ++ bn)%string) (List.concat (map basenames chunks)).
Proof.
  induction 1 as [|chunk chunks Hp _ IH]; [reflexivity |].
  simpl. rewrite map_app, IH. unfold object_keys. now rewrite Hp.
Qed.

Lemma delete_oversized (depth : nat) (task : RollupTask) :
  (1000 < len task)%Z ->
  _delete_objects_in_task (S (S depth)) task
  = gen_of_list (map object_keys (gen_items (split task 1000))).
Proof.
  intros Hlen. cbn [_delete_objects_in_task].
  destruct (Z.gtb_spec (len task) 1000) as [_ | Hle]; [| lia].
  pose proof (split_chunks task 1000 ltac:(lia)) as Hc.
  rewrite split_items in * by lia. rewrite gen_items_of_list in *.
  induction Hc as [|chunk chunks [_ [Hb _]] _ IH]; [reflexivity |].
  cbn [gen_of_list map].
  change (match (len chunk >? 1000)%Z with
          | true => _
          | false => Yield (object_keys chunk) Return
          end) with (_delete_objects_in_task (S depth) chunk).
  rewrite delete_small by exact Hb. simpl. f_equal. exact IH.
Qed.

(** C7.  With room for one nested call, every message that
    [queue_tasks] sends carries at most 6000 basenames and every
    [delete_objects] call of [_delete_objects_in_task] at most 1000 keys.
    A task of more than 6000 basenames is sent as the chunks of
    [split(6000)] and a task of more than 1000 keys is deleted chunk by
    chunk of [split(1000)]; neither raises, and the parts in order make
    up the basenames, respectively the keys, of the task. *)
Theorem oversized_presplit (depth : nat) (tasks : list RollupTask) (task : RollupTask) :
  2 <= depth ->
  let sent := queue_tasks depth (gen_of_list tasks) in
  let calls := _delete_objects_in_task depth task in
  Forall (fun message => (len message <= 6000)%Z) (gen_items sent) /\
  (Forall (fun t => basenames t <> []) tasks ->
   gen_end sent = Returned /\
   List.concat (map basenames (gen_items sent)) = List.concat (map basenames tasks)) /\
  ((6000 < len task)%Z ->
   queue_tasks depth (Yield task Return) = split task 6000 /\
   gen_end (split task 6000) = Returned /\
   List.concat (map basenames (gen_items (split task 6000))) = basenames task) /\
  Forall (fun keys => (List.length keys <= 1000)%nat) (gen_items calls) /\
  gen_end calls = Returned /\
  List.concat (gen_items calls) = object_keys task /\
  ((1000 < len task)%Z ->
   gen_items calls = map object_keys (gen_items (split task 1000))).
Proof.
  intros Hdepth sent calls. subst sent calls.
  destruct depth as [|[|depth]]; try lia.
  split; [apply queue_tasks_bounded |].
  split; [apply queue_tasks_complete |].
  split.
  { intros Hlen. rewrite queue_tasks_oversized by exact Hlen.
    assert (He : gen_end (split task 6000) = Returned).
    { rewrite split_items by lia. apply gen_end_of_list. }
    split; [| split; [exact He | apply split_concat; lia]].
    rewrite queue_tasks_unfold.
    generalize (split task 6000). intros g.
    induction g as [| e | a g IH]; simpl; [reflexivity | reflexivity | now rewrite IH]. }
  destruct (Z.gtb_spec (len task) 1000) as [Hgt | Hle].
  - rewrite delete_oversized by lia. rewrite gen_items_of_list, gen_end_of_list.
    pose proof (split_chunks task 1000 ltac:(lia)) as Hc.
    split; [| split; [reflexivity | split; [| reflexivity]]].
    + apply Forall_forall. intros keys Hin. apply in_map_iff in Hin.
      destruct Hin as [chunk [<- Hin]].
      destruct (proj1 (Forall_forall _ _) Hc chunk Hin) as [_ [Hb _]].
      unfold object_keys, len in *. rewrite length_map. lia.
    + rewrite (object_keys_concat (common_prefix task)).
      * rewrite split_concat by lia. reflexivity.
      * eapply Forall_impl; [| exact Hc]. cbv beta. tauto.
  - rewrite delete_small by lia. cbn [gen_items gen_end List.concat].
    rewrite app_nil_r.
    split; [| split; [reflexivity | split; [reflexivity | lia]]].
    constructor; [| constructor].
    unfold object_keys, len in *. rewrite length_map. lia.
Qed.

Lemma oversized_presplit_witness :
  queue_tasks 2 (Yield big_task Return) = split big_task 6000 /\
  gen_end (split big_task 6000) = Returned /\
  List.concat (map basenames (gen_items (split big_task 6000))) = basenames big_task.
Proof.
  apply (oversized_presplit 2 [] big_task); [lia | vm_compute; reflexivity].
Defined.

(** ** Acknowledging messages *)

Section Acknowledge.

Variable Message : Type.
Variable loads : Message -> result RollupTask.
Variable process : RollupTask -> result string.

(** A message is deleted right after the worker has returned from the
    task that was made from it. *)
Lemma deleted_after_processed (messages : list Message) :
  forall before message after,
    worker Message loads process messages = before ++ Deleted message :: after ->
    exists before' task key,
      before = before' ++ [Processed task] /\
      loads message = Ok task /\ process task = Ok key.
Proof.
  unfold worker.
  induction messages as [|m messages IH]; intros before message after H.
  - destruct before; discriminate H.
  - cbn [get_tasks] in H.
    destruct (loads m) as [task | e] eqn:El;
      [| destruct before as [|? [|? ?]]; discriminate H].
    destruct (date_str task) as [d | e];
      [| destruct before as [|? [|? ?]]; discriminate H].
    cbn [worker_loop] in H.
    destruct (process task) as [key | e] eqn:Ep;
      [| destruct before as [|? [|? ?]]; discriminate H].
    destruct before as [|ev1 [|ev2 before]].
    + discriminate H.
    + injection H as H1 H2 H3. subst ev1 message.
      exists [], task, key. auto.
    + injection H as H1 H2 H3. subst ev1 ev2.
      destruct (IH _ _ _ H3) as [before' [task' [key' [Hb [Hl Hp]]]]].
      exists (Processed task :: Deleted m :: before'), task', key'.
      subst before. auto.
Qed.

(** An exception of the worker ends the run. *)
Lemma failed_is_last (messages : list Message) :
  forall before task e after,
    worker Message loads process messages = before ++ Failed task e :: after ->
    after = [] /\ process task = Err e.
Proof.
  unfold worker.
  induction messages as [|m messages IH]; intros before task e after H.
  - destruct before; discriminate H.
  - cbn [get_tasks] in H.
    destruct (loads m) as [task' | e'] eqn:El;
      [| destruct before as [|? [|? ?]]; discriminate H].
    destruct (date_str task') as [d | e'];
      [| destruct before as [|? [|? ?]]; discriminate H].
    cbn [worker_loop] in H.
    destruct (process task') as [key | e'] eqn:Ep.
    + destruct before as [|ev1 [|ev2 before]]; try discriminate H.
      injection H as H1 H2 H3. apply (IH _ _ _ _ H3).
    + destruct before as [|ev1 before].
      * injection H as H1 H2 H3. subst. auto.
      * destruct before; discriminate H.
Qed.

(** The run up to the first task on which the worker raises. *)
Lemma trace_until_failure (done : list Message) :
  forall message rest task e,
    Forall (fun m => exists t key,
                loads m = Ok t /\ basenames t <> [] /\ process t = Ok key) done ->
    loads message = Ok task -> basenames task <> [] -> process task = Err e ->
    worker Message loads process (done ++ message :: rest)
    = flat_map (handled loads) done ++ [Failed task e].
Proof.
  unfold worker.
  induction done as [|m done IH]; intros message rest task e Hdone Hl Hne Hp.
  - cbn [app get_tasks flat_map]. rewrite Hl. unfold date_str.
    destruct (basenames task); [congruence |].
    cbn [worker_loop]. now rewrite Hp.
  - inversion Hdone as [|? ? [t [key [Hl' [Hne' Hp']]]] Hdone']; subst.
    cbn [app get_tasks flat_map]. unfold handled at 1. rewrite Hl'. unfold date_str.
    destruct (basenames t); [congruence |].
    cbn [worker_loop]. rewrite Hp'.
    rewrite (IH message rest task e Hdone' Hl Hne Hp). reflexivity.
Qed.

Lemma deleted_handled (done : list Message) :
  Forall (fun m => exists t key,
              loads m = Ok t /\ basenames t <> [] /\ process t = Ok key) done ->
  deleted (flat_map (handled loads) done) = done.
Proof.
  induction 1 as [|m done [t [key [Hl _]]] _ IH]; [reflexivity |].
  cbn [flat_map]. unfold deleted in *. rewrite flat_map_app, IH.
  unfold handled. now rewrite Hl.
Qed.

(** C6.  [get_tasks] deletes a message only when the worker has
    returned from the task made from it: in every run a deletion
    follows directly on the successful end of that task.  If the worker
    raises on a task the run ends there: the messages deleted by the
    call are those before it, and its own message is not among the
    deletions of the call. *)
Theorem delete_only_after_success (messages : list Message) :
  (forall before message after,
      worker Message loads process messages = before ++ Deleted message :: after ->
      exists before' task key,
        before = before' ++ [Processed task] /\
        loads message = Ok task /\ process task = Ok key) /\
  (forall before task e after,
      worker Message loads process messages = before ++ Failed task e :: after ->
      after = [] /\ process task = Err e) /\
  (forall done message rest task e,
      messages = done ++ message :: rest ->
      Forall (fun m => exists t key,
                  loads m = Ok t /\ basenames t <> [] /\ process t = Ok key) done ->
      loads message = Ok task -> basenames task <> [] -> process task = Err e ->
      worker Message loads process messages = flat_map (handled loads) done ++ [Failed task e] /\
      deleted (worker Message loads process messages) = done).
Proof.
  split; [apply deleted_after_processed |].
  split; [apply failed_is_last |].
  intros done message rest task e -> Hdone Hl Hne Hp.
  rewrite (trace_until_failure done message rest task e Hdone Hl Hne Hp).
  split; [reflexivity |].
  unfold deleted. rewrite flat_map_app. cbn [flat_map app].
  rewrite app_nil_r. now apply deleted_handled.
Qed.

End Acknowledge.

Lemma delete_only_after_success_witness :
  deleted (worker nat sample_loads sample_process [0; 1; 2; 3]) = [0; 1].
Proof.
  apply (proj2 (proj2 (delete_only_after_success nat sample_loads sample_process [0; 1; 2; 3]))
           [0; 1] 2 [3]
           (mkRollupTask "role" "bucket1" "example.com/"
              ["2022-06-30-16-13-48-F7334FE15D46A819"]) DownloadError).
  - reflexivity.
  - repeat constructor; eexists; eexists; (split; [reflexivity | split; [discriminate | reflexivity]]).
  - reflexivity.
  - discriminate.
  - reflexivity.
Defined.

(** ** The order of the archive *)

Section SortFacts.

Context {A : Type}.
Variable leb : A -> A -> bool.



Hypothesis leb_total : forall x y, leb x y = false -> leb y x = true.



End SortFacts.

(** Sorting commutes with a map that keeps the order. *)
Lemma sorted_map {A B : Type} (leA : A -> A -> bool) (leB : B -> B -> bool)
    (f : A -> B) (l : list A) :
  (forall x y, leB (f x) (f y) = leA x y) ->
  sorted leB (map f l) = map f (sorted leA l).
Proof.
  intros Hf. induction l as [|x l IH]; simpl; [reflexivity |].
  rewrite IH. generalize (sorted leA l). intros s.
  induction s as [|y s IHs]; simpl; [reflexivity |].
  rewrite Hf. destruct (leA x y); simpl; [reflexivity | now rewrite IHs].
Qed.

Lemma string_compare_refl (s : string) : String.compare s s = Eq.
Proof.
  pose proof (String.compare_antisym s s) as H.
  destruct (String.compare s s); simpl in H; congruence.
Qed.


(** Paths of one directory are ordered as their names. *)
Lemma path_leb_same_dir (dir : Path) (a b : string) :
  path_leb (dir ++ [a]) (dir ++ [b]) = String.leb a b.
Proof.
  unfold path_leb, String.leb.
  induction dir as [|c dir IH]; simpl.
  - destruct (String.compare a b); reflexivity.
  - now rewrite string_compare_refl.
Qed.

Lemma sorted_local_paths (tmpdir : Path) (names : list string) :
  Forall (fun n => n <> "") names ->
  map path_name (sorted path_leb (map (path_join tmpdir) names))
  = sorted String.leb names.
Proof.
  intros Hne.
  rewrite (map_ext_in (path_join tmpdir) (fun n => tmpdir ++ [n])).
  - rewrite (sorted_map String.leb path_leb) by (intros; apply path_leb_same_dir).
    rewrite map_map. rewrite <- (map_id (sorted String.leb names)) at 2.
    apply map_ext. intros n. unfold path_name. apply last_last.
  - intros n Hn. unfold path_join.
    destruct (String.eqb_spec n ""); [| reflexivity].
    exfalso. exact (proj1 (Forall_forall _ _) Hne n Hn e).
Qed.











Example test_do_task_members :
  do_task test_task false ["tmp"; "tmpa1b2c3"] "0a1b2c3d" 2
    (fun _ => Ok 3%Z) (rev (object_keys test_task))
  = Ok (mkOutcome (basenames test_task) 8 24
          "example.com/rollup-2022-06-30-0a1b2c3d.tgz" []).
Proof. vm_compute. reflexivity. Qed.



(** ** Dates of access logs *)

Lemma is_digit_in (c : ascii) : is_digit c = true -> In c digits.
Proof.
  destruct c as [[] [] [] [] [] [] [] []]; intros H;
    try discriminate H; simpl; tauto.
Qed.

Lemma make_date_some (y m d : Z) (dt : date) :
  make_date y m d = Some dt ->
  dt = mkDate y m d /\
  (1 <= y <= 9999 /\ 1 <= m <= 12 /\ 1 <= d <= days_in_month y m)%Z.
Proof.
  unfold make_date.
  destruct ((1 <=? y) && (y <=? 9999) && (1 <=? m) && (m <=? 12)
            && (1 <=? d) && (d <=? days_in_month y m))%Z eqn:E; [| discriminate].
  intros [= <-]. split; [reflexivity |].
  repeat (apply andb_true_iff in E; destruct E as [E ?]).
  repeat match goal with H : (_ <=? _)%Z = true |- _ => apply Z.leb_le in H end.
  lia.
Qed.

(** *** Characters *)

Lemma take_0 (s : string) : take 0 s = "".
Proof. reflexivity. Qed.

Lemma take_empty (n : nat) : take n "" = "".
Proof. destruct n; reflexivity. Qed.

Lemma is_digit_width (c : ascii) :
  is_digit c = true -> char_width c = 1 /\ (nat_of_ascii c <? 128)%nat = true.
Proof.
  destruct c as [[] [] [] [] [] [] [] []]; intros H; try discriminate H;
    split; reflexivity.
Qed.

Lemma next_char_ascii (c : ascii) (s : string) :
  char_width c = 1 -> next_char (String c s) = Some (String c "", s).
Proof. intros H. unfold next_char. rewrite H. reflexivity. Qed.

Lemma take_cons (n : nat) (c : ascii) (s : string) :
  char_width c = 1 -> take (S n) (String c s) = String c (take n s).
Proof. intros H. cbn [take]. rewrite next_char_ascii by exact H. reflexivity. Qed.

Lemma decimal_digit (c : ascii) :
  is_digit c = true -> decimal (String c "") = Some (digit_value c).
Proof.
  intros H. unfold decimal. destruct (is_digit_width c H) as [_ ->]. now rewrite H.
Qed.

Lemma decimal_ascii (c : ascii) (v : Z) :
  (nat_of_ascii c <? 128)%nat = true -> decimal (String c "") = Some v ->
  is_digit c = true.
Proof.
  intros Hc. unfold decimal. rewrite Hc. destruct (is_digit c); [reflexivity | discriminate].
Qed.

Lemma in_range_digit (lo hi c : ascii) :
  is_digit lo = true -> is_digit hi = true -> in_range lo hi c = true ->
  is_digit c = true.
Proof.
  unfold in_range, is_digit. intros Hlo Hhi H.
  apply andb_true_iff in Hlo, Hhi, H.
  destruct Hlo as [Hlo _], Hhi as [_ Hhi], H as [H1 H2].
  apply Nat.leb_le in Hlo, Hhi, H1, H2.
  apply andb_true_iff. split; apply Nat.leb_le; lia.
Qed.

Lemma char_width_pos (b : ascii) : exists w, char_width b = S w.
Proof.
  unfold char_width.
  destruct (_ <? 192)%nat; [eauto |].
  destruct (_ <? 224)%nat; [eauto |].
  destruct (_ <? 240)%nat; eauto.
Qed.

Lemma take_bytes_app (w : nat) :
  forall s x,
    (drop w s = "" -> x = "") ->
    take_bytes w (take_bytes w s ++ x) = take_bytes w s /\
    drop w (take_bytes w s ++ x) = x.
Proof.
  induction w as [|w IH]; intros s x Hx.
  - split; reflexivity.
  - destruct s as [|a s].
    + rewrite (Hx eq_refl). split; reflexivity.
    + cbn [take_bytes append drop]. destruct (IH s x Hx) as [-> ->].
      split; reflexivity.
Qed.

(** A character followed by anything is read back as that character,
    unless it is cut short by the end of the string. *)
Lemma next_char_app (s c rest x : string) :
  next_char s = Some (c, rest) -> (rest = "" -> x = "") ->
  next_char (c ++ x) = Some (c, x).
Proof.
  destruct s as [|b s]; [discriminate |]. unfold next_char at 1.
  destruct (char_width_pos b) as [w Hw]. rewrite Hw. cbn [take_bytes drop].
  intros [= <- <-] Hx. cbn [append next_char]. rewrite Hw. cbn [take_bytes drop].
  change (String b (take_bytes w s ++ x))
    with (String b (take_bytes w s) ++ x)%string.
  destruct (take_bytes_app w s x Hx) as [H1 H2].
  cbn [append]. now rewrite H1, H2.
Qed.

Lemma next_char_take (n : nat) (s c rest : string) :
  next_char s = Some (c, rest) ->
  next_char (take (S n) s) = Some (c, take n rest).
Proof.
  intros H. cbn [take]. rewrite H.
  apply (next_char_app s c rest); [exact H |].
  intros ->. apply take_empty.
Qed.

Lemma next_char_hyphen (s rest : string) :
  next_char s = Some ("-", rest) -> s = String "-" rest.
Proof.
  destruct s as [|b s]; [discriminate |]. unfold next_char.
  destruct (char_width_pos b) as [w Hw]. rewrite Hw. cbn [take_bytes drop].
  intros [= -> Ht <-]. change (char_width "-") with 1 in Hw.
  injection Hw as <-. reflexivity.
Qed.

Lemma decimal_hyphen : decimal "-" = None.
Proof. reflexivity. Qed.

Lemma decimal_space : decimal " " = None.
Proof. reflexivity. Qed.

(** *** The pattern *)

Lemma re_match_D (ps : list pat) (s : string) :
  re_match (D :: ps) s = true ->
  exists c rest v,
    next_char s = Some (c, rest) /\ decimal c = Some v /\ re_match ps rest = true.
Proof.
  cbn [re_match]. destruct (next_char s) as [[c rest] |]; [| discriminate].
  intros H. apply andb_true_iff in H. destruct H as [Hc H]. cbn [pat_ok] in Hc.
  destruct (decimal c) as [v |] eqn:V; [| discriminate Hc].
  exists c, rest, v. auto.
Qed.

Lemma re_match_Hy (ps : list pat) (s : string) :
  re_match (Hy :: ps) s = true ->
  exists rest, s = String "-" rest /\ re_match ps rest = true.
Proof.
  cbn [re_match]. destruct (next_char s) as [[c rest] |] eqn:E; [| discriminate].
  intros H. apply andb_true_iff in H. destruct H as [Hc H]. cbn [pat_ok] in Hc.
  apply String.eqb_eq in Hc. subst c. exists rest.
  split; [now apply next_char_hyphen | exact H].
Qed.

Lemma re_match_app (ps qs : list pat) :
  forall s, re_match (ps ++ qs) s = true -> re_match ps s = true.
Proof.
  induction ps as [|p ps IH]; intros s H; [reflexivity |].
  cbn [app re_match] in *. destruct (next_char s) as [[c rest] |]; [| discriminate].
  apply andb_true_iff in H. destruct H as [Hc H].
  rewrite Hc. now apply IH.
Qed.

(** The pattern looks at as many characters as it has positions. *)
Lemma re_match_take (ps : list pat) :
  forall n s, List.length ps <= n -> re_match ps s = true ->
              re_match ps (take n s) = true.
Proof.
  induction ps as [|p ps IH]; intros n s Hn H; [reflexivity |].
  destruct n as [|n]; [simpl in Hn; lia |].
  cbn [re_match] in H. destruct (next_char s) as [[c rest] |] eqn:E; [| discriminate].
  apply andb_true_iff in H. destruct H as [Hc H].
  cbn [re_match]. rewrite (next_char_take n s c rest E), Hc.
  apply IH; [simpl in Hn; lia | exact H].
Qed.

(** *** The directives *)

Lemma alt2_in (r1 r2 : ascii -> bool) (s rest : string) (m : Z) :
  In (m, rest) (alt2 r1 r2 s) ->
  exists a b, s = String a (String b rest) /\ r1 a = true /\ r2 b = true /\
              m = (10 * digit_value a + digit_value b)%Z.
Proof.
  unfold alt2. destruct s as [|a [|b s]]; try contradiction.
  destruct (r1 a) eqn:E1; [| contradiction].
  destruct (r2 b) eqn:E2; [| contradiction].
  intros [[= <- <-] | []]. exists a, b. auto.
Qed.

Lemma alt1_in (r : ascii -> bool) (s rest : string) (m : Z) :
  In (m, rest) (alt1 r s) ->
  exists a, s = String a rest /\ r a = true /\ m = digit_value a.
Proof.
  unfold alt1. destruct s as [|a s]; try contradiction.
  destruct (r a) eqn:E; [| contradiction].
  intros [[= <- <-] | []]. exists a. auto.
Qed.

Lemma alt_decimal_in (r : ascii -> bool) (s rest : string) (m : Z) :
  In (m, rest) (alt_decimal r s) ->
  exists a s' c v, s = String a s' /\ r a = true /\
                   next_char s' = Some (c, rest) /\ decimal c = Some v /\
                   m = (10 * digit_value a + v)%Z.
Proof.
  unfold alt_decimal. destruct s as [|a s]; try contradiction.
  destruct (r a) eqn:E; [| contradiction].
  destruct (next_char s) as [[c rest'] |] eqn:En; [| contradiction].
  destruct (decimal c) as [v |] eqn:V; [| contradiction].
  intros [[= <- <-] | []]. exists a, s, c, v. auto.
Qed.

Lemma match_month_day_in (alts : list (Z * string)) (m d : Z) (rest : string) :
  match_month_day alts = Some (m, d, rest) ->
  exists s s', In (m, s) alts /\ eat_hyphen s = Some s' /\ In (d, rest) (day_alts s').
Proof.
  induction alts as [|[m' s] alts IH]; [discriminate |].
  cbn [match_month_day].
  destruct (eat_hyphen s) as [s' |] eqn:Eh.
  - destruct (day_alts s') as [|[d' s''] tl] eqn:Ed.
    + intros H. destruct (IH H) as [s0 [s0' [Hin H']]].
      exists s0, s0'. split; [now right | exact H'].
    + intros [= <- <- <-]. exists s, s'. split; [now left |].
      split; [exact Eh |]. rewrite Ed. now left.
  - intros H. destruct (IH H) as [s0 [s0' [Hin H']]].
    exists s0, s0'. split; [now right | exact H'].
Qed.

Lemma eat_hyphen_some (s s' : string) : eat_hyphen s = Some s' -> s = String "-" s'.
Proof.
  destruct s as [|a s]; [discriminate |]. cbn [eat_hyphen].
  destruct (Ascii.eqb_spec a "-") as [-> | Hne].
  - now intros [= ->].
  - destruct a as [[] [] [] [] [] [] [] []]; try discriminate; congruence.
Qed.

(** A digit of ASCII at the head of a string is the character read
    there. *)
Lemma head_digit (a : ascii) (s c rest : string) (v : Z) :
  is_digit a = true ->
  next_char (String a s) = Some (c, rest) -> decimal c = Some v ->
  c = String a "" /\ rest = s /\ v = digit_value a.
Proof.
  intros Ha E V. rewrite next_char_ascii in E by apply (is_digit_width a Ha).
  injection E as <- <-. rewrite (decimal_digit a Ha) in V. injection V as <-. auto.
Qed.

(** On a month and a day of two decimal characters each, [%m] and [%d]
    read the two numbers and nothing is left over. *)
Lemma month_day_fields (t m1 t1 m2 t3 d1 t4 d2 t5 : string)
    (vm1 vm2 vd1 vd2 m d : Z) :
  next_char t = Some (m1, t1) -> decimal m1 = Some vm1 ->
  next_char t1 = Some (m2, String "-" t3) -> decimal m2 = Some vm2 ->
  next_char t3 = Some (d1, t4) -> decimal d1 = Some vd1 ->
  next_char t4 = Some (d2, t5) -> decimal d2 = Some vd2 ->
  match_month_day (month_alts t) = Some (m, d, "") ->
  (m = 10 * vm1 + vm2 /\ d = 10 * vd1 + vd2)%Z /\ t5 = "".
Proof.
  intros E1 V1 E2 V2 E3 V3 E4 V4 H.
  destruct (match_month_day_in _ _ _ _ H) as [s [s' [Hm [Hh Hd]]]].
  apply eat_hyphen_some in Hh. subst s.
  assert (Hmonth : m = (10 * vm1 + vm2)%Z /\ s' = t3).
  { unfold month_alts in Hm. apply in_app_or in Hm. destruct Hm as [Hm | Hm];
      [| apply in_app_or in Hm; destruct Hm as [Hm | Hm]].
    - apply alt2_in in Hm. destruct Hm as [a [b [-> [Ha [Hb ->]]]]].
      apply (in_range_digit "1" "1") in Ha; [| reflexivity ..].
      apply (in_range_digit "0" "2") in Hb; [| reflexivity ..].
      destruct (head_digit _ _ _ _ _ Ha E1 V1) as [-> [-> ->]].
      destruct (head_digit _ _ _ _ _ Hb E2 V2) as [-> [[= ->] ->]]. auto.
    - apply alt2_in in Hm. destruct Hm as [a [b [-> [Ha [Hb ->]]]]].
      apply (in_range_digit "0" "0") in Ha; [| reflexivity ..].
      apply (in_range_digit "1" "9") in Hb; [| reflexivity ..].
      destruct (head_digit _ _ _ _ _ Ha E1 V1) as [-> [-> ->]].
      destruct (head_digit _ _ _ _ _ Hb E2 V2) as [-> [[= ->] ->]]. auto.
    - apply alt1_in in Hm. destruct Hm as [a [-> [Ha ->]]].
      apply (in_range_digit "1" "9") in Ha; [| reflexivity ..].
      destruct (head_digit _ _ _ _ _ Ha E1 V1) as [-> [-> ->]].
      rewrite next_char_ascii in E2 by reflexivity. injection E2 as <- _.
      rewrite decimal_hyphen in V2. discriminate V2. }
  destruct Hmonth as [-> ->]. split; [split; [reflexivity |] |].
  - unfold day_alts in Hd.
    repeat (apply in_app_or in Hd; destruct Hd as [Hd | Hd]).
    + apply alt2_in in Hd. destruct Hd as [a [b [-> [Ha [Hb ->]]]]].
      apply (in_range_digit "3" "3") in Ha; [| reflexivity ..].
      apply (in_range_digit "0" "1") in Hb; [| reflexivity ..].
      destruct (head_digit _ _ _ _ _ Ha E3 V3) as [-> [-> ->]].
      destruct (head_digit _ _ _ _ _ Hb E4 V4) as [-> [_ ->]]. reflexivity.
    + apply alt_decimal_in in Hd.
      destruct Hd as [a [u [c [v [-> [Ha [En [V ->]]]]]]]].
      apply (in_range_digit "1" "2") in Ha; [| reflexivity ..].
      destruct (head_digit _ _ _ _ _ Ha E3 V3) as [-> [-> ->]].
      rewrite En in E4. injection E4 as <- _. rewrite V in V4. now injection V4 as <-.
    + apply alt2_in in Hd. destruct Hd as [a [b [-> [Ha [Hb ->]]]]].
      apply (in_range_digit "0" "0") in Ha; [| reflexivity ..].
      apply (in_range_digit "1" "9") in Hb; [| reflexivity ..].
      destruct (head_digit _ _ _ _ _ Ha E3 V3) as [-> [-> ->]].
      destruct (head_digit _ _ _ _ _ Hb E4 V4) as [-> [_ ->]]. reflexivity.
    + apply alt1_in in Hd. destruct Hd as [a [-> [Ha ->]]].
      apply (in_range_digit "1" "9") in Ha; [| reflexivity ..].
      destruct (head_digit _ _ _ _ _ Ha E3 V3) as [-> [-> ->]].
      discriminate E4.
    + destruct t3 as [|a t3]; [contradiction |].
      destruct (Ascii.eqb_spec a " ") as [-> | Hne].
      * rewrite next_char_ascii in E3 by reflexivity. injection E3 as <- _.
        rewrite decimal_space in V3. discriminate V3.
      * exfalso. destruct a as [[] [] [] [] [] [] [] []]; try contradiction;
          now apply Hne.
  - unfold day_alts in Hd.
    repeat (apply in_app_or in Hd; destruct Hd as [Hd | Hd]).
    + apply alt2_in in Hd. destruct Hd as [a [b [-> [Ha [Hb _]]]]].
      apply (in_range_digit "3" "3") in Ha; [| reflexivity ..].
      apply (in_range_digit "0" "1") in Hb; [| reflexivity ..].
      destruct (head_digit _ _ _ _ _ Ha E3 V3) as [_ [-> _]].
      destruct (head_digit _ _ _ _ _ Hb E4 V4) as [_ [-> _]]. reflexivity.
    + apply alt_decimal_in in Hd.
      destruct Hd as [a [u [c [v [-> [Ha [En [V _]]]]]]]].
      apply (in_range_digit "1" "2") in Ha; [| reflexivity ..].
      destruct (head_digit _ _ _ _ _ Ha E3 V3) as [_ [-> _]].
      rewrite En in E4. now injection E4 as _ <-.
    + apply alt2_in in Hd. destruct Hd as [a [b [-> [Ha [Hb _]]]]].
      apply (in_range_digit "0" "0") in Ha; [| reflexivity ..].
      apply (in_range_digit "1" "9") in Hb; [| reflexivity ..].
      destruct (head_digit _ _ _ _ _ Ha E3 V3) as [_ [-> _]].
      destruct (head_digit _ _ _ _ _ Hb E4 V4) as [_ [-> _]]. reflexivity.
    + apply alt1_in in Hd. destruct Hd as [a [-> [Ha _]]].
      apply (in_range_digit "1" "9") in Ha; [| reflexivity ..].
      destruct (head_digit _ _ _ _ _ Ha E3 V3) as [_ [-> _]].
      discriminate E4.
    + destruct t3 as [|a t3]; [contradiction |].
      destruct (Ascii.eqb_spec a " ") as [-> | Hne].
      * rewrite next_char_ascii in E3 by reflexivity. injection E3 as <- _.
        rewrite decimal_space in V3. discriminate V3.
      * exfalso. destruct a as [[] [] [] [] [] [] [] []]; try contradiction;
          now apply Hne.
Qed.

Lemma read_decimals_2 (t c1 t1 c2 t2 : string) (v1 v2 : Z) :
  next_char t = Some (c1, t1) -> decimal c1 = Some v1 ->
  next_char t1 = Some (c2, t2) -> decimal c2 = Some v2 ->
  read_decimals 2 0 t = Some ((10 * v1 + v2)%Z, t2).
Proof.
  intros E1 V1 E2 V2. cbn [read_decimals]. rewrite E1, V1, E2, V2.
  replace (10 * (10 * 0 + v1) + v2)%Z with (10 * v1 + v2)%Z by lia. reflexivity.
Qed.

Lemma read_decimals_4 (s c1 s1 c2 s2 c3 s3 c4 s4 : string) (v1 v2 v3 v4 : Z) :
  next_char s = Some (c1, s1) -> decimal c1 = Some v1 ->
  next_char s1 = Some (c2, s2) -> decimal c2 = Some v2 ->
  next_char s2 = Some (c3, s3) -> decimal c3 = Some v3 ->
  next_char s3 = Some (c4, s4) -> decimal c4 = Some v4 ->
  read_decimals 4 0 s = Some ((1000 * v1 + 100 * v2 + 10 * v3 + v4)%Z, s4).
Proof.
  intros E1 V1 E2 V2 E3 V3 E4 V4. cbn [read_decimals].
  rewrite E1, V1, E2, V2, E3, V3, E4, V4.
  replace (10 * (10 * (10 * (10 * 0 + v1) + v2) + v3) + v4)%Z
    with (1000 * v1 + 100 * v2 + 10 * v3 + v4)%Z by lia.
  reflexivity.
Qed.

(** Whatever [strptime] accepts at the start of a name that matches the
    pattern of access logs is a day of the calendar, and [strptime]
    returns that day. *)
Lemma strptime_valid (name : string) (dt : date) :
  re_match datetime_pattern name = true ->
  strptime_ymd (take 10 name) = Some dt ->
  date_fields (take 10 name) = Some dt /\ calendar_date (take 10 name).
Proof.
  intros Hre Hp.
  assert (H : re_match [D; D; D; D; Hy; D; D; Hy; D; D] (take 10 name) = true).
  { apply re_match_take; [simpl; lia |].
    apply (re_match_app _ [Hy; D; D; Hy; D; D; Hy; D; D]). exact Hre. }
  clear Hre. revert Hp H. generalize (take 10 name). intros s Hp H.
  destruct (re_match_D _ _ H) as [y1 [s1 [v1 [E1 [V1 H1]]]]].
  destruct (re_match_D _ _ H1) as [y2 [s2 [v2 [E2 [V2 H2]]]]].
  destruct (re_match_D _ _ H2) as [y3 [s3 [v3 [E3 [V3 H3]]]]].
  destruct (re_match_D _ _ H3) as [y4 [s4 [v4 [E4 [V4 H4]]]]].
  destruct (re_match_Hy _ _ H4) as [t [-> H5]].
  destruct (re_match_D _ _ H5) as [m1 [t1 [vm1 [E5 [V5 H6]]]]].
  destruct (re_match_D _ _ H6) as [m2 [t2 [vm2 [E6 [V6 H7]]]]].
  destruct (re_match_Hy _ _ H7) as [t3 [-> H8]].
  destruct (re_match_D _ _ H8) as [d1 [t4 [vd1 [E7 [V7 H9]]]]].
  destruct (re_match_D _ _ H9) as [d2 [t5 [vd2 [E8 [V8 _]]]]].
  pose proof (read_decimals_4 _ _ _ _ _ _ _ _ _ _ _ _ _ E1 V1 E2 V2 E3 V3 E4 V4) as Hy.
  unfold strptime_ymd, year_alt in Hp. rewrite Hy in Hp. cbn [eat_hyphen] in Hp.
  destruct (match_month_day (month_alts t)) as [[[m d] rest] |] eqn:Em;
    [| discriminate Hp].
  destruct rest; [| discriminate Hp].
  destruct (month_day_fields _ _ _ _ _ _ _ _ _ _ _ _ _ _ _ E5 V5 E6 V6 E7 V7 E8 V8 Em)
    as [[-> ->] ->].
  apply make_date_some in Hp. destruct Hp as [-> Hp].
  assert (Hf : date_fields s
               = Some (mkDate (1000 * v1 + 100 * v2 + 10 * v3 + v4)
                              (10 * vm1 + vm2) (10 * vd1 + vd2))).
  { unfold date_fields. rewrite Hy. cbn [eat_hyphen].
    rewrite (read_decimals_2 t m1 t1 m2 _ vm1 vm2 E5 V5 E6 V6). cbn [eat_hyphen].
    rewrite (read_decimals_2 t3 d1 t4 d2 _ vd1 vd2 E7 V7 E8 V8). reflexivity. }
  split; [exact Hf |]. eexists. split; [exact Hf |]. exact Hp.
Qed.

(** A date written with the digits of ASCII is a day of the calendar
    in the wider sense. *)
Lemma valid_calendar_date_calendar (s : string) :
  valid_calendar_date s -> calendar_date s.
Proof.
  intros [y1 [y2 [y3 [y4 [m1 [m2 [d1 [d2 [-> [Hd H]]]]]]]]]]. cbv zeta in H.
  pose proof (proj1 (Forall_forall _ _) Hd) as Hin.
  assert (Hy1 : is_digit y1 = true) by (apply Hin; simpl; tauto).
  assert (Hy2 : is_digit y2 = true) by (apply Hin; simpl; tauto).
  assert (Hy3 : is_digit y3 = true) by (apply Hin; simpl; tauto).
  assert (Hy4 : is_digit y4 = true) by (apply Hin; simpl; tauto).
  assert (Hm1 : is_digit m1 = true) by (apply Hin; simpl; tauto).
  assert (Hm2 : is_digit m2 = true) by (apply Hin; simpl; tauto).
  assert (Hd1 : is_digit d1 = true) by (apply Hin; simpl; tauto).
  assert (Hd2 : is_digit d2 = true) by (apply Hin; simpl; tauto).
  exists (mkDate (1000 * digit_value y1 + 100 * digit_value y2
                  + 10 * digit_value y3 + digit_value y4)
                 (10 * digit_value m1 + digit_value m2)
                 (10 * digit_value d1 + digit_value d2)).
  split; [| exact H].
  unfold date_fields.
  rewrite (read_decimals_4 _ _ _ _ _ _ _ _ _ _ _ _ _
             (next_char_ascii y1 _ (proj1 (is_digit_width y1 Hy1))) (decimal_digit y1 Hy1)
             (next_char_ascii y2 _ (proj1 (is_digit_width y2 Hy2))) (decimal_digit y2 Hy2)
             (next_char_ascii y3 _ (proj1 (is_digit_width y3 Hy3))) (decimal_digit y3 Hy3)
             (next_char_ascii y4 _ (proj1 (is_digit_width y4 Hy4))) (decimal_digit y4 Hy4)).
  cbn [eat_hyphen].
  rewrite (read_decimals_2 _ _ _ _ _ _ _
             (next_char_ascii m1 _ (proj1 (is_digit_width m1 Hm1))) (decimal_digit m1 Hm1)
             (next_char_ascii m2 _ (proj1 (is_digit_width m2 Hm2))) (decimal_digit m2 Hm2)).
  cbn [eat_hyphen].
  rewrite (read_decimals_2 _ _ _ _ _ _ _
             (next_char_ascii d1 _ (proj1 (is_digit_width d1 Hd1))) (decimal_digit d1 Hd1)
             (next_char_ascii d2 _ (proj1 (is_digit_width d2 Hd2))) (decimal_digit d2 Hd2)).
  reflexivity.
Qed.

Lemma is_access_log_name (k : string) :
  _is_access_log k = true -> re_match datetime_pattern (basename k) = true.
Proof.
  unfold _is_access_log, basename.
  destruct (re_match datetime_pattern _); [reflexivity | discriminate].
Qed.

Lemma bad_date_key_qualifies :
  _is_access_log bad_date_key = true /\
  ~ calendar_date (take 10 (basename bad_date_key)).
Proof.
  split; [reflexivity |].
  intros [dt [E H]]. vm_compute in E. injection E as <-. cbn in H. lia.
Qed.

Section DateGetter.

Variable utc_today : date.

Lemma date_getter_invalid (o : ObjectSummary) :
  _is_access_log (key o) = true ->
  ~ calendar_date (take 10 (basename (key o))) ->
  _date_getter utc_today o = Err ValueError.
Proof.
  intros Hq Hbad. unfold _date_getter.
  destruct (strptime_ymd _) as [dt |] eqn:E; [| reflexivity].
  exfalso. apply Hbad.
  exact (proj2 (strptime_valid _ dt (is_access_log_name _ Hq) E)).
Qed.

(** What a key of [_date_getter] other than the marker says. *)
Lemma date_getter_past (o : ObjectSummary) (k : string) :
  _date_getter utc_today o = Ok k -> k <> "" ->
  k = take 10 (basename (key o)) /\
  exists dt, strptime_ymd (take 10 (basename (key o))) = Some dt /\
             date_ltb dt utc_today = true.
Proof.
  unfold _date_getter, date_geb.
  destruct (strptime_ymd _) as [dt |]; [| discriminate].
  destruct (date_ltb dt utc_today) eqn:Hlt; cbn [negb]; intros H Hne; injection H as <-.
  - split; [reflexivity |]. exists dt. split; [reflexivity | exact Hlt].
  - congruence.
Qed.

Lemma date_getter_of_past (o : ObjectSummary) (dt : date) :
  strptime_ymd (take 10 (basename (key o))) = Some dt ->
  date_ltb dt utc_today = true ->
  exists k, _date_getter utc_today o = Ok k /\ k <> "".
Proof.
  intros E Hlt. unfold _date_getter, date_geb. rewrite E, Hlt. cbn [negb].
  eexists. split; [reflexivity |]. intros E'. rewrite E' in E. discriminate E.
Qed.

Lemma date_getter_of_today (o : ObjectSummary) (dt : date) :
  strptime_ymd (take 10 (basename (key o))) = Some dt ->
  date_geb dt utc_today = true ->
  _date_getter utc_today o = Ok "".
Proof.
  intros E Hge. unfold _date_getter. now rewrite E, Hge.
Qed.

End DateGetter.

(** ** Grouping by date *)

Section GroupByFacts.

Variable keyfunc : ObjectSummary -> result string.

(** Every object of a group has the key of the group. *)
Lemma groupby_from_keyed (objects : list ObjectSummary) :
  forall k g out,
    groupby_from String.eqb keyfunc k objects = (g, out) ->
    Forall (fun o => keyfunc o = Ok k) (gen_items g) /\
    Forall (group_keyed keyfunc) (gen_items out).
Proof.
  induction objects as [|o objects IH]; intros k g out H; simpl in H.
  - injection H as <- <-. split; constructor.
  - destruct (keyfunc o) as [k' | e] eqn:Ek.
    + destruct (String.eqb_spec k' k) as [-> | Hne].
      * destruct (groupby_from String.eqb keyfunc k objects) as [g' out'] eqn:E.
        injection H as <- <-. destruct (IH _ _ _ E) as [Hg Hout].
        split; [constructor; assumption | exact Hout].
      * destruct (groupby_from String.eqb keyfunc k' objects) as [g' out'] eqn:E.
        injection H as <- <-. destruct (IH _ _ _ E) as [Hg Hout].
        split; [constructor |].
        constructor; [| exact Hout].
        unfold group_keyed. simpl. constructor; assumption.
    + injection H as <- <-. split; constructor.
Qed.

Lemma groupby_keyed (objects : list ObjectSummary) :
  Forall (group_keyed keyfunc) (gen_items (groupby String.eqb keyfunc objects)).
Proof.
  destruct objects as [|o objects]; simpl; [constructor |].
  destruct (keyfunc o) as [k | e] eqn:Ek; [| constructor].
  destruct (groupby_from String.eqb keyfunc k objects) as [g out] eqn:E.
  destruct (groupby_from_keyed _ _ _ _ E) as [Hg Hout].
  simpl. constructor; [| exact Hout].
  unfold group_keyed. simpl. constructor; assumption.
Qed.

End GroupByFacts.

Section MakeTasksFacts.

Variable utc_today : date.
Variable s3_role : string.
Variable prefix : S3URI.

(** The basenames of a task are those of objects whose group has a key
    other than the marker. *)
Lemma make_tasks_loop_keys (groups : gen (string * gen ObjectSummary)) :
  Forall (group_keyed (_date_getter utc_today)) (gen_items groups) ->
  forall task bn,
    In task (gen_items ((_make_tasks_loop s3_role prefix) groups)) -> In bn (basenames task) ->
    exists o k, bn = basename (key o) /\ (_date_getter utc_today) o = Ok k /\ k <> "".
Proof.
  induction groups as [| e | [d grp] groups IH]; intros Hk task bn Ht Hbn;
    try contradiction.
  simpl in Hk. inversion Hk as [|? ? Hgrp Hrest]; subst.
  cbn [_make_tasks_loop] in Ht.
  destruct (String.eqb_spec d "") as [-> | Hd]; [contradiction |].
  apply gen_items_app_in in Ht. destruct Ht as [Ht | Ht].
  - rewrite gen_items_map in Ht. apply in_map_iff in Ht.
    destruct Ht as [bin [<- Hbin]]. cbn [make_task basenames] in Hbn.
    apply in_map_iff in Hbn. destruct Hbn as [o [<- Ho]].
    exists o, d. split; [reflexivity |]. split; [| exact Hd].
    assert (Hin : In o (gen_items grp)).
    { apply (group_objects_in max_size_default max_items_default).
      apply in_concat. exists bin. split; assumption. }
    exact (proj1 (Forall_forall _ _) Hgrp o Hin).
  - exact (IH Hrest task bn Ht Hbn).
Qed.

Section Stop.

Variables (o : ObjectSummary) (post : list ObjectSummary).
Hypothesis marker : (_date_getter utc_today) o = Ok "".

(** Up to an object of today the groups are read as if the listing
    ended there. *)
Lemma groupby_from_stop (pre : list ObjectSummary) :
  forall k,
    k <> "" ->
    Forall (fun x => exists k', (_date_getter utc_today) x = Ok k' /\ k' <> "") pre ->
    fst (groupby_from String.eqb (_date_getter utc_today) k (pre ++ o :: post))
    = fst (groupby_from String.eqb (_date_getter utc_today) k pre) /\
    (_make_tasks_loop s3_role prefix) (snd (groupby_from String.eqb (_date_getter utc_today) k (pre ++ o :: post)))
    = (_make_tasks_loop s3_role prefix) (snd (groupby_from String.eqb (_date_getter utc_today) k pre)).
Proof.
  induction pre as [|p pre IH]; intros k Hk Hpre.
  - cbn [app groupby_from]. rewrite marker.
    destruct (String.eqb_spec "" k) as [E | _]; [congruence |].
    destruct (groupby_from String.eqb (_date_getter utc_today) "" post) as [g out].
    split; reflexivity.
  - inversion Hpre as [|? ? [k' [Ek Hk']] Hpre']; subst.
    cbn [app groupby_from]. rewrite Ek.
    destruct (String.eqb_spec k' k) as [-> | Hne].
    + destruct (IH k Hk Hpre') as [IH1 IH2].
      destruct (groupby_from String.eqb (_date_getter utc_today) k (pre ++ o :: post)) as [g out].
      destruct (groupby_from String.eqb (_date_getter utc_today) k pre) as [g' out'].
      simpl in *. now subst.
    + destruct (IH k' Hk' Hpre') as [IH1 IH2].
      destruct (groupby_from String.eqb (_date_getter utc_today) k' (pre ++ o :: post)) as [g out].
      destruct (groupby_from String.eqb (_date_getter utc_today) k' pre) as [g' out'].
      simpl in IH1, IH2. subst g'. split; [reflexivity |].
      cbn [snd]. cbn [_make_tasks_loop].
      destruct (String.eqb_spec k' "") as [E | _]; [congruence |].
      now rewrite IH2.
Qed.

Lemma make_tasks_loop_stop (pre : list ObjectSummary) :
  Forall (fun x => exists k', (_date_getter utc_today) x = Ok k' /\ k' <> "") pre ->
  (_make_tasks_loop s3_role prefix) (groupby String.eqb (_date_getter utc_today) (pre ++ o :: post))
  = (_make_tasks_loop s3_role prefix) (groupby String.eqb (_date_getter utc_today) pre).
Proof.
  intros Hpre. destruct pre as [|p pre].
  - cbn [app groupby]. rewrite marker.
    destruct (groupby_from String.eqb (_date_getter utc_today) "" post) as [g out]. reflexivity.
  - inversion Hpre as [|? ? [k [Ek Hk]] Hpre']; subst.
    cbn [app groupby]. rewrite Ek.
    destruct (groupby_from_stop pre k Hk Hpre') as [H1 H2].
    destruct (groupby_from String.eqb (_date_getter utc_today) k (pre ++ o :: post)) as [g out].
    destruct (groupby_from String.eqb (_date_getter utc_today) k pre) as [g' out'].
    simpl in H1, H2. subst g'. cbn [_make_tasks_loop].
    destruct (String.eqb_spec k "") as [E | _]; [congruence |].
    now rewrite H2.
Qed.

End Stop.

Section Abort.

Variables (o : ObjectSummary) (post : list ObjectSummary) (e : exn).
Hypothesis raises : (_date_getter utc_today) o = Err e.

Lemma group_ends_raised (k : string) (p : ObjectSummary) (g : gen ObjectSummary)
    (out : gen (string * gen ObjectSummary)) :
  k <> "" -> ends_raised s3_role prefix e g out ->
  gen_end ((_make_tasks_loop s3_role prefix) (Yield (k, Yield p g) out)) = Raised e.
Proof.
  intros Hk H. unfold ends_raised in H. cbn [_make_tasks_loop].
  destruct (String.eqb_spec k "") as [E | _]; [congruence |].
  destruct H as [H | [H1 H2]].
  - erewrite gen_app_raised.
    + rewrite gen_end_map. apply group_objects_raised. exact H.
    + rewrite gen_end_map. apply group_objects_raised. exact H.
  - rewrite gen_end_app_returned; [exact H2 |].
    rewrite gen_end_map. cbn [_group_objects].
    apply (group_loop_concat max_size_default max_items_default g [p] (size p) H1).
Qed.

Lemma groupby_from_abort (pre : list ObjectSummary) :
  forall k,
    Forall (fun x => exists k', (_date_getter utc_today) x = Ok k' /\ k' <> "") pre ->
    ends_raised s3_role prefix e (fst (groupby_from String.eqb (_date_getter utc_today) k (pre ++ o :: post)))
                (snd (groupby_from String.eqb (_date_getter utc_today) k (pre ++ o :: post))).
Proof.
  induction pre as [|p pre IH]; intros k Hpre.
  - cbn [app groupby_from]. rewrite raises. left. reflexivity.
  - inversion Hpre as [|? ? [k' [Ek Hk']] Hpre']; subst.
    cbn [app groupby_from]. rewrite Ek.
    destruct (String.eqb_spec k' k) as [-> | Hne].
    + specialize (IH k Hpre').
      destruct (groupby_from String.eqb (_date_getter utc_today) k (pre ++ o :: post)) as [g out].
      exact IH.
    + specialize (IH k' Hpre').
      destruct (groupby_from String.eqb (_date_getter utc_today) k' (pre ++ o :: post)) as [g out].
      right. split; [reflexivity |]. now apply group_ends_raised.
Qed.

Lemma make_tasks_loop_abort (pre : list ObjectSummary) :
  Forall (fun x => exists k', (_date_getter utc_today) x = Ok k' /\ k' <> "") pre ->
  gen_end ((_make_tasks_loop s3_role prefix) (groupby String.eqb (_date_getter utc_today) (pre ++ o :: post))) = Raised e.
Proof.
  intros Hpre. destruct pre as [|p pre].
  - cbn [app groupby]. rewrite raises. reflexivity.
  - inversion Hpre as [|? ? [k [Ek Hk]] Hpre']; subst.
    cbn [app groupby]. rewrite Ek.
    pose proof (groupby_from_abort pre k Hpre') as H.
    destruct (groupby_from String.eqb (_date_getter utc_today) k (pre ++ o :: post)) as [g out].
    now apply group_ends_raised.
Qed.

End Abort.

Lemma filter_past (before : list ObjectSummary) :
  Forall (fun x => _is_access_log (key x) = true -> past_date utc_today x) before ->
  Forall (fun x => exists k', (_date_getter utc_today) x = Ok k' /\ k' <> "")
         (filter (fun x => _is_access_log (key x)) before).
Proof.
  intros H. apply Forall_forall. intros x Hx. apply filter_In in Hx.
  destruct Hx as [Hin Hq].
  destruct (proj1 (Forall_forall _ _) H x Hin Hq) as [dt [E Hlt]].
  exact (date_getter_of_past utc_today x dt E Hlt).
Qed.

(** C4.  No task of [_make_tasks] holds a basename whose first ten
    characters are the current UTC date or a later one: they parse as a
    date and that date lies before today.  The enumeration stops at the
    first qualifying object of today or later: with only earlier dates
    before it, the tasks are those of the listing cut off in front of
    it, whatever follows. *)
Theorem no_task_from_today (listing : list ObjectSummary) :
  (forall task bn,
      In task (gen_items (_make_tasks utc_today s3_role prefix listing)) ->
      In bn (basenames task) ->
      exists dt, strptime_ymd (take 10 bn) = Some dt /\ date_ltb dt utc_today = true) /\
  (forall before o after dt,
      listing = before ++ o :: after ->
      Forall (fun x => _is_access_log (key x) = true -> past_date utc_today x) before ->
      _is_access_log (key o) = true ->
      strptime_ymd (take 10 (basename (key o))) = Some dt ->
      date_geb dt utc_today = true ->
      _make_tasks utc_today s3_role prefix listing
      = _make_tasks utc_today s3_role prefix before).
Proof.
  split.
  - intros task bn Ht Hbn. unfold _make_tasks in Ht.
    destruct (make_tasks_loop_keys _ (groupby_keyed _ _) task bn Ht Hbn)
      as [o [k [-> [Ek Hk]]]].
    apply (date_getter_past utc_today o k Ek Hk).
  - intros before o after dt -> Hbefore Hq E Hge.
    unfold _make_tasks. rewrite filter_app. cbn [filter]. rewrite Hq.
    apply make_tasks_loop_stop.
    + exact (date_getter_of_today utc_today o dt E Hge).
    + now apply filter_past.
Qed.

(** C10.  There is a key that qualifies as an access log and whose first
    ten characters are no day of the calendar; on every such key, in
    whatever script its digits are written, [_date_getter] raises
    [ValueError]; and when such an object is reached, only earlier dates
    standing before it, [_make_tasks] ends with that [ValueError]
    instead of leaving the object out. *)
Theorem invalid_date_aborts :
  (exists k, _is_access_log k = true /\ ~ calendar_date (take 10 (basename k))) /\
  (forall o,
      _is_access_log (key o) = true ->
      ~ calendar_date (take 10 (basename (key o))) ->
      _date_getter utc_today o = Err ValueError) /\
  (forall before o after,
      Forall (fun x => _is_access_log (key x) = true -> past_date utc_today x) before ->
      _is_access_log (key o) = true ->
      ~ calendar_date (take 10 (basename (key o))) ->
      gen_end (_make_tasks utc_today s3_role prefix (before ++ o :: after))
      = Raised ValueError).
Proof.
  split; [exists bad_date_key; exact bad_date_key_qualifies |].
  split; [apply date_getter_invalid |].
  intros before o after Hbefore Hq Hbad.
  unfold _make_tasks. rewrite filter_app. cbn [filter]. rewrite Hq.
  apply make_tasks_loop_abort.
  - now apply date_getter_invalid.
  - now apply filter_past.
Qed.

End MakeTasksFacts.

Example test_make_tasks :
  gen_items (_make_tasks (mkDate 2023 1 4) "role" sample_prefix sample_listing)
  = [ mkRollupTask "role" "bucket1" "example.com/"
        [ "2023-01-01-19-13-48-F7334FE15D46A819";
          "2023-01-01-20-13-48-F7334FE15D46A819";
          "2023-01-01-21-13-48-F7334FE15D46A819" ] ].
Proof. reflexivity. Qed.

Example test_is_access_log :
  map _is_access_log
    [ "example.com/2013-11-01-21-32-16-E568B2907131C0C0";
      "example.com/sample.jpg"; "robots.txt" ]
  = [true; false; false].
Proof. reflexivity. Qed.

Example test_date_str : date_str test_task = Ok "2022-06-30".
Proof. reflexivity. Qed.

Example test_tarball_key :
  tarball_key test_task "0a1b2c3d" = Ok "example.com/rollup-2022-06-30-0a1b2c3d.tgz".
Proof. reflexivity. Qed.

(** * Further properties *)

(** ** Keys and depth *)

Lemma count_app (c : ascii) (s1 s2 : string) :
  count c (s1 ++ s2)%string = count c s1 + count c s2.
Proof. induction s1 as [|a s1 IH]; simpl; [reflexivity | rewrite IH; lia]. Qed.

Lemma append_assoc (s1 s2 s3 : string) :
  ((s1 ++ s2) ++ s3 = s1 ++ (s2 ++ s3))%string.
Proof. induction s1 as [|a s1 IH]; simpl; [reflexivity | now rewrite IH]. Qed.

Lemma append_nil_r (s : string) : (s ++ "")%string = s.
Proof. induction s as [|a s IH]; simpl; [reflexivity | now rewrite IH]. Qed.

Lemma length_append (s1 s2 : string) :
  String.length (s1 ++ s2)%string = String.length s1 + String.length s2.
Proof. induction s1 as [|a s1 IH]; simpl; [reflexivity | now rewrite IH]. Qed.

Lemma rstrip_app_sep (c : ascii) (s : string) :
  rstrip c (s ++ String c "")%string = rstrip c s.
Proof.
  induction s as [|a s IH]; simpl.
  - now rewrite Ascii.eqb_refl.
  - now rewrite IH.
Qed.

Lemma rstrip_no_end (c : ascii) (s : string) :
  endswith c s = false -> rstrip c s = s.
Proof.
  induction s as [|a s IH]; [reflexivity |].
  cbn [endswith rstrip]. destruct s as [|b s].
  - intros H. simpl. now rewrite H.
  - intros H. rewrite (IH H). reflexivity.
Qed.

Lemma endswith_app (c : ascii) (s1 s2 : string) :
  s2 <> "" -> endswith c (s1 ++ s2)%string = endswith c s2.
Proof.
  intros Hne. induction s1 as [|a s1 IH]; [reflexivity |].
  cbn [append endswith]. rewrite IH.
  destruct (s1 ++ s2)%string eqn:E; [| reflexivity].
  destruct s1; simpl in E; [congruence | discriminate].
Qed.

Lemma endswith_count_zero (c : ascii) (s : string) :
  count c s = 0 -> endswith c s = false.
Proof.
  induction s as [|a s IH]; [reflexivity |].
  cbn [count endswith]. destruct (Ascii.eqb a c) eqn:E; [discriminate |].
  rewrite Nat.add_0_l. intros H. destruct s; [reflexivity | now apply IH].
Qed.

Lemma endswith_split (c : ascii) (s : string) :
  endswith c s = true -> exists s', s = (s' ++ String c "")%string.
Proof.
  induction s as [|a s IH]; [discriminate |].
  cbn [endswith]. destruct s as [|b s].
  - intros H. apply Ascii.eqb_eq in H. subst. now exists "".
  - intros H. destruct (IH H) as [s' Hs']. exists (String a s'). simpl. now rewrite Hs'.
Qed.

Lemma strip_prefix_some (parent k r : string) :
  strip_prefix parent k = Some r -> k = (parent ++ r)%string.
Proof.
  revert k. induction parent as [|a parent IH]; intros k H; simpl in H.
  - now injection H as ->.
  - destruct k as [|b k]; [discriminate |].
    destruct (Ascii.eqb_spec a b) as [-> | _]; [| discriminate].
    simpl. now rewrite (IH _ H).
Qed.

(** What [common_prefix_of] says of a key. *)
Lemma common_prefix_of_shape (parent k : string) :
  common_prefix_of parent k = true ->
  exists seg, k = (parent ++ seg ++ "/")%string /\ seg <> "" /\ count sep seg = 0.
Proof.
  unfold common_prefix_of.
  destruct (strip_prefix parent k) as [r |] eqn:E; [| discriminate].
  intros H. apply andb_true_iff in H. destruct H as [H Hlen].
  apply andb_true_iff in H. destruct H as [Hend Hcount].
  apply strip_prefix_some in E. apply endswith_split in Hend.
  destruct Hend as [seg ->]. exists seg. split; [exact E |].
  apply Nat.eqb_eq in Hcount. apply Nat.ltb_lt in Hlen.
  rewrite count_app in Hcount. rewrite length_append in Hlen.
  simpl in Hcount, Hlen. split; [| lia].
  intros ->. simpl in Hlen. lia.
Qed.

(** X1.  The depth of a folder listed under a parent is the number of
    separators of the parent's key: for every key [parent] and every
    non-empty segment without separator, the node with key
    [parent ++ seg ++ "/"] is a directory of depth [count sep parent].
    Under the root that is 0; under a directory [dir ++ "/"] whose [dir]
    does not end with the separator it is the depth of the parent plus
    one. *)
Theorem depth_of_listed_folder (parent seg : string) (cs cs' : list S3Path) :
  seg <> "" -> count sep seg = 0 ->
  let child := Node (parent ++ seg ++ "/")%string cs in
  is_dir child = true /\
  depth child = Z.of_nat (count sep parent) /\
  (parent = "" -> depth child = 0%Z) /\
  (forall dir, parent = (dir ++ "/")%string -> endswith sep dir = false ->
               depth child = (depth (Node parent cs') + 1)%Z).
Proof.
  intros Hne Hc child.
  assert (Hdir : is_dir child = true).
  { unfold is_dir, child, key_of.
    destruct (String.eqb _ ""); [reflexivity |].
    rewrite <- append_assoc, endswith_app by discriminate. reflexivity. }
  assert (Hd : depth child = Z.of_nat (count sep parent)).
  { unfold depth, child, key_of. f_equal.
    rewrite <- append_assoc. change "/"%string with (String sep "").
    rewrite rstrip_app_sep, rstrip_no_end.
    - rewrite count_app, Hc. lia.
    - rewrite endswith_app by exact Hne. now apply endswith_count_zero. }
  split; [exact Hdir |]. split; [exact Hd |]. split.
  - intros ->. exact Hd.
  - intros dir -> Hend. rewrite Hd. unfold depth, key_of.
    change "/"%string with (String sep "").
    rewrite rstrip_app_sep, rstrip_no_end by exact Hend.
    rewrite count_app. simpl. lia.
Qed.

Lemma depth_of_listed_folder_witness :
  depth (Node ("log/" ++ "example.com" ++ "/")%string []) = (depth (Node "log/" []) + 1)%Z.
Proof.
  apply (proj2 (proj2 (proj2
           (depth_of_listed_folder "log/" "example.com" [] [] ltac:(discriminate) eq_refl)))
           "log"); reflexivity.
Defined.

Lemma listed_folder_depth (parent seg : string) (cs : list S3Path) :
  seg <> "" -> count sep seg = 0 ->
  is_dir (Node (parent ++ seg ++ "/")%string cs) = true /\
  depth (Node (parent ++ seg ++ "/")%string cs) = Z.of_nat (count sep parent) /\
  count sep (parent ++ seg ++ "/")%string = S (count sep parent).
Proof.
  intros Hne Hc. split; [| split].
  - unfold is_dir, key_of. destruct (String.eqb _ ""); [reflexivity |].
    rewrite <- append_assoc, endswith_app by discriminate. reflexivity.
  - unfold depth, key_of. f_equal.
    rewrite <- append_assoc. change "/"%string with (String sep "").
    rewrite rstrip_app_sep, rstrip_no_end.
    + rewrite count_app, Hc. lia.
    + rewrite endswith_app by exact Hne. now apply endswith_count_zero.
  - rewrite !count_app, Hc. simpl. lia.
Qed.

Lemma shaped_layered (p : S3Path) :
  is_dir p = true -> s3_shaped p = true ->
  layered (Z.of_nat (count sep (key_of p))) p = true.
Proof.
  induction p as [k cs IH] using S3Path_ind. intros Hdir Hs.
  cbn [layered s3_shaped key_of] in *. rewrite Hdir. cbn [andb].
  apply forallb_forall. intros c Hc.
  rewrite forallb_forall in Hs. specialize (Hs c Hc).
  apply andb_true_iff in Hs. destruct Hs as [Hshape Hsc].
  destruct (common_prefix_of_shape _ _ Hshape) as [seg [Hk [Hne Hcount]]].
  destruct c as [ck ccs]. cbn [key_of] in Hk. subst ck.
  destruct (listed_folder_depth k seg ccs Hne Hcount) as [Hd [Hdepth Hcnt]].
  rewrite Hdepth, Z.eqb_refl. cbn [andb].
  pose proof (proj1 (Forall_forall _ _) IH _ Hc Hd Hsc) as Hl.
  cbn [key_of] in Hl. rewrite Hcnt in Hl.
  replace (Z.of_nat (count sep k) + 1)%Z with (Z.of_nat (S (count sep k))) by lia.
  exact Hl.
Qed.

(** X2.  On a directory whose listings have the shape of S3 common
    prefixes (parent key, one non-empty segment, separator, at every
    level) and whose prefixes pass through the URI unchanged,
    [find_folders(max_depth)] ends normally and yields, parents before
    children and in listing order, exactly the descendants whose depth
    is below [max_depth]. *)
Theorem find_folders_s3_shaped (max_depth : Z) (p : S3Path) :
  is_dir p = true -> uri_safe p = true -> s3_shaped p = true ->
  find_folders max_depth p =
  gen_of_list (filter (fun f => (depth f <? max_depth)%Z) (descendants p)).
Proof.
  intros Hdir Hsafe Hs. eapply find_folders_layered; [exact Hsafe |].
  now apply shaped_layered.
Qed.

Lemma find_folders_s3_shaped_witness :
  find_folders 3 test_bucket =
  gen_of_list (filter (fun f => (depth f <? 3)%Z) (descendants test_bucket)).
Proof. apply find_folders_s3_shaped; reflexivity. Defined.







(** ** Discovery of log prefixes *)

Lemma shaped_descendants_dirs (p : S3Path) :
  s3_shaped p = true -> Forall (fun f => is_dir f = true) (descendants p).
Proof.
  induction p as [k cs IH] using S3Path_ind. intros Hs.
  cbn [s3_shaped descendants] in *.
  induction IH as [|c cs Hc _ IHcs]; [constructor |].
  cbn [forallb] in Hs. apply andb_true_iff in Hs. destruct Hs as [Hcs Hrest].
  apply andb_true_iff in Hcs. destruct Hcs as [Hshape Hsc].
  cbn [flat_map]. constructor.
  - destruct (common_prefix_of_shape _ _ Hshape) as [seg [Hk [Hne Hcount]]].
    destruct c as [ck ccs]. cbn [key_of] in Hk. subst ck.
    apply (listed_folder_depth k seg ccs Hne Hcount).
  - apply Forall_app. split; [now apply Hc | now apply IHcs].
Qed.

Lemma find_log_prefixes_in_dirs (files : S3Path -> list string) (found : list S3Path) :
  Forall (fun f => is_dir f = true) found ->
  find_log_prefixes_in files (gen_of_list found)
  = gen_of_list (map key_of (filter (has_log files) found)).
Proof.
  induction 1 as [|f found Hf _ IH]; [reflexivity |].
  cbn [gen_of_list find_log_prefixes_in filter]. unfold is_file. rewrite Hf.
  cbn [negb]. destruct (has_log files f); cbn [map gen_of_list]; now rewrite IH.
Qed.

(** X4.  [find_log_prefixes] yields a file-like root unchanged and
    nothing else.  On a directory with listings of the S3 shape whose
    prefixes pass through the URI unchanged it ends normally and yields,
    in walk order, exactly the keys of the root and of the descendants
    of depth below [max_depth] that list at least one file whose key,
    as the URI built from it has it, is that of an access log. *)
Theorem find_log_prefixes_exact (files : S3Path -> list string)
    (root : S3Path) (max_depth : Z) :
  (is_file root = true ->
   find_log_prefixes files root max_depth = Yield (key_of root) Return) /\
  (is_dir root = true -> uri_safe root = true -> s3_shaped root = true ->
   find_log_prefixes files root max_depth
   = gen_of_list
       (map key_of
          (filter (fun f => existsb (fun k => _is_access_log (from_segments_key k))
                              (files f))
             (root :: filter (fun f => (depth f <? max_depth)%Z) (descendants root))))).
Proof.
  split.
  - intros H. unfold find_log_prefixes. now rewrite H.
  - intros Hdir Hsafe Hs. unfold find_log_prefixes, is_file. rewrite Hdir. cbn [negb].
    rewrite (find_folders_layered max_depth root _ Hsafe (shaped_layered root Hdir Hs)).
    rewrite find_log_prefixes_in_dirs.
    + cbn [filter]. fold (has_log files root). destruct (has_log files root); reflexivity.
    + apply Forall_forall. intros f Hf. apply filter_In in Hf.
      exact (proj1 (Forall_forall _ _) (shaped_descendants_dirs root Hs) f (proj1 Hf)).
Qed.

(** A file whose key the URI cuts short in front of its suffix counts as
    an access log of its folder. *)
Example test_has_log_rebuilt :
  _is_access_log "logs/2022-07-01-05-15-43-AB#x.txt" = false /\
  has_log (fun _ => ["logs/2022-07-01-05-15-43-AB#x.txt"]) (Node "logs/" []) = true.
Proof. split; reflexivity. Qed.

(** ** Names of keys *)

Lemma split_on_nonempty (c : ascii) (s : string) : split_on c s <> [].
Proof.
  induction s as [|a s IH]; simpl; [discriminate |].
  destruct (Ascii.eqb a c); [discriminate |].
  destruct (split_on c s); discriminate.
Qed.

Lemma split_on_app_sep (c : ascii) (s1 s2 : string) :
  split_on c (s1 ++ String c s2)%string = split_on c s1 ++ split_on c s2.
Proof.
  induction s1 as [|a s1 IH]; simpl.
  - now rewrite Ascii.eqb_refl.
  - rewrite IH. destruct (Ascii.eqb a c); [reflexivity |].
    pose proof (split_on_nonempty c s1).
    destruct (split_on c s1); [congruence | reflexivity].
Qed.

Lemma split_on_count_zero (c : ascii) (s : string) :
  count c s = 0 -> split_on c s = [s].
Proof.
  induction s as [|a s IH]; [reflexivity |].
  cbn [count split_on]. destruct (Ascii.eqb a c); [discriminate |].
  rewrite Nat.add_0_l. intros H. now rewrite (IH H).
Qed.

Lemma split_on_segments (c : ascii) (s : string) :
  Forall (fun seg => count c seg = 0) (split_on c s).
Proof.
  induction s as [|a s IH]; simpl; [repeat constructor |].
  destruct (Ascii.eqb a c) eqn:E; [constructor; [reflexivity | exact IH] |].
  destruct (split_on c s) as [|h t]; [repeat constructor; simpl; now rewrite E |].
  inversion IH; subst. constructor; [simpl; rewrite E; assumption | assumption].
Qed.

(** A name is empty or one kept segment of the key. *)
Lemma basename_segment (k : string) :
  count sep (basename k) = 0 /\
  (basename k = "" \/ PurePosixPath.keep (basename k) = true).
Proof.
  unfold basename, PurePosixPath.name, PurePosixPath.parse. cbn [PurePosixPath.parts].
  pose proof (split_on_segments sep k) as Hseg.
  induction (split_on sep k) as [|seg l IH]; [split; [reflexivity | now left] |].
  inversion Hseg as [|? ? Hs Hl]; subst. specialize (IH Hl).
  cbn [filter]. destruct (PurePosixPath.keep seg) eqn:Ek; [| exact IH].
  destruct (filter PurePosixPath.keep l) as [|seg' l'] eqn:El.
  - simpl. split; [exact Hs | now right].
  - change (last (seg :: seg' :: l') "") with (last (seg' :: l') ""). exact IH.
Qed.

Lemma basename_of_name (name : string) :
  count sep name = 0 -> name <> "" -> name <> "." -> basename name = name.
Proof.
  intros Hc Hne Hdot.
  unfold basename, PurePosixPath.name, PurePosixPath.parse. cbn [PurePosixPath.parts].
  rewrite split_on_count_zero by exact Hc. cbn [filter].
  unfold PurePosixPath.keep.
  destruct (String.eqb_spec name ""); [congruence |].
  destruct (String.eqb_spec name "."); [congruence |]. reflexivity.
Qed.

(** The name of a name is the name. *)
Lemma basename_idempotent (k : string) : basename (basename k) = basename k.
Proof.
  destruct (basename_segment k) as [Hc [-> | Hk]]; [reflexivity |].
  unfold PurePosixPath.keep in Hk. apply andb_true_iff in Hk. destruct Hk as [H1 H2].
  apply basename_of_name; [exact Hc | |].
  - intros E. rewrite E in H1. discriminate H1.
  - intros E. rewrite E in H2. discriminate H2.
Qed.

Lemma basename_under (dir name : string) :
  count sep name = 0 -> name <> "" -> name <> "." ->
  basename ((dir ++ "/") ++ name)%string = name.
Proof.
  intros Hc Hne Hdot.
  unfold basename, PurePosixPath.name, PurePosixPath.parse. cbn [PurePosixPath.parts].
  rewrite append_assoc. change ("/" ++ name)%string with (String sep name).
  rewrite split_on_app_sep, filter_app, (split_on_count_zero sep name Hc).
  cbn [filter]. unfold PurePosixPath.keep at 2.
  destruct (String.eqb_spec name ""); [congruence |].
  destruct (String.eqb_spec name "."); [congruence |].
  cbn [negb andb]. apply last_last.
Qed.

(** ** What the task builder emits *)

Lemma group_loop_nonempty (max_size max_items : Z) (objects : gen ObjectSummary) :
  forall group group_size,
    group <> [] ->
    Forall (fun bin => bin <> [])
      (gen_items (_group_objects_loop max_size max_items objects group group_size)).
Proof.
  induction objects as [| e | current objects IH]; intros group gs Hne; simpl.
  - constructor; [exact Hne | constructor].
  - constructor.
  - destruct ((gs + size current <=? max_size)%Z
              && (Z.of_nat (List.length group) + 1 <=? max_items)%Z); simpl.
    + apply IH. destruct group; discriminate.
    + constructor; [exact Hne |]. apply IH. discriminate.
Qed.

Lemma group_objects_bins (max_size max_items : Z) (objects : gen ObjectSummary) :
  (0 < max_items)%Z ->
  Forall (fun bin => bin <> [] /\ (Z.of_nat (List.length bin) <= max_items)%Z)
         (gen_items (_group_objects max_size max_items objects)).
Proof.
  intros Hpos. destruct objects as [| e | initial objects]; simpl; try constructor.
  pose proof (group_loop_nonempty max_size max_items objects [initial] (size initial)
                ltac:(discriminate)) as H1.
  assert (H2 : Forall (bin_ok max_size max_items)
                 (gen_items (_group_objects_loop max_size max_items objects
                               [initial] (size initial)))).
  { apply group_loop_bins; [exact Hpos | unfold sum_sizes; simpl; lia |].
    split; [now right | simpl; lia]. }
  apply Forall_forall. intros bin Hbin. split.
  - exact (proj1 (Forall_forall _ _) H1 bin Hbin).
  - exact (proj2 (proj1 (Forall_forall _ _) H2 bin Hbin)).
Qed.

Section TaskBuilderFacts.

Variable utc_today : date.
Variable role : string.
Variable prefix : S3URI.

(** Every task is made of one bin of one date group. *)
Lemma make_tasks_loop_bins (groups : gen (string * gen ObjectSummary)) :
  Forall (group_keyed (_date_getter utc_today)) (gen_items groups) ->
  forall task,
    In task (gen_items (_make_tasks_loop role prefix groups)) ->
    exists d bin,
      d <> "" /\ bin <> [] /\ (Z.of_nat (List.length bin) <= 6000)%Z /\
      Forall (fun o => _date_getter utc_today o = Ok d) bin /\
      task = make_task role prefix bin.
Proof.
  induction groups as [| e | [d grp] groups IH]; intros Hk task Ht;
    try contradiction.
  simpl in Hk. inversion Hk as [|? ? Hgrp Hrest]; subst.
  cbn [_make_tasks_loop] in Ht.
  destruct (String.eqb_spec d "") as [-> | Hd]; [contradiction |].
  apply gen_items_app_in in Ht. destruct Ht as [Ht | Ht]; [| now apply IH].
  rewrite gen_items_map in Ht. apply in_map_iff in Ht.
  destruct Ht as [bin [<- Hbin]].
  destruct (proj1 (Forall_forall _ _)
              (group_objects_bins max_size_default max_items_default grp ltac:(reflexivity))
              bin Hbin) as [Hne Hlen].
  exists d, bin. repeat split; try assumption.
  apply Forall_forall. intros o Ho.
  apply (proj1 (Forall_forall _ _) Hgrp o).
  apply (group_objects_in max_size_default max_items_default).
  apply in_concat. exists bin. split; assumption.
Qed.

(** X5.  Every task that [_make_tasks] emits carries the role, the
    bucket of the prefix and the prefix cut after its last separator; it
    has at least one and at most 6000 basenames; and all its basenames
    begin with the ten characters of its [date_str]: a task never mixes
    dates. *)
Theorem make_tasks_task_shape (listing : list ObjectSummary) (task : RollupTask) :
  In task (gen_items (_make_tasks utc_today role prefix listing)) ->
  s3_role task = role /\
  bucket_name task = bucket prefix /\
  common_prefix task = (rsplit1_head sep (uri_key prefix) ++ "/")%string /\
  basenames task <> [] /\
  (len task <= 6000)%Z /\
  exists d, date_str task = Ok d /\ d <> "" /\
            Forall (fun bn => take 10 bn = d) (basenames task).
Proof.
  intros Ht. unfold _make_tasks in Ht.
  destruct (make_tasks_loop_bins _ (groupby_keyed _ _) task Ht)
    as [d [bin [Hd [Hne [Hlen [Hkeys ->]]]]]].
  cbn [make_task s3_role bucket_name common_prefix basenames].
  split; [reflexivity |]. split; [reflexivity |]. split; [reflexivity |].
  split; [destruct bin; [congruence | discriminate] |].
  split; [unfold len, make_task; cbn [basenames]; rewrite length_map; exact Hlen |].
  assert (Hall : Forall (fun bn => take 10 bn = d) (map (fun o => basename (key o)) bin)).
  { apply Forall_forall. intros bn Hbn. apply in_map_iff in Hbn.
    destruct Hbn as [o [<- Ho]].
    pose proof (proj1 (Forall_forall _ _) Hkeys o Ho) as Ek.
    symmetry. apply (date_getter_past utc_today o d Ek Hd). }
  exists d. split; [| split; [exact Hd | exact Hall]].
  unfold date_str. cbn [basenames].
  destruct bin as [|o bin]; [congruence |]. cbn [map].
  unfold make_task. cbn [basenames map].
  rewrite basename_idempotent. f_equal.
  cbn [map] in Hall. inversion Hall as [|? ? Hhd _]. exact Hhd.
Qed.

End TaskBuilderFacts.

(** ** Nothing is lost on the way to the tasks *)

Lemma concat_map_map {A B : Type} (f : A -> B) (ls : list (list A)) :
  List.concat (map (map f) ls) = map f (List.concat ls).
Proof.
  induction ls as [|l ls IH]; simpl; [reflexivity |]. now rewrite map_app, IH.
Qed.

Lemma all_basenames_app (g1 g2 : gen RollupTask) :
  gen_end g1 = Returned ->
  all_basenames (gen_app g1 g2) = all_basenames g1 ++ all_basenames g2.
Proof.
  intros H. unfold all_basenames.
  now rewrite gen_items_app_returned, map_app, List.concat_app.
Qed.

Section Completeness.

Variable utc_today : date.
Variable role : string.
Variable prefix : S3URI.

(** The tasks of one date group hold the objects of the group. *)
Lemma group_complete (k : string) (o : ObjectSummary) (g : gen ObjectSummary)
    (out : gen (string * gen ObjectSummary)) :
  k <> "" -> gen_end g = Returned ->
  gen_end (_make_tasks_loop role prefix out) = Returned ->
  gen_end (_make_tasks_loop role prefix (Yield (k, Yield o g) out)) = Returned /\
  all_basenames (_make_tasks_loop role prefix (Yield (k, Yield o g) out))
  = map (fun x => basename (key x)) (o :: gen_items g)
    ++ all_basenames (_make_tasks_loop role prefix out).
Proof.
  intros Hk Hg Hout. cbn [_make_tasks_loop].
  destruct (String.eqb_spec k "") as [E | _]; [congruence |].
  cbn [_group_objects].
  destruct (group_loop_concat max_size_default max_items_default g [o] (size o) Hg)
    as [Hc He].
  assert (Hm : gen_end (gen_map (make_task role prefix)
                          (_group_objects_loop max_size_default max_items_default g
                             [o] (size o))) = Returned)
    by (now rewrite gen_end_map).
  split; [now rewrite gen_end_app_returned |].
  rewrite all_basenames_app by exact Hm. f_equal.
  unfold all_basenames. rewrite gen_items_map, map_map. cbn [make_task basenames].
  rewrite <- (map_map (map (fun x => basename (key x)))
                (fun l => l)), map_id.
  rewrite concat_map_map, Hc. reflexivity.
Qed.

Lemma groupby_from_complete (objects : list ObjectSummary) :
  forall k,
    Forall (fun x => exists k', _date_getter utc_today x = Ok k' /\ k' <> "") objects ->
    let g := fst (groupby_from String.eqb (_date_getter utc_today) k objects) in
    let out := snd (groupby_from String.eqb (_date_getter utc_today) k objects) in
    gen_end g = Returned /\
    gen_end (_make_tasks_loop role prefix out) = Returned /\
    map (fun x => basename (key x)) (gen_items g)
    ++ all_basenames (_make_tasks_loop role prefix out)
    = map (fun x => basename (key x)) objects.
Proof.
  induction objects as [|o objects IH]; intros k Hall.
  - simpl. auto.
  - inversion Hall as [|? ? [k' [Ek Hk']] Hall']; subst.
    cbn [groupby_from]. rewrite Ek.
    destruct (String.eqb_spec k' k) as [-> | Hne].
    + specialize (IH k Hall'). cbv zeta in IH.
      destruct (groupby_from String.eqb (_date_getter utc_today) k objects) as [g out].
      cbn [fst snd] in *. destruct IH as [H1 [H2 H3]].
      split; [exact H1 |]. split; [exact H2 |].
      cbn [gen_items map app]. now rewrite H3.
    + specialize (IH k' Hall'). cbv zeta in IH.
      destruct (groupby_from String.eqb (_date_getter utc_today) k' objects) as [g out].
      cbn [fst snd] in *. destruct IH as [H1 [H2 H3]].
      destruct (group_complete k' o g out Hk' H1 H2) as [He Hb].
      split; [reflexivity |]. split; [exact He |].
      cbn [gen_items map app]. rewrite Hb. cbn [map app gen_items].
      now rewrite <- H3.
Qed.

Lemma make_tasks_loop_complete (objects : list ObjectSummary) :
  Forall (fun x => exists k', _date_getter utc_today x = Ok k' /\ k' <> "") objects ->
  let tasks :=
    _make_tasks_loop role prefix (groupby String.eqb (_date_getter utc_today) objects) in
  gen_end tasks = Returned /\
  all_basenames tasks = map (fun x => basename (key x)) objects.
Proof.
  intros Hall. destruct objects as [|o objects]; [split; reflexivity |].
  inversion Hall as [|? ? [k [Ek Hk]] Hall']; subst.
  cbv zeta. cbn [groupby]. rewrite Ek.
  pose proof (groupby_from_complete objects k Hall') as H. cbv zeta in H.
  destruct (groupby_from String.eqb (_date_getter utc_today) k objects) as [g out].
  cbn [fst snd] in H. destruct H as [H1 [H2 H3]].
  destruct (group_complete k o g out Hk H1 H2) as [He Hb].
  split; [exact He |]. rewrite Hb. cbn [map app gen_items]. now rewrite <- H3.
Qed.

(** X6.  When every qualifying object of the listing has a date before
    today, [_make_tasks] ends normally and the basenames of its tasks,
    in order, are the names of the qualifying objects in listing order:
    no access log is dropped, doubled or moved. *)
Theorem make_tasks_complete (listing : list ObjectSummary) :
  Forall (fun o => _is_access_log (key o) = true -> past_date utc_today o) listing ->
  let tasks := _make_tasks utc_today role prefix listing in
  gen_end tasks = Returned /\
  all_basenames tasks
  = map (fun o => basename (key o)) (filter (fun o => _is_access_log (key o)) listing).
Proof.
  intros Hpast. apply make_tasks_loop_complete. now apply filter_past.
Qed.

End Completeness.

(** X7.  When every qualifying object of the listing has a date before
    today and lies directly under the common prefix, the object keys of
    the tasks of [_make_tasks], in order, are the keys of the qualifying
    objects: a worker downloads and deletes the listed objects and no
    others. *)
Theorem make_tasks_object_keys (utc_today : date) (role : string) (prefix : S3URI)
    (listing : list ObjectSummary) :
  Forall (fun o => _is_access_log (key o) = true ->
                   past_date utc_today o /\ direct_child prefix o) listing ->
  List.concat (map object_keys (gen_items (_make_tasks utc_today role prefix listing)))
  = map key (filter (fun o => _is_access_log (key o)) listing).
Proof.
  intros H.
  assert (Hpast : Forall (fun o => _is_access_log (key o) = true -> past_date utc_today o)
                    listing).
  { eapply Forall_impl; [| exact H]. cbv beta. intros o Ho Hq. apply (Ho Hq). }
  rewrite (object_keys_concat (rsplit1_head sep (uri_key prefix) ++ "/")%string).
  - destruct (make_tasks_loop_complete utc_today role prefix
                (filter (fun o => _is_access_log (key o)) listing)
                (filter_past utc_today listing Hpast)) as [_ Hb].
    unfold all_basenames in Hb. unfold _make_tasks. rewrite Hb, map_map.
    apply map_ext_in. intros o Ho. apply filter_In in Ho. destruct Ho as [Hin Hq].
    destruct (proj1 (Forall_forall _ _) H o Hin Hq) as [_ [name [Hk [Hc [Hne Hdot]]]]].
    rewrite Hk at 1. rewrite basename_under by assumption. now rewrite Hk.
  - apply Forall_forall. intros task Ht. unfold _make_tasks in Ht.
    destruct (make_tasks_loop_bins utc_today role prefix _ (groupby_keyed _ _) task Ht)
      as [d [bin [_ [_ [_ [_ ->]]]]]].
    reflexivity.
Qed.

(** ** From the builder to the queue *)

Lemma queue_tasks_within_bound (depth : nat) (tasks : gen RollupTask) :
  Forall (fun task => (len task <= 6000)%Z /\ basenames task <> []) (gen_items tasks) ->
  queue_tasks (S depth) tasks = tasks.
Proof.
  induction tasks as [| e | task tasks IH]; intros H; try reflexivity.
  cbn [gen_items] in H. inversion H as [|? ? [Hlen Hne] Hrest]; subst.
  rewrite queue_tasks_unfold.
  destruct (Z.gtb_spec (len task) 6000) as [Hgt | _]; [lia |].
  unfold date_str. destruct (basenames task); [congruence |]. now rewrite IH.
Qed.

Lemma make_tasks_loop_forall {A : Type} (P : A -> Prop) (n : nat) :
  forall active pending : list (gen A),
    Forall (fun g => Forall P (gen_items g)) active ->
    Forall (fun g => Forall P (gen_items g)) pending ->
    Forall P (gen_items (make_tasks_loop n active pending)).
Proof.
  induction n as [|n IH]; intros active pending Ha Hp; [constructor |].
  destruct active as [|[| e | a g] active]; cbn [make_tasks_loop]; try constructor.
  - inversion Ha as [|? ? _ Ha']; subst.
    destruct pending as [|m pending].
    + now apply IH.
    + inversion Hp as [|? ? Hm Hp']; subst. apply IH; [| exact Hp'].
      apply Forall_app. split; [exact Ha' | now constructor].
  - inversion Ha as [|? ? Hg Ha']; subst. cbn [gen_items] in Hg.
    inversion Hg; subst. assumption.
  - inversion Ha as [|? ? Hg Ha']; subst. cbn [gen_items] in Hg.
    inversion Hg; subst. apply IH; [| exact Hp].
    apply Forall_app. split; [exact Ha' | now constructor].
Qed.

Lemma make_tasks_forall {A : Type} (P : A -> Prop) (task_makers : list (gen A)) :
  Forall (fun g => Forall P (gen_items g)) task_makers ->
  Forall P (gen_items (make_tasks task_makers)).
Proof.
  intros H. unfold make_tasks. apply make_tasks_loop_forall.
  - apply Forall_forall. intros g Hg.
    apply (proj1 (Forall_forall _ _) H g).
    rewrite <- (firstn_skipn window task_makers). apply in_or_app. now left.
  - apply Forall_forall. intros g Hg.
    apply (proj1 (Forall_forall _ _) H g).
    rewrite <- (firstn_skipn window task_makers). apply in_or_app. now right.
Qed.

(** X8.  With room for one call, the producer sends exactly the tasks
    that the scheduler yields, one message for each and in the same
    order: the tasks of [_make_tasks] are within the bound of
    [queue_tasks] and never empty, so none is split and formatting none
    of them raises; an exception of the task stream escapes after the
    tasks before it are sent. *)
Theorem producer_sends_scheduled (utc_today : date) (depth : nat) (role : string)
    (listing : S3URI -> list ObjectSummary) (log_prefixes : list S3URI) :
  1 <= depth ->
  producer utc_today depth role listing log_prefixes
  = make_tasks
      (map (fun prefix => _make_tasks utc_today role prefix (listing prefix)) log_prefixes).
Proof.
  intros Hdepth. destruct depth as [|depth]; [lia |]. unfold producer.
  apply queue_tasks_within_bound. apply make_tasks_forall.
  apply Forall_forall. intros g Hg. apply in_map_iff in Hg.
  destruct Hg as [prefix [<- _]].
  apply Forall_forall. intros task Ht. unfold _make_tasks in Ht.
  destruct (make_tasks_loop_bins utc_today role prefix _ (groupby_keyed _ _) task Ht)
    as [d [bin [_ [Hne [Hlen [_ ->]]]]]].
  unfold len, make_task. cbn [basenames]. rewrite length_map.
  split; [exact Hlen |]. destruct bin; [congruence | discriminate].
Qed.

(** ** The scheduler loses nothing and keeps every prefix in order *)

Lemma flat_map_perm {A B : Type} (f : A -> list B) (l l' : list A) :
  Permutation l l' -> Permutation (flat_map f l) (flat_map f l').
Proof.
  induction 1 as [| x l l' _ IH | x y l | l l' l'' _ IH1 _ IH2]; simpl.
  - constructor.
  - now apply Permutation_app_head.
  - rewrite !app_assoc. apply Permutation_app_tail, Permutation_app_comm.
  - eapply perm_trans; eassumption.
Qed.

Section SchedulerComplete.

Context {A : Type}.

Lemma make_tasks_loop_perm (n : nat) :
  forall active pending : list (gen A),
    makers_size active + makers_size pending < n ->
    (active = [] -> pending = []) ->
    Forall (fun g => gen_end g = Returned) (active ++ pending) ->
    gen_end (make_tasks_loop n active pending) = Returned /\
    Permutation (gen_items (make_tasks_loop n active pending))
                (flat_map gen_items (active ++ pending)).
Proof.
  induction n as [|n IH]; intros active pending Hn Hinv Hret; [lia |].
  destruct active as [|[| e | a g] active]; cbn [make_tasks_loop].
  - rewrite (Hinv eq_refl). split; [reflexivity | constructor].
  - inversion Hret as [|? ? _ Hret']; subst.
    destruct pending as [|m pending].
    + destruct (IH active []) as [He Hp].
      * unfold makers_size in *. simpl in *. lia.
      * intros ->. reflexivity.
      * exact Hret'.
      * split; [exact He | exact Hp].
    + destruct (IH (active ++ [m]) pending) as [He Hp].
      * rewrite makers_size_app. unfold makers_size in *. simpl in *. lia.
      * intros E. destruct active; discriminate E.
      * now rewrite <- app_assoc.
      * split; [exact He |]. rewrite <- app_assoc in Hp. exact Hp.
  - inversion Hret as [|? ? Hr _]; subst. discriminate Hr.
  - inversion Hret as [|? ? Hg Hret']; subst. cbn [gen_end] in Hg.
    destruct (IH (active ++ [g]) pending) as [He Hp].
    + rewrite makers_size_app. unfold makers_size in *. simpl in *. lia.
    + intros E. destruct active; discriminate E.
    + rewrite <- app_assoc. apply Forall_app. apply Forall_app in Hret'.
      destruct Hret' as [Ha Hp]. split; [exact Ha | now constructor].
    + split; [exact He |]. cbn [gen_items gen_end app flat_map].
      apply perm_skip. eapply perm_trans; [exact Hp |].
      rewrite <- app_assoc. change (g :: active ++ pending) with ([g] ++ active ++ pending).
      rewrite !flat_map_app. cbn [flat_map]. rewrite app_nil_r.
      rewrite !app_assoc. apply Permutation_app_tail, Permutation_app_comm.
Qed.

(** X9.  When no prefix raises, [make_tasks] ends normally and its tasks
    are those of all prefixes taken together, each as often as its
    prefix yields it: the window of 20 and the rotation drop and double
    nothing. *)
Theorem make_tasks_all_tasks (task_makers : list (gen A)) :
  Forall (fun g => gen_end g = Returned) task_makers ->
  gen_end (make_tasks task_makers) = Returned /\
  Permutation (gen_items (make_tasks task_makers)) (flat_map gen_items task_makers).
Proof.
  intros H. unfold make_tasks.
  pose proof (make_tasks_loop_perm (S (makers_size task_makers))
                (firstn window task_makers) (skipn window task_makers)) as L.
  rewrite firstn_skipn in L. apply L.
  - rewrite makers_size_firstn_skipn. lia.
  - intros E. destruct task_makers; [reflexivity | discriminate E].
  - exact H.
Qed.

Variable P : A -> bool.

Lemma filter_none_of (g : gen A) :
  (yields_some P) g = false -> filter P (gen_items g) = [].
Proof.
  unfold yields_some. induction (gen_items g) as [|a l IH]; [reflexivity |].
  simpl. destruct (P a); [discriminate | exact IH].
Qed.

Lemma yields_some_count_perm (l l' : list (gen A)) :
  Permutation l l' ->
  List.length (filter (yields_some P) l) = List.length (filter (yields_some P) l').
Proof.
  induction 1 as [| x l l' _ IH | x y l | l l' l'' _ IH1 _ IH2]; simpl.
  - reflexivity.
  - destruct ((yields_some P) x); simpl; now rewrite IH.
  - destruct ((yields_some P) x), ((yields_some P) y); reflexivity.
  - congruence.
Qed.

(** With at most one generator that has items of the kind [P], the
    order of the generators does not matter for these items. *)
Lemma flat_map_filter_perm (l l' : list (gen A)) :
  Permutation l l' ->
  List.length (filter (yields_some P) l) <= 1 ->
  flat_map (fun g => filter P (gen_items g)) l
  = flat_map (fun g => filter P (gen_items g)) l'.
Proof.
  induction 1 as [| x l l' _ IH | x y l | l l' l'' H1 IH1 _ IH2]; intros Hc.
  - reflexivity.
  - simpl. rewrite IH; [reflexivity |].
    simpl in Hc. destruct ((yields_some P) x); simpl in Hc; lia.
  - simpl in *. destruct ((yields_some P) y) eqn:Ey.
    + destruct ((yields_some P) x) eqn:Ex; [simpl in Hc; lia |].
      now rewrite (filter_none_of x Ex).
    + now rewrite (filter_none_of y Ey).
  - rewrite IH1 by exact Hc. apply IH2.
    now rewrite <- (yields_some_count_perm _ _ H1).
Qed.

Lemma make_tasks_loop_filter (n : nat) :
  forall active pending : list (gen A),
    makers_size active + makers_size pending < n ->
    (active = [] -> pending = []) ->
    Forall (fun g => gen_end g = Returned) (active ++ pending) ->
    List.length (filter (yields_some P) (active ++ pending)) <= 1 ->
    filter P (gen_items (make_tasks_loop n active pending))
    = flat_map (fun g => filter P (gen_items g)) (active ++ pending).
Proof.
  induction n as [|n IH]; intros active pending Hn Hinv Hret Hc; [lia |].
  destruct active as [|[| e | a g] active]; cbn [make_tasks_loop].
  - now rewrite (Hinv eq_refl).
  - inversion Hret as [|? ? _ Hret']; subst.
    destruct pending as [|m pending].
    + change (filter P (gen_items (make_tasks_loop n active []))
              = flat_map (fun g => filter P (gen_items g)) (active ++ [])).
      apply IH.
      * unfold makers_size in *. simpl in *. lia.
      * intros ->. reflexivity.
      * exact Hret'.
      * exact Hc.
    + change (filter P (gen_items (make_tasks_loop n (active ++ [m]) pending))
              = flat_map (fun g => filter P (gen_items g)) (active ++ m :: pending)).
      change (List.length (filter (yields_some P) (active ++ m :: pending)) <= 1) in Hc.
      rewrite IH.
      * now rewrite <- app_assoc.
      * rewrite makers_size_app. unfold makers_size in *. simpl in *. lia.
      * intros E. destruct active; discriminate E.
      * now rewrite <- app_assoc.
      * rewrite <- app_assoc. exact Hc.
  - inversion Hret as [|? ? Hr _]; subst. discriminate Hr.
  - inversion Hret as [|? ? Hg Hret']; subst. cbn [gen_end] in Hg.
    assert (Hperm : Permutation ((active ++ [g]) ++ pending) (g :: active ++ pending)).
    { rewrite <- app_assoc. apply Permutation_sym.
      apply (Permutation_middle active pending g). }
    assert (Hc' : List.length (filter (yields_some P) ((active ++ [g]) ++ pending)) <= 1).
    { rewrite (yields_some_count_perm _ _ Hperm).
      cbn [app filter] in Hc |- *. unfold yields_some at 1. unfold yields_some at 1 in Hc.
      cbn [gen_items existsb] in Hc.
      destruct (existsb P (gen_items g)).
      - rewrite orb_true_r in Hc. exact Hc.
      - destruct (P a || false); simpl in Hc |- *; lia. }
    rewrite <- app_comm_cons. cbn [gen_items filter flat_map].
    rewrite (IH (active ++ [g]) pending).
    + rewrite (flat_map_filter_perm _ _ Hperm Hc'). cbn [flat_map].
      destruct (P a); reflexivity.
    + rewrite makers_size_app. unfold makers_size in *. simpl in *. lia.
    + intros E. destruct active; discriminate E.
    + rewrite <- app_assoc. apply Forall_app. apply Forall_app in Hret'.
      destruct Hret' as [Ha Hp]. split; [exact Ha | now constructor].
    + exact Hc'.
Qed.

End SchedulerComplete.

Lemma filter_tag {A : Type} (i j : nat) (g : gen A) :
  filter (fun x => Nat.eqb (fst x) i) (gen_items (gen_map (pair j) g))
  = if Nat.eqb j i then gen_items (gen_map (pair j) g) else [].
Proof.
  induction g as [| e | a g IH]; simpl.
  - now destruct (Nat.eqb j i).
  - now destruct (Nat.eqb j i).
  - rewrite IH. now destruct (Nat.eqb j i).
Qed.

Lemma yields_some_tag {A : Type} (i j : nat) (g : gen A) :
  j <> i -> yields_some (fun x => Nat.eqb (fst x) i) (gen_map (pair j) g) = false.
Proof.
  intros Hne. unfold yields_some.
  induction g as [| e | a g IH]; simpl; try reflexivity.
  rewrite IH. apply Nat.eqb_neq in Hne. now rewrite Hne.
Qed.

Lemma tag_from_count {A : Type} (i : nat) (task_makers : list (gen A)) :
  forall start,
    List.length (filter (yields_some (fun x => Nat.eqb (fst x) i))
                   (tag_from start task_makers)) <= 1 /\
    (i < start ->
     filter (yields_some (fun x => Nat.eqb (fst x) i)) (tag_from start task_makers) = []).
Proof.
  induction task_makers as [|m ms IH]; intros start; [simpl; split; [lia | reflexivity] |].
  destruct (IH (S start)) as [IH1 IH2]. cbn [tag_from filter].
  destruct (Nat.eq_dec start i) as [-> | Hne].
  - rewrite (IH2 ltac:(lia)). split; [| lia].
    destruct (yields_some _ _); simpl; lia.
  - rewrite (yields_some_tag i start m Hne). split; [exact IH1 |].
    intros Hlt. apply IH2. lia.
Qed.

Lemma tag_from_prefix {A : Type} (i : nat) (task_makers : list (gen A)) :
  forall start,
    map snd (flat_map (fun g => filter (fun x => Nat.eqb (fst x) i) (gen_items g))
               (tag_from start task_makers))
    = if (start <=? i)%nat then gen_items (nth (i - start) task_makers Return) else [].
Proof.
  induction task_makers as [|m ms IH]; intros start.
  - simpl. destruct (start <=? i)%nat; [| reflexivity]. now destruct (i - start).
  - cbn [tag_from flat_map]. rewrite map_app, IH, filter_tag.
    destruct (Nat.eqb_spec start i) as [-> | Hne].
    + rewrite Nat.leb_refl, Nat.sub_diag. cbn [nth].
      destruct (Nat.leb_spec (S i) i); [lia |].
      rewrite app_nil_r, gen_items_map, map_map. cbn [snd]. apply map_id.
    + cbn [map app]. destruct (Nat.leb_spec start i) as [Hle | Hgt].
      * destruct (Nat.leb_spec (S start) i); [| lia].
        replace (i - start) with (S (i - S start)) by lia. reflexivity.
      * destruct (Nat.leb_spec (S start) i); [lia | reflexivity].
Qed.

Lemma tag_from_returned {A : Type} (task_makers : list (gen A)) :
  forall start,
    Forall (fun g => gen_end g = Returned) task_makers ->
    Forall (fun g => gen_end g = Returned) (tag_from start task_makers).
Proof.
  induction task_makers as [|m ms IH]; intros start H; [constructor |].
  inversion H; subst. cbn [tag_from]. constructor; [now rewrite gen_end_map | now apply IH].
Qed.

(** X10.  When no prefix raises, the tasks of each prefix come out of
    [make_tasks] in the order in which the prefix yields them: the
    interleaving never reorders the tasks of one prefix. *)
Theorem make_tasks_keeps_order {A : Type} (task_makers : list (gen A)) (i : nat) :
  Forall (fun g => gen_end g = Returned) task_makers ->
  from_prefix i (gen_items (make_tasks (tag_makers task_makers)))
  = gen_items (nth i task_makers Return).
Proof.
  intros H. unfold from_prefix, make_tasks, tag_makers.
  rewrite make_tasks_loop_filter.
  - rewrite firstn_skipn, tag_from_prefix. cbn [Nat.leb]. now rewrite Nat.sub_0_r.
  - rewrite makers_size_firstn_skipn. lia.
  - intros E. destruct (tag_from 0 task_makers); [reflexivity | discriminate E].
  - rewrite firstn_skipn. now apply tag_from_returned.
  - rewrite firstn_skipn. apply tag_from_count.
Qed.

Lemma make_tasks_keeps_order_witness :
  from_prefix 0
    (gen_items (make_tasks (tag_makers [gen_of_list [1; 2; 3]; gen_of_list [4];
                                        gen_of_list [5; 6]])))
  = [1; 2; 3].
Proof.
  apply (make_tasks_keeps_order [gen_of_list [1; 2; 3]; gen_of_list [4]; gen_of_list [5; 6]] 0).
  repeat constructor.
Defined.

Lemma make_tasks_all_tasks_witness :
  Permutation
    (gen_items (make_tasks [gen_of_list [1; 2; 3]; gen_of_list [4]; gen_of_list [5; 6]]))
    [1; 2; 3; 4; 5; 6].
Proof.
  apply (make_tasks_all_tasks [gen_of_list [1; 2; 3]; gen_of_list [4]; gen_of_list [5; 6]]).
  repeat constructor.
Defined.

(** ** Tasks without basenames *)

(** X11.  A task without basenames makes [queue_tasks] raise
    [ValueError] where the task is formatted for the log line: the tasks
    before it are sent, the task itself and everything after it are
    not. *)
Theorem queue_tasks_stops_at_empty (depth : nat) (before after : list RollupTask)
    (task : RollupTask) :
  2 <= depth ->
  Forall (fun t => basenames t <> []) before ->
  basenames task = [] ->
  let sent := queue_tasks depth (gen_of_list (before ++ task :: after)) in
  gen_end sent = Raised ValueError /\
  gen_items sent = gen_items (queue_tasks depth (gen_of_list before)) /\
  all_basenames sent = List.concat (map basenames before).
Proof.
  intros Hdepth Hbefore Hempty. destruct depth as [|[|depth]]; try lia. cbv zeta.
  assert (H : gen_end (queue_tasks (S (S depth)) (gen_of_list (before ++ task :: after)))
              = Raised ValueError /\
              gen_items (queue_tasks (S (S depth)) (gen_of_list (before ++ task :: after)))
              = gen_items (queue_tasks (S (S depth)) (gen_of_list before))).
  { induction Hbefore as [|t before Hne _ IH].
    - cbn [app gen_of_list]. rewrite queue_tasks_unfold.
      destruct (Z.gtb_spec (len task) 6000) as [Hgt | _].
      + unfold len in Hgt. rewrite Hempty in Hgt. simpl in Hgt. lia.
      + unfold date_str. rewrite Hempty. split; reflexivity.
    - destruct IH as [IHe IHi]. cbn [app gen_of_list].
      destruct (Z.gtb_spec (len t) 6000) as [Hgt | Hle].
      + rewrite !queue_tasks_oversized by lia.
        assert (He : gen_end (split t 6000) = Returned).
        { rewrite split_items by lia. apply gen_end_of_list. }
        rewrite gen_end_app_returned, !gen_items_app_returned by exact He.
        split; [exact IHe | now rewrite IHi].
      + rewrite !(queue_tasks_unfold (S depth) (Yield t _)).
        destruct (Z.gtb_spec (len t) 6000) as [Hgt | _]; [lia |].
        unfold date_str. destruct (basenames t); [congruence |].
        cbn [gen_end gen_items]. split; [exact IHe | now rewrite IHi]. }
  destruct H as [He Hi]. split; [exact He |]. split; [exact Hi |].
  unfold all_basenames. rewrite Hi.
  apply (queue_tasks_complete depth before Hbefore).
Qed.

Lemma queue_tasks_stops_at_empty_witness :
  gen_end (queue_tasks 2 (gen_of_list ([sample_task] ++ empty_task :: [test_task])))
  = Raised ValueError.
Proof.
  apply (queue_tasks_stops_at_empty 2 [sample_task] [test_task] empty_task).
  - lia.
  - repeat constructor; discriminate.
  - reflexivity.
Defined.

(** X12.  A message that cannot be decoded, or whose task has no
    basenames, stops [get_tasks] before the task is yielded: the worker
    has handled and deleted the messages before it, and neither this
    message nor a later one is processed or deleted. *)
Theorem get_tasks_stops_at_bad_message (Message : Type)
    (loads : Message -> result RollupTask) (process : RollupTask -> result string)
    (done rest : list Message) (message : Message) (e : exn) :
  Forall (fun m => exists t key,
              loads m = Ok t /\ basenames t <> [] /\ process t = Ok key) done ->
  (loads message = Err e \/
   exists task, loads message = Ok task /\ basenames task = [] /\ e = ValueError) ->
  worker Message loads process (done ++ message :: rest)
  = flat_map (handled loads) done ++ [Escaped e] /\
  deleted (worker Message loads process (done ++ message :: rest)) = done.
Proof.
  intros Hdone Hbad.
  assert (H : worker Message loads process (done ++ message :: rest)
              = flat_map (handled loads) done ++ [Escaped e]).
  { unfold worker. induction Hdone as [|m done [t [key [Hl [Hne Hp]]]] _ IH].
    - cbn [app get_tasks flat_map]. destruct Hbad as [-> | [task [-> [Hempty ->]]]].
      + reflexivity.
      + unfold date_str. rewrite Hempty. reflexivity.
    - cbn [app get_tasks flat_map]. unfold handled at 1. rewrite Hl. unfold date_str.
      destruct (basenames t); [congruence |].
      cbn [worker_loop]. rewrite Hp, IH. reflexivity. }
  split; [exact H |]. rewrite H. unfold deleted.
  rewrite flat_map_app. cbn [flat_map app]. rewrite app_nil_r.
  now apply deleted_handled with (process := process).
Qed.

Lemma get_tasks_stops_at_bad_message_witness :
  deleted (worker nat poisoned_loads (fun _ => Ok "example.com/rollup.tgz")
             ([0; 1] ++ 2 :: [3]))
  = [0; 1].
Proof.
  apply (get_tasks_stops_at_bad_message nat poisoned_loads
           (fun _ => Ok "example.com/rollup.tgz") [0; 1] [3] 2 ValueError).
  - repeat constructor; exists sample_task, "example.com/rollup.tgz";
      (split; [reflexivity | split; [discriminate | reflexivity]]).
  - right. exists empty_task. repeat split.
Defined.

(** X13.  [handle_sqs_event] treats the records of an event as the
    worker loop treats the messages it receives: the same tasks are
    processed and the same entries deleted, in the same order, and both
    stop at the same failure. *)
Theorem handle_sqs_event_as_worker (Message : Type)
    (loads : Message -> result RollupTask) (process : RollupTask -> result string)
    (records : list Message) :
  handle_sqs_event Message loads process records
  = worker Message loads process records.
Proof.
  unfold worker. induction records as [|r records IH]; [reflexivity |].
  cbn [handle_sqs_event get_tasks].
  destruct (loads r) as [task | e]; [| reflexivity].
  destruct (date_str task) as [d | e]; [| reflexivity].
  cbn [worker_loop]. destruct (process task); [| reflexivity].
  now rewrite IH.
Qed.

(** ** The outcome of a task *)

Lemma collect_perm (download : string -> result Z) (c1 c2 : list string) :
  Permutation c1 c2 ->
  forall total, collect download c1 total = collect download c2 total
                \/ (exists e1 e2, collect download c1 total = Err e1 /\
                                  collect download c2 total = Err e2).
Proof.
  induction 1 as [| k c1 c2 _ IH | k1 k2 c | c1 c2 c3 _ IH1 _ IH2]; intros total.
  - now left.
  - cbn [collect]. destruct (download k) as [z | e]; cbn [bind].
    + apply IH.
    + right. eauto.
  - cbn [collect]. destruct (download k1) as [z1 | e1], (download k2) as [z2 | e2];
      cbn [bind]; try (right; eauto; fail).
    left. f_equal. lia.
  - destruct (IH1 total) as [E1 | [e1 [e2 [E1 E2]]]],
             (IH2 total) as [E3 | [e3 [e4 [E3 E4]]]].
    + left. congruence.
    + right. exists e3, e4. split; congruence.
    + right. exists e1, e2. split; congruence.
    + right. exists e1, e4. split; congruence.
Qed.

Lemma collect_sum (download : string -> result Z) (sizes : string -> Z)
    (completed : list string) :
  Forall (fun k => download k = Ok (sizes k)) completed ->
  forall total,
    collect download completed total
    = Ok (total + fold_right Z.add 0 (map sizes completed))%Z.
Proof.
  induction 1 as [|k completed Hk _ IH]; intros total; cbn [collect map fold_right].
  - f_equal. lia.
  - rewrite Hk. cbn [bind]. rewrite IH. f_equal. lia.
Qed.

Lemma collect_first_failure (download : string -> result Z)
    (succeeded rest : list string) (k : string) (e : exn) :
  Forall (fun k' => exists z, download k' = Ok z) succeeded ->
  download k = Err e ->
  forall total, collect download (succeeded ++ k :: rest) total = Err e.
Proof.
  induction 1 as [|k' succeeded [z Hz] _ IH]; intros Hk total; cbn [app collect].
  - now rewrite Hk.
  - rewrite Hz. cbn [bind]. now apply IH.
Qed.

Lemma delete_calls_cover (depth : nat) (task : RollupTask) :
  let calls := gen_items (_delete_objects_in_task (S (S depth)) task) in
  List.concat calls = object_keys task /\
  Forall (fun keys => (List.length keys <= 1000)%nat) calls.
Proof.
  cbv zeta. destruct (Z.gtb_spec (len task) 1000) as [Hgt | Hle].
  - rewrite delete_oversized by lia. rewrite gen_items_of_list.
    pose proof (split_chunks task 1000 ltac:(lia)) as Hc. split.
    + rewrite (object_keys_concat (common_prefix task)).
      * rewrite split_concat by lia. reflexivity.
      * eapply Forall_impl; [| exact Hc]. cbv beta. tauto.
    + apply Forall_forall. intros keys Hin. apply in_map_iff in Hin.
      destruct Hin as [chunk [<- Hin]].
      destruct (proj1 (Forall_forall _ _) Hc chunk Hin) as [_ [Hb _]].
      unfold object_keys, len in *. rewrite length_map. lia.
  - rewrite delete_small by lia. cbn [gen_items List.concat]. rewrite app_nil_r.
    split; [reflexivity |]. constructor; [| constructor].
    unfold object_keys, len in *. rewrite length_map. lia.
Qed.

Section DoTask.

Variables (task : RollupTask) (delete : bool) (tmpdir : Path) (random_str : string).
Variables (depth : nat) (download : string -> result Z).

(** X14.  The whole outcome of [do_task], not only the archive, is
    independent of the order in which the downloads complete: if the
    task succeeds for one order of completion it succeeds with the same
    archive, metadata, tarball key and deletions for every other. *)
Theorem do_task_any_completion_order (c1 c2 : list string) (outcome : TaskOutcome) :
  Permutation c1 c2 ->
  do_task task delete tmpdir random_str depth download c1 = Ok outcome ->
  do_task task delete tmpdir random_str depth download c2 = Ok outcome.
Proof.
  intros Hperm H. unfold do_task in *.
  destruct (collect_perm download c1 c2 Hperm 0%Z) as [E | [e1 [e2 [E1 E2]]]].
  - now rewrite <- E.
  - rewrite E1 in H. discriminate H.
Qed.

(** X15.  A download that fails makes [do_task] fail with the exception
    of the first failure in completion order, so that nothing is
    uploaded or deleted; and a task without basenames fails with
    [ValueError] even when there is nothing to download. *)
Theorem do_task_fails (succeeded rest : list string) (k : string) (e : exn) :
  (Forall (fun k' => exists z, download k' = Ok z) succeeded ->
   download k = Err e ->
   do_task task delete tmpdir random_str depth download (succeeded ++ k :: rest) = Err e) /\
  (basenames task = [] ->
   do_task task delete tmpdir random_str depth download [] = Err ValueError).
Proof.
  split.
  - intros Hs Hk. unfold do_task.
    now rewrite (collect_first_failure download succeeded rest k e Hs Hk).
  - intros Hempty. unfold do_task. cbn [collect bind]. unfold date_str.
    now rewrite Hempty.
Qed.

(** X16.  When [do_task] succeeds with room for one nested call, the
    outcome records the number of basenames and the sum of the sizes of
    the downloads, and the uploaded key is the tarball key of the task;
    without [delete] nothing is deleted, with [delete] the keys of the
    delete calls, in order, are the object keys of the task, at most
    1000 in a call. *)
Theorem do_task_outcome (completed : list string) (outcome : TaskOutcome) :
  2 <= depth ->
  do_task task delete tmpdir random_str depth download completed = Ok outcome ->
  original_file_count outcome = len task /\
  tarball_key task random_str = Ok (uploaded_key outcome) /\
  (forall sizes, Forall (fun k => download k = Ok (sizes k)) completed ->
                 original_file_size outcome = fold_right Z.add 0%Z (map sizes completed)) /\
  (delete = false -> delete_calls outcome = []) /\
  (delete = true ->
   List.concat (delete_calls outcome) = object_keys task /\
   Forall (fun keys => (List.length keys <= 1000)%nat) (delete_calls outcome)).
Proof.
  intros Hdepth H. destruct depth as [|[|depth']]; try lia. unfold do_task in H.
  destruct (collect download completed 0%Z) as [total |] eqn:Ec; [| discriminate H].
  cbn [bind] in H.
  destruct (date_str task) as [d |]; [| discriminate H]. cbn [bind] in H.
  destruct (tarball_key task random_str) as [tk |]; [| discriminate H]. cbn [bind] in H.
  destruct (gen_end _) eqn:Ee; [| discriminate H].
  injection H as <-. cbn [original_file_count uploaded_key original_file_size delete_calls].
  split; [reflexivity |]. split; [reflexivity |]. split; [| split].
  - intros sizes Hs. rewrite (collect_sum download sizes completed Hs) in Ec.
    injection Ec as <-. lia.
  - intros ->. reflexivity.
  - intros ->. apply delete_calls_cover.
Qed.

End DoTask.

Lemma do_task_any_completion_order_witness :
  do_task test_task false ["tmp"; "tmpa1b2c3"] "0a1b2c3d" 2 (fun _ => Ok 3%Z)
    (rev (object_keys test_task))
  = Ok (mkOutcome (basenames test_task) 8 24
          "example.com/rollup-2022-06-30-0a1b2c3d.tgz" []).
Proof.
  apply (do_task_any_completion_order test_task false ["tmp"; "tmpa1b2c3"] "0a1b2c3d" 2
           (fun _ => Ok 3%Z) (object_keys test_task) (rev (object_keys test_task))).
  - apply Permutation_rev.
  - reflexivity.
Defined.

Lemma do_task_fails_witness :
  do_task test_task true ["tmp"; "tmpa1b2c3"] "0a1b2c3d" 2
    (fun k => if String.eqb k "example.com/2022-06-30-18-13-48-F7334FE15D46A819"
              then Err DownloadError else Ok 3%Z)
    (firstn 2 (object_keys test_task) ++
     "example.com/2022-06-30-18-13-48-F7334FE15D46A819" :: skipn 3 (object_keys test_task))
  = Err DownloadError.
Proof.
  apply (proj1 (do_task_fails test_task true ["tmp"; "tmpa1b2c3"] "0a1b2c3d" 2 _
                  (firstn 2 (object_keys test_task)) (skipn 3 (object_keys test_task))
                  "example.com/2022-06-30-18-13-48-F7334FE15D46A819" DownloadError)).
  - repeat constructor; exists 3%Z; reflexivity.
  - reflexivity.
Defined.

Lemma do_task_outcome_witness :
  List.concat
    (delete_calls
       (mkOutcome (basenames test_task) 8 24
          "example.com/rollup-2022-06-30-0a1b2c3d.tgz" [object_keys test_task]))
  = object_keys test_task.
Proof.
  apply (do_task_outcome test_task true ["tmp"; "tmpa1b2c3"] "0a1b2c3d" 2
           (fun _ => Ok 3%Z) (object_keys test_task)); [lia | reflexivity | reflexivity].
Defined.

(** ** The key of the tarball *)

Lemma join_snoc (c : ascii) (ps : list string) (n : string) :
  ps <> [] -> join c (ps ++ [n]) = (join c ps ++ String c n)%string.
Proof.
  induction ps as [|p ps IH]; [congruence |]. intros _.
  destruct ps as [|q ps]; [reflexivity |].
  change (join c ((p :: q :: ps) ++ [n]))
    with (p ++ String c (join c ((q :: ps) ++ [n])))%string.
  rewrite IH by discriminate.
  change (join c (p :: q :: ps)) with (p ++ String c (join c (q :: ps)))%string.
  rewrite append_assoc. reflexivity.
Qed.

Lemma parse_root_cases (s : string) :
  PurePosixPath.parse_root s = "" \/ PurePosixPath.parse_root s = "/"
  \/ PurePosixPath.parse_root s = "//".
Proof.
  unfold PurePosixPath.parse_root.
  destruct (PurePosixPath.leading s) as [|[|[|n]]]; auto.
Qed.

(** The name of a path written out is its last part. *)
Lemma basename_to_string (root : string) (ps : list string) (n : string) :
  root = "" \/ root = "/" \/ root = "//" ->
  count sep n = 0 -> n <> "" -> n <> "." ->
  basename (PurePosixPath.to_string (PurePosixPath.mk root (ps ++ [n]))) = n.
Proof.
  intros Hroot Hc Hne Hdot.
  assert (E : PurePosixPath.to_string (PurePosixPath.mk root (ps ++ [n]))
              = (root ++ join sep (ps ++ [n]))%string).
  { unfold PurePosixPath.to_string. cbn [PurePosixPath.root PurePosixPath.parts].
    destruct (ps ++ [n]) eqn:El; [destruct ps; discriminate El |].
    destruct root; reflexivity. }
  rewrite E. destruct ps as [|p ps].
  - cbn [app join]. destruct Hroot as [-> | [-> | ->]].
    + now apply basename_of_name.
    + now apply (basename_under "" n).
    + now apply (basename_under "/" n).
  - rewrite join_snoc by discriminate.
    change (String sep n) with ("/" ++ n)%string.
    rewrite <- !append_assoc. now apply basename_under.
Qed.

Lemma is_access_log_needs_pattern (k : string) :
  re_match datetime_pattern (basename k) = false -> _is_access_log k = false.
Proof.
  unfold _is_access_log, basename. intros H. now rewrite H.
Qed.

(** X17.  A tarball key, when [tarball_key] gives one, has the name
    [rollup-<date_str>-<random>.tgz] and never qualifies as an access
    log: a later run does not pick up the tarballs of an earlier one. *)
Theorem tarball_key_not_access_log (task : RollupTask) (random_str k : string) :
  tarball_key task random_str = Ok k ->
  (exists d, date_str task = Ok d /\
             basename k = (TARBALL_PREFIX ++ "-" ++ d ++ "-" ++ random_str ++ ".tgz")%string) /\
  _is_access_log k = false.
Proof.
  intros H. unfold tarball_key in H.
  destruct (basenames task) as [|bn bns] eqn:Eb; [discriminate H |].
  unfold date_str in H |- *. rewrite Eb in H |- *. cbn [bind] in H.
  unfold PurePosixPath.with_name in H.
  destruct (String.eqb (PurePosixPath.name _) ""); [discriminate H |].
  set (n := (TARBALL_PREFIX ++ "-" ++ take 10 (basename bn) ++ "-" ++ random_str ++ ".tgz")%string)
    in *.
  destruct (String.eqb_spec n "") as [E1 | Hne]; [discriminate H |].
  destruct (Nat.eqb_spec (count sep n) 0) as [Hc | Hc]; [| discriminate H].
  destruct (String.eqb_spec n ".") as [E3 | Hdot]; [discriminate H |].
  cbn [orb negb bind] in H. injection H as <-.
  split.
  - exists (take 10 (basename bn)). split; [reflexivity |].
    apply basename_to_string; try assumption. apply parse_root_cases.
  - apply is_access_log_needs_pattern.
    rewrite basename_to_string; try assumption; [reflexivity | apply parse_root_cases].
Qed.

(** ** Dates that parse *)

Lemma month_day_read_table :
  forallb (fun m1 => forallb (fun m2 => forallb (fun d1 => forallb (fun d2 =>
    month_day_read m1 m2 d1 d2) digits) digits) digits) digits = true.
Proof. vm_compute. reflexivity. Qed.

Lemma days_in_month_le (y m : Z) : (days_in_month y m <= 31)%Z.
Proof.
  unfold days_in_month.
  destruct (m =? 2)%Z; [destruct (is_leap y); lia |].
  destruct ((m =? 4) || (m =? 6) || (m =? 9) || (m =? 11))%Z; lia.
Qed.

Lemma strptime_of_valid (s : string) :
  valid_calendar_date s -> strptime_ymd s = Some (read_date s).
Proof.
  intros [y1 [y2 [y3 [y4 [m1 [m2 [d1 [d2 [-> [Hd H]]]]]]]]]]. cbv zeta in H.
  destruct H as [Hy [Hm Hday]].
  pose proof (proj1 (Forall_forall _ _) Hd) as Hin.
  assert (Hy1 : is_digit y1 = true) by (apply Hin; simpl; tauto).
  assert (Hy2 : is_digit y2 = true) by (apply Hin; simpl; tauto).
  assert (Hy3 : is_digit y3 = true) by (apply Hin; simpl; tauto).
  assert (Hy4 : is_digit y4 = true) by (apply Hin; simpl; tauto).
  assert (Hm1 : is_digit m1 = true) by (apply Hin; simpl; tauto).
  assert (Hm2 : is_digit m2 = true) by (apply Hin; simpl; tauto).
  assert (Hd1 : is_digit d1 = true) by (apply Hin; simpl; tauto).
  assert (Hd2 : is_digit d2 = true) by (apply Hin; simpl; tauto).
  pose proof month_day_read_table as T.
  rewrite forallb_forall in T. specialize (T m1 (is_digit_in _ Hm1)).
  rewrite forallb_forall in T. specialize (T m2 (is_digit_in _ Hm2)).
  rewrite forallb_forall in T. specialize (T d1 (is_digit_in _ Hd1)).
  rewrite forallb_forall in T. specialize (T d2 (is_digit_in _ Hd2)).
  unfold month_day_read in T. cbv zeta in T.
  pose proof (days_in_month_le
                (1000 * digit_value y1 + 100 * digit_value y2
                 + 10 * digit_value y3 + digit_value y4)
                (10 * digit_value m1 + digit_value m2)).
  replace ((1 <=? 10 * digit_value m1 + digit_value m2)
           && (10 * digit_value m1 + digit_value m2 <=? 12)
           && (1 <=? 10 * digit_value d1 + digit_value d2)
           && (10 * digit_value d1 + digit_value d2 <=? 31))%Z with true in T
    by (symmetry; repeat (apply andb_true_iff; split); apply Z.leb_le; lia).
  unfold strptime_ymd, year_alt.
  rewrite (read_decimals_4 _ _ _ _ _ _ _ _ _ _ _ _ _
             (next_char_ascii y1 _ (proj1 (is_digit_width y1 Hy1))) (decimal_digit y1 Hy1)
             (next_char_ascii y2 _ (proj1 (is_digit_width y2 Hy2))) (decimal_digit y2 Hy2)
             (next_char_ascii y3 _ (proj1 (is_digit_width y3 Hy3))) (decimal_digit y3 Hy3)
             (next_char_ascii y4 _ (proj1 (is_digit_width y4 Hy4))) (decimal_digit y4 Hy4)).
  cbn [eat_hyphen].
  destruct (match_month_day _) as [[[m d] rest] |]; [| discriminate T].
  destruct rest; [| discriminate T].
  apply andb_true_iff in T. destruct T as [Tm Td].
  apply Z.eqb_eq in Tm, Td. subst m d.
  unfold make_date, read_date.
  replace ((1 <=? _) && _ && _ && _ && _ && _)%Z with true; [reflexivity |].
  symmetry. repeat (apply andb_true_iff; split); apply Z.leb_le; lia.
Qed.

(** X18.  For an object whose name begins with a calendar date,
    [_date_getter] does not raise: it gives the empty marker when the
    date is today or later and the ten characters of the date when it is
    earlier. *)
Theorem date_getter_classifies (utc_today : date) (o : ObjectSummary) :
  valid_calendar_date (take 10 (basename (key o))) ->
  _date_getter utc_today o =
  if date_geb (read_date (take 10 (basename (key o)))) utc_today
  then Ok "" else Ok (take 10 (basename (key o))).
Proof.
  intros H. unfold _date_getter. now rewrite (strptime_of_valid _ H).
Qed.

(** ** Splitting again *)

Lemma split_whole (task : RollupTask) (n : Z) :
  (0 < len task <= n)%Z -> split task n = Yield task Return.
Proof.
  intros H. rewrite split_items by lia.
  destruct (range_len_ceil (len task) n) as [_ Hc]; [lia | lia |].
  assert (E : range_len 0 (len task) n = 1) by nia.
  rewrite E. cbn [seq map gen_of_list]. f_equal.
  destruct task as [r b p bs]. cbn [s3_role bucket_name common_prefix basenames].
  f_equal. cbn [Nat.mul skipn]. apply firstn_all2.
  unfold len in H. cbn [basenames] in H. lia.
Qed.

(** X19.  For [n > 0], splitting a chunk of [split(n)] again gives the
    chunk itself, and so does splitting a task that has between 1 and
    [n] basenames; a task without basenames splits into nothing. *)
Theorem split_again (task : RollupTask) (n : Z) :
  (0 < n)%Z ->
  Forall (fun chunk => split chunk n = Yield chunk Return) (gen_items (split task n)) /\
  ((0 < len task <= n)%Z -> split task n = Yield task Return) /\
  (basenames task = [] -> split task n = Return).
Proof.
  intros Hn. split; [| split].
  - pose proof (split_chunks task n Hn) as Hc.
    eapply Forall_impl; [| exact Hc]. cbv beta. intros chunk [_ [Hlen Hne]].
    apply split_whole. unfold len in *. destruct (basenames chunk); [congruence |].
    simpl List.length in *. lia.
  - apply split_whole.
  - intros Hempty. rewrite split_items by exact Hn.
    unfold range_len, len. rewrite Hempty. cbn [List.length Z.of_nat].
    replace ((0 - 0 + n - 1) / n)%Z with 0%Z; [reflexivity |].
    symmetry. apply Z.div_small. lia.
Qed.

Lemma split_again_witness :
  split test_task 8 = Yield test_task Return.
Proof.
  apply (proj1 (proj2 (split_again test_task 8 ltac:(lia)))). unfold len. simpl. lia.
Defined.

(** ** Bins are as full as the order allows *)

Lemma group_loop_greedy (max_size max_items : Z) (objects : gen ObjectSummary) :
  forall group group_size,
    group_size = sum_sizes group ->
    let bins := gen_items (_group_objects_loop max_size max_items objects group group_size) in
    greedy max_size max_items bins /\
    (forall bin rest, bins = bin :: rest -> exists more, bin = group ++ more).
Proof.
  induction objects as [| e | current objects IH]; intros group gs Hgs; cbv zeta.
  - simpl. split; [tauto |]. intros bin rest H. injection H as <- <-.
    exists []. now rewrite app_nil_r.
  - simpl. split; [tauto | discriminate].
  - cbn [_group_objects_loop].
    destruct (Z.leb_spec (gs + size current) max_size) as [Hs | Hs];
      [destruct (Z.leb_spec (Z.of_nat (List.length group) + 1) max_items) as [Hi | Hi] |];
      cbn [andb].
    + destruct (IH (group ++ [current]) (gs + size current)%Z) as [Hg Hh];
        [rewrite sum_sizes_snoc; lia |].
      split; [exact Hg |]. intros bin rest H.
      destruct (Hh bin rest H) as [more ->]. exists (current :: more).
      now rewrite <- app_assoc.
    + destruct (IH [current] (size current)) as [Hg Hh]; [unfold sum_sizes; simpl; lia |].
      cbn [gen_items greedy]. split.
      * split; [| exact Hg].
        destruct (gen_items _) as [|bin rest] eqn:E; [exact I |].
        destruct (Hh bin rest eq_refl) as [more ->]. cbn [app]. right. lia.
      * intros bin rest H. injection H as <- <-. exists []. now rewrite app_nil_r.
    + destruct (IH [current] (size current)) as [Hg Hh]; [unfold sum_sizes; simpl; lia |].
      cbn [gen_items greedy]. split.
      * split; [| exact Hg].
        destruct (gen_items _) as [|bin rest] eqn:E; [exact I |].
        destruct (Hh bin rest eq_refl) as [more ->]. cbn [app]. left. lia.
      * intros bin rest H. injection H as <- <-. exists []. now rewrite app_nil_r.
Qed.

(** X20.  [_group_objects] packs greedily: for every pair of
    neighbouring bins, adding the first object of the second bin to the
    first would have exceeded [max_size] or [max_items]. *)
Theorem group_objects_greedy (max_size max_items : Z) (objects : gen ObjectSummary) :
  greedy max_size max_items (gen_items (_group_objects max_size max_items objects)).
Proof.
  destruct objects as [| e | initial objects]; simpl; try exact I.
  apply group_loop_greedy. unfold sum_sizes. simpl. lia.
Qed.

(** ** The common prefix of a task *)

Lemma rfind_none (c : ascii) (s : string) : count c s = 0 -> rfind c s = None.
Proof.
  induction s as [|a s IH]; [reflexivity |].
  cbn [count rfind]. destruct (Ascii.eqb a c); [discriminate |].
  rewrite Nat.add_0_l. intros H. now rewrite (IH H).
Qed.

Lemma rfind_last (c : ascii) (s t : string) :
  count c t = 0 -> rfind c (s ++ String c t)%string = Some (String.length s).
Proof.
  intros Ht. induction s as [|a s IH]; cbn [append rfind String.length].
  - now rewrite (rfind_none c t Ht), Ascii.eqb_refl.
  - now rewrite IH.
Qed.

Lemma take_length_app (s t : string) :
  take_bytes (String.length s) (s ++ t)%string = s.
Proof.
  induction s as [|a s IH]; cbn [String.length append take_bytes];
    [reflexivity | now rewrite IH].
Qed.

(** X21.  The common prefix of a task is the key of the prefix cut after
    its last separator: [a/b/c] and [a/b/] both give [a/b/].  A key
    without separator is kept whole and the separator appended, so that
    the bucket root, whose key is empty, gives [/]. *)
Theorem common_prefix_of_task (role : string) (prefix : S3URI) (bin : list ObjectSummary) :
  (forall dir rest,
      uri_key prefix = (dir ++ "/" ++ rest)%string -> count sep rest = 0 ->
      common_prefix (make_task role prefix bin) = (dir ++ "/")%string) /\
  (count sep (uri_key prefix) = 0 ->
   common_prefix (make_task role prefix bin) = (uri_key prefix ++ "/")%string) /\
  (uri_key prefix = "" -> common_prefix (make_task role prefix bin) = "/").
Proof.
  unfold make_task, rsplit1_head. cbn [common_prefix].
  split; [| split].
  - intros dir rest -> Hc. change ("/" ++ rest)%string with (String sep rest).
    now rewrite (rfind_last sep dir rest Hc), take_length_app.
  - intros Hc. now rewrite (rfind_none sep _ Hc).
  - intros ->. reflexivity.
Qed.

Lemma common_prefix_of_task_witness :
  common_prefix (make_task "role" (mkURI "bucket1" "example.com/2022-") []) = "example.com/".
Proof.
  apply (proj1 (common_prefix_of_task "role" (mkURI "bucket1" "example.com/2022-") [])
           "example.com" "2022-"); reflexivity.
Defined.

(** X22.  Whether a key qualifies as an access log depends on its last
    path component only. *)
Theorem is_access_log_by_name (k : string) :
  _is_access_log k = _is_access_log (basename k).
Proof.
  unfold _is_access_log, PurePosixPath.suffix.
  fold (basename k). fold (basename (basename k)).
  now rewrite basename_idempotent.
Qed.

(** ** Exceptions of the scheduler *)

Lemma make_tasks_loop_raises {A : Type} (e : exn) (n : nat) :
  forall active pending : list (gen A),
    gen_end (make_tasks_loop n active pending) = Raised e ->
    exists g, In g (active ++ pending) /\ gen_end g = Raised e.
Proof.
  induction n as [|n IH]; intros active pending H; [discriminate H |].
  destruct active as [|[| e' | a g] active]; cbn [make_tasks_loop] in H.
  - discriminate H.
  - destruct pending as [|m pending].
    + destruct (IH _ _ H) as [g [Hin Hg]]. exists g. split; [| exact Hg].
      rewrite app_nil_r in *. now right.
    + destruct (IH _ _ H) as [g [Hin Hg]]. exists g. split; [| exact Hg].
      rewrite <- app_assoc in Hin. now right.
  - exists (Raise e'). split; [now left | exact H].
  - cbn [gen_end] in H. destruct (IH _ _ H) as [g' [Hin Hg]].
    rewrite <- app_assoc in Hin. apply in_app_or in Hin.
    destruct Hin as [Hin | [-> | Hin]].
    + exists g'. split; [right; apply in_or_app; now left | exact Hg].
    + exists (Yield a g'). split; [now left | exact Hg].
    + exists g'. split; [right; apply in_or_app; now right | exact Hg].
Qed.

Lemma islice_ok {A : Type} (n : nat) :
  forall (task_makers : gen (gen A)) active rest,
    islice n task_makers = Ok (active, rest) ->
    gen_items task_makers = active ++ gen_items rest /\
    gen_end task_makers = gen_end rest.
Proof.
  induction n as [|n IH]; intros task_makers active rest H; cbn [islice] in H.
  - injection H as <- <-. split; reflexivity.
  - destruct task_makers as [| e | m task_makers].
    + injection H as <- <-. split; reflexivity.
    + discriminate H.
    + unfold bind in H.
      destruct (islice n task_makers) as [[active' rest'] | e] eqn:E; [| discriminate H].
      cbn [fst snd] in H. injection H as <- <-.
      destruct (IH _ _ _ E) as [H1 H2]. cbn [gen_items gen_end].
      rewrite H1. split; [reflexivity | exact H2].
Qed.

Lemma islice_err {A : Type} (n : nat) :
  forall (task_makers : gen (gen A)) e,
    islice n task_makers = Err e -> gen_end task_makers = Raised e.
Proof.
  induction n as [|n IH]; intros task_makers e H; cbn [islice] in H; [discriminate H |].
  destruct task_makers as [| e' | m task_makers]; [discriminate H | |].
  - now injection H as <-.
  - unfold bind in H.
    destruct (islice n task_makers) as [[active' rest'] | e'] eqn:E; [discriminate H |].
    injection H as <-. cbn [gen_end]. now apply IH.
Qed.

Lemma islice_of_list {A : Type} (n : nat) :
  forall l : list (gen A),
    islice n (gen_of_list l) = Ok (firstn n l, gen_of_list (skipn n l)).
Proof.
  induction n as [|n IH]; intros l; [reflexivity |].
  destruct l as [|m l]; [reflexivity |].
  cbn [gen_of_list islice firstn skipn]. rewrite IH. reflexivity.
Qed.

(** On a discovery that comes to its end the lazy loop is the loop over
    the list of what it finds. *)
Lemma make_tasks_lazy_loop_of_list {A : Type} (n : nat) :
  forall active pending : list (gen A),
    make_tasks_lazy_loop n active (gen_of_list pending)
    = make_tasks_loop n active pending.
Proof.
  induction n as [|n IH]; intros active pending; [reflexivity |].
  destruct active as [|[| e | a g] active]; cbn [make_tasks_lazy_loop make_tasks_loop];
    try reflexivity.
  - destruct pending as [|m pending]; cbn [gen_of_list].
    + apply (IH active []).
    + apply IH.
  - f_equal. apply IH.
Qed.

(** Every turn of the lazy loop uses up one item or one generator, so
    fuel above what is left changes nothing. *)
Lemma make_tasks_lazy_loop_fuel {A : Type} (n : nat) :
  forall m (active : list (gen A)) (task_makers : gen (gen A)),
    makers_size active + makers_size (gen_items task_makers) < n ->
    makers_size active + makers_size (gen_items task_makers) < m ->
    make_tasks_lazy_loop n active task_makers = make_tasks_lazy_loop m active task_makers.
Proof.
  induction n as [|n IH]; intros m active task_makers Hn Hm; [lia |].
  destruct m as [|m]; [lia |].
  destruct active as [|[| e | a g] active]; cbn [make_tasks_lazy_loop]; try reflexivity.
  - destruct task_makers as [| e | p task_makers]; [| reflexivity |].
    + apply IH; unfold makers_size in *; simpl in *; lia.
    + apply IH; rewrite makers_size_app; unfold makers_size in *; simpl in *; lia.
  - f_equal. apply IH; rewrite makers_size_app; unfold makers_size in *; simpl in *; lia.
Qed.

Lemma make_tasks_lazy_loop_raises {A : Type} (e : exn) (n : nat) :
  forall (active : list (gen A)) (task_makers : gen (gen A)),
    gen_end (make_tasks_lazy_loop n active task_makers) = Raised e ->
    gen_end task_makers = Raised e \/
    exists g, In g (active ++ gen_items task_makers) /\ gen_end g = Raised e.
Proof.
  induction n as [|n IH]; intros active task_makers H; [discriminate H |].
  destruct active as [|[| e' | a g] active]; cbn [make_tasks_lazy_loop] in H.
  - discriminate H.
  - destruct task_makers as [| e' | m task_makers].
    + destruct (IH _ _ H) as [H' | [g [Hin Hg]]]; [discriminate H' |].
      right. exists g. split; [now right | exact Hg].
    + left. exact H.
    + destruct (IH _ _ H) as [H' | [g [Hin Hg]]]; [left; exact H' |].
      right. exists g. split; [| exact Hg].
      rewrite <- app_assoc in Hin. now right.
  - right. exists (Raise e'). split; [now left | exact H].
  - cbn [gen_end] in H. destruct (IH _ _ H) as [H' | [g' [Hin Hg]]]; [left; exact H' |].
    right. rewrite <- app_assoc in Hin. apply in_app_or in Hin.
    destruct Hin as [Hin | [-> | Hin]].
    + exists g'. split; [right; apply in_or_app; now left | exact Hg].
    + exists (Yield a g'). split; [now left | exact Hg].
    + exists g'. split; [right; apply in_or_app; now right | exact Hg].
Qed.

(** X23.  What escapes from [make_tasks].  For a bucket of another
    region it raises [ValueError] before anything else.  Otherwise an
    exception that escapes from it is the exception with which the
    discovery of prefixes ends, which [islice] and [next] let through,
    or the exception with which the generator of one of the discovered
    prefixes ends; the loop raises nothing of its own.  On a discovery
    that comes to its end, [make_tasks] is the round-robin over the list
    of the prefixes found. *)
Theorem make_tasks_raises_only (A : Type) (task_makers : gen (gen A)) :
  make_tasks_lazy false task_makers = Raise ValueError /\
  (forall e,
      gen_end (make_tasks_lazy true task_makers) = Raised e ->
      gen_end task_makers = Raised e \/
      exists g, In g (gen_items task_makers) /\ gen_end g = Raised e) /\
  (gen_end task_makers = Returned ->
   make_tasks_lazy true task_makers = make_tasks (gen_items task_makers)).
Proof.
  split; [reflexivity |]. split.
  - intros e H. unfold make_tasks_lazy in H.
    destruct (islice window task_makers) as [[active rest] | e'] eqn:E.
    + destruct (islice_ok _ _ _ _ E) as [Hitems Hend].
      destruct (make_tasks_lazy_loop_raises e _ _ _ H) as [H' | [g [Hin Hg]]].
      * left. now rewrite Hend.
      * right. exists g. split; [now rewrite Hitems | exact Hg].
    + injection H as <-. left. exact (islice_err _ _ _ E).
  - intros Hend.
    assert (E : task_makers = gen_of_list (gen_items task_makers)).
    { induction task_makers as [| e | m task_makers IH]; [reflexivity | discriminate Hend |].
      cbn [gen_items gen_of_list]. f_equal. now apply IH. }
    rewrite E at 1. unfold make_tasks_lazy, make_tasks.
    rewrite islice_of_list, gen_items_of_list. apply make_tasks_lazy_loop_of_list.
Qed.

Example test_make_tasks_lazy :
  make_tasks_lazy true
    (Yield (gen_of_list [1; 2]) (Yield (Yield 3 (Raise RuntimeError)) Return))
  = Yield 1 (Yield 3 (Yield 2 (Raise RuntimeError))) /\
  make_tasks_lazy true (Yield (gen_of_list [1; 2]) (Raise NotADirectoryError))
  = Raise NotADirectoryError.
Proof. split; reflexivity. Qed.

Lemma make_tasks_raises_only_witness :
  (gen_end (Yield (gen_of_list [1; 2]) (Raise NotADirectoryError))
   = Raised NotADirectoryError \/
   exists g, In g (gen_items (Yield (gen_of_list [1; 2]) (Raise NotADirectoryError))) /\
             gen_end g = Raised NotADirectoryError) /\
  make_tasks_lazy true (gen_of_list [gen_of_list [1; 2]; gen_of_list [3]])
  = make_tasks [gen_of_list [1; 2]; gen_of_list [3]].
Proof.
  split.
  - apply (proj1 (proj2 (make_tasks_raises_only nat
                           (Yield (gen_of_list [1; 2]) (Raise NotADirectoryError))))).
    reflexivity.
  - apply (proj2 (proj2 (make_tasks_raises_only nat
                           (gen_of_list [gen_of_list [1; 2]; gen_of_list [3]])))).
    reflexivity.
Defined.

End Unicode.

(** * The digits of one script

    What was proved holds for every table of decimal digits.  Below it
    is applied to objects with ASCII names, for which no table is asked,
    and to a name with a year in Arabic-Indic digits. *)

Example test_arabic_indic_key :
  _is_access_log arabic_indic arabic_indic_key = true /\
  take 10 (basename arabic_indic_key) = (arabic_indic_year ++ "-11-01")%string /\
  _date_getter arabic_indic (mkDate 2023 1 4) (mkObject arabic_indic_key 3)
  = Ok (arabic_indic_year ++ "-11-01")%string /\
  _is_access_log ascii_only arabic_indic_key = false.
Proof. repeat split; vm_compute; reflexivity. Qed.

(** A log of a year to come stops the enumeration, in whatever digits
    its year is written. *)
Example test_make_tasks_future_year :
  _make_tasks arabic_indic (mkDate 2023 1 4) "role" sample_prefix
    [ mkObject arabic_indic_future_key 3;
      mkObject "example.com/2013-11-02-21-32-16-E568B2907131C0C0" 3 ]
  = Return.
Proof. vm_compute. reflexivity. Qed.

Lemma no_task_from_today_witness :
  _make_tasks ascii_only (mkDate 2023 1 4) "role" sample_prefix sample_listing
  = _make_tasks ascii_only (mkDate 2023 1 4) "role" sample_prefix (firstn 4 sample_listing).
Proof.
  apply (proj2 (no_task_from_today ascii_only (mkDate 2023 1 4) "role" sample_prefix
                  sample_listing)
           (firstn 4 sample_listing)
           (mkObject "example.com/2023-01-04-19-13-48-F7334FE15D46A819" 3)
           (skipn 5 sample_listing)
           (mkDate 2023 1 4)).
  - reflexivity.
  - repeat constructor; intros H; try discriminate H;
      exists (mkDate 2023 1 1); split; reflexivity.
  - reflexivity.
  - reflexivity.
  - reflexivity.
Defined.

Lemma invalid_date_aborts_witness :
  gen_end (_make_tasks ascii_only (mkDate 2023 1 4) "role" sample_prefix
             (firstn 2 sample_listing ++ mkObject bad_date_key 3 :: skipn 2 sample_listing))
  = Raised ValueError /\
  _date_getter arabic_indic (mkDate 2023 1 4) (mkObject arabic_indic_bad_key 3)
  = Err ValueError.
Proof.
  split.
  - apply (proj2 (proj2 (invalid_date_aborts ascii_only (mkDate 2023 1 4) "role"
                           sample_prefix))).
    + repeat constructor; intros H; exists (mkDate 2023 1 1); split; reflexivity.
    + reflexivity.
    + exact (proj2 (bad_date_key_qualifies ascii_only)).
  - apply (proj1 (proj2 (invalid_date_aborts arabic_indic (mkDate 2023 1 4) "role"
                           sample_prefix))).
    + vm_compute. reflexivity.
    + intros [dt [E H]]. vm_compute in E. injection E as <-. cbn in H. lia.
Defined.

Lemma find_log_prefixes_exact_witness :
  find_log_prefixes ascii_only test_files test_bucket 3
  = gen_of_list ["log/example.com/"; "log2/example.org/"].
Proof.
  rewrite (proj2 (find_log_prefixes_exact ascii_only test_files test_bucket 3)
             eq_refl eq_refl eq_refl).
  reflexivity.
Defined.

Lemma make_tasks_task_shape_witness :
  basenames sample_task <> [] /\ date_str sample_task = Ok "2023-01-01".
Proof.
  destruct (make_tasks_task_shape ascii_only (mkDate 2023 1 4) "role" sample_prefix
              sample_listing sample_task ltac:(left; reflexivity))
    as [_ [_ [_ [Hne _]]]].
  split; [exact Hne | reflexivity].
Defined.

Lemma make_tasks_complete_witness :
  all_basenames (_make_tasks ascii_only (mkDate 2023 1 4) "role" sample_prefix
                   (firstn 4 sample_listing))
  = basenames sample_task.
Proof.
  apply (make_tasks_complete ascii_only (mkDate 2023 1 4) "role" sample_prefix
           (firstn 4 sample_listing)).
  repeat constructor; intros H; try discriminate H;
    exists (mkDate 2023 1 1); split; reflexivity.
Defined.

Lemma make_tasks_object_keys_witness :
  List.concat (map object_keys
                 (gen_items (_make_tasks ascii_only (mkDate 2023 1 4) "role" sample_prefix
                               (firstn 4 sample_listing))))
  = [ "example.com/2023-01-01-19-13-48-F7334FE15D46A819";
      "example.com/2023-01-01-20-13-48-F7334FE15D46A819";
      "example.com/2023-01-01-21-13-48-F7334FE15D46A819" ].
Proof.
  apply (make_tasks_object_keys ascii_only (mkDate 2023 1 4) "role" sample_prefix
           (firstn 4 sample_listing)).
  apply Forall_forall. intros o Ho. simpl in Ho.
  destruct Ho as [<- | [<- | [<- | [<- | []]]]]; intros Hq; try discriminate Hq;
    (split;
     [exists (mkDate 2023 1 1); split; reflexivity
     | eexists; split; [reflexivity | split; [reflexivity | split; discriminate]]]).
Defined.

Lemma producer_sends_scheduled_witness :
  producer ascii_only (mkDate 2023 1 4) 1 "role" (fun _ => sample_listing) [sample_prefix]
  = Yield sample_task Return.
Proof.
  rewrite (producer_sends_scheduled ascii_only (mkDate 2023 1 4) 1 "role"
             (fun _ => sample_listing) [sample_prefix] ltac:(lia)).
  reflexivity.
Defined.

Lemma tarball_key_not_access_log_witness :
  _is_access_log ascii_only "example.com/rollup-2022-06-30-0a1b2c3d.tgz" = false.
Proof.
  apply (tarball_key_not_access_log ascii_only test_task "0a1b2c3d"). reflexivity.
Defined.

Lemma date_getter_classifies_witness :
  _date_getter ascii_only (mkDate 2023 1 4)
    (mkObject "example.com/2023-01-04-19-13-48-F7334FE15D46A819" 3) = Ok "".
Proof.
  apply (date_getter_classifies ascii_only (mkDate 2023 1 4)
           (mkObject "example.com/2023-01-04-19-13-48-F7334FE15D46A819" 3)).
  exists "2"%char, "0"%char, "2"%char, "3"%char, "0"%char, "1"%char, "0"%char, "4"%char.
  split; [reflexivity |]. split; [repeat constructor |].
  cbv. intuition congruence.
Defined.
